(** * hermez-node: codecs, event decoding, history queries and synchronizer

    A shallow embedding of the parts of the node that its specification
    makes statements about:

    - [Common]: the L2 transaction codecs and constructors of
      [common/l2tx.go];
    - [Api]: the BabyJubJub key rendering and the pagination of
      [api/dbtoapistructs.go];
    - [Eth]: the event decoding and the calldata codecs of
      [eth/rollup.go];
    - [HistoryDB]: the paginated read queries of the history database;
    - [Synchronizer]: [Sync], [reorg] and [Status] of the synchronizer;
    - [Test]: the search of the test data generators.

    Go values are modelled as follows.  Fixed-width integers are [Z] with
    the wrap-around written out where the code can wrap; a byte is a [Z] in
    [0, 256); a byte slice is a [list Z] whose capacity equals its length;
    a function returning [(T, error)] returns a [result T], which also has
    an outcome for a run-time panic. *)

From Stdlib Require Import String Ascii.
From Stdlib Require Import ZArith List Bool Lia Sorted Permutation Btauto.
Import ListNotations.
Open Scope Z_scope.

(** ** Outcomes of Go functions *)

Inductive error : Type :=
| ErrNumOverflow             (* common: "Value overflows the type" *)
| ErrRoundingLoss            (* common: Float16 encoding would lose precision *)
| ErrBadLength               (* a decoder was given a slice of the wrong length *)
| ErrBlockHashMismatchEvent  (* eth: events of one query lie in different blocks *)
| ErrNotAbleToSync           (* synchronizer: no valid block to sync from *)
| ErrNoRows                  (* database/sql: the query returned no row *)
| ErrAcquire                 (* the connection semaphore was not acquired in time *)
| ErrExternal (code : Z)     (* failure reported by an external collaborator *)
| ErrMsg (msg : string).     (* errors.New(msg) *)

Inductive result (A : Type) : Type :=
| Ok (a : A)
| Err (e : error)
| Panic.
Arguments Ok {A} a.
Arguments Err {A} e.
Arguments Panic {A}.

Definition bind {A B : Type} (r : result A) (k : A -> result B) : result B :=
  match r with
  | Ok a => k a
  | Err e => Err e
  | Panic => Panic
  end.

Notation "x <- r ;; k" := (bind r (fun x => k))
  (at level 61, r at next level, right associativity).

(** ** Byte slices *)

Definition is_byte (b : Z) : Prop := 0 <= b < 256.

Definition len (l : list Z) : Z := Z.of_nat (length l).

(** [l[lo:hi]]; slicing outside [0 <= lo <= hi <= len l] panics. *)
Definition slice (l : list Z) (lo hi : Z) : result (list Z) :=
  if (0 <=? lo) && (lo <=? hi) && (hi <=? len l)
  then Ok (firstn (Z.to_nat (hi - lo)) (skipn (Z.to_nat lo) l))
  else Panic.

(** [l[lo:]] *)
Definition slice_from (l : list Z) (lo : Z) : result (list Z) :=
  slice l lo (len l).

(** [copy(b[lo:hi], src)]: overwrites [min (hi - lo) (len src)] bytes of
    [b] from offset [lo] and gives the updated [b]. *)
Definition copy_into (b : list Z) (lo hi : Z) (src : list Z) : result (list Z) :=
  if (0 <=? lo) && (lo <=? hi) && (hi <=? len b)
  then
    let n := Nat.min (Z.to_nat (hi - lo)) (length src) in
    Ok (firstn (Z.to_nat lo) b ++ firstn n src
          ++ skipn (Z.to_nat lo + n) b)
  else Panic.

(** [b[i]] *)
Definition index (b : list Z) (i : Z) : result Z :=
  if (0 <=? i) && (i <? len b)
  then Ok (nth (Z.to_nat i) b 0)
  else Panic.

(** [b[i] = v] *)
Definition set_index (b : list Z) (i v : Z) : result (list Z) :=
  if (0 <=? i) && (i <? len b)
  then Ok (firstn (Z.to_nat i) b ++ v :: skipn (S (Z.to_nat i)) b)
  else Panic.

(** Big-endian encoding of [x] on [n] bytes (the low [8 * n] bits of [x]),
    as [binary.BigEndian.PutUintN] writes it. *)
Fixpoint be_bytes (n : nat) (x : Z) : list Z :=
  match n with
  | O => []
  | S k => (x / 256 ^ Z.of_nat k) mod 256 :: be_bytes k x
  end.

(** Big-endian value of a byte string, as [binary.BigEndian.UintN] reads it. *)
Definition be_value (bs : list Z) : Z :=
  fold_left (fun acc b => acc * 256 + b) bs 0.

Lemma len_app (a b : list Z) : len (a ++ b) = len a + len b.
Proof. unfold len. rewrite length_app. lia. Qed.

Lemma len_nonneg (a : list Z) : 0 <= len a.
Proof. unfold len. lia. Qed.

Lemma be_bytes_length (n : nat) (x : Z) : length (be_bytes n x) = n.
Proof. induction n; simpl; congruence. Qed.

Lemma be_bytes_is_byte (n : nat) (x : Z) : Forall is_byte (be_bytes n x).
Proof.
  induction n; simpl; constructor; auto.
  unfold is_byte. apply Z.mod_pos_bound. lia.
Qed.

Lemma be_bytes_split (h k : nat) (x : Z) :
  be_bytes (h + k) x = be_bytes h (x / 256 ^ Z.of_nat k) ++ be_bytes k x.
Proof.
  induction h; simpl; [reflexivity|].
  rewrite IHh. f_equal.
  rewrite Nat2Z.inj_add, Z.pow_add_r by lia.
  rewrite Z.div_div by lia.
  f_equal. f_equal. lia.
Qed.

Lemma be_value_acc (b : list Z) (acc : Z) :
  fold_left (fun a y => a * 256 + y) b acc = acc * 256 ^ len b + be_value b.
Proof.
  unfold be_value, len. revert acc.
  induction b as [|y b IH]; intros acc.
  - simpl. lia.
  - change (fold_left (fun a y0 => a * 256 + y0) (y :: b) acc)
      with (fold_left (fun a y0 => a * 256 + y0) b (acc * 256 + y)).
    change (fold_left (fun a y0 => a * 256 + y0) (y :: b) 0)
      with (fold_left (fun a y0 => a * 256 + y0) b (0 * 256 + y)).
    rewrite (IH (acc * 256 + y)), (IH (0 * 256 + y)).
    simpl length. rewrite Nat2Z.inj_succ, Z.pow_succ_r by lia. lia.
Qed.

Lemma be_value_app (a b : list Z) :
  be_value (a ++ b) = be_value a * 256 ^ len b + be_value b.
Proof.
  unfold be_value at 1. rewrite fold_left_app.
  apply be_value_acc.
Qed.

Lemma be_value_repeat0 (n : nat) : be_value (repeat 0 n) = 0.
Proof.
  unfold be_value.
  assert (H : forall acc, acc = 0 ->
            fold_left (fun a b => a * 256 + b) (repeat 0 n) acc = 0).
  { induction n; simpl; intros acc ->; auto. }
  apply H. reflexivity.
Qed.

Lemma be_value_be_bytes (n : nat) (x : Z) :
  0 <= x -> be_value (be_bytes n x) = x mod 256 ^ Z.of_nat n.
Proof.
  intros Hx. induction n.
  - simpl. unfold be_value. simpl. rewrite Z.mod_1_r. reflexivity.
  - change (be_bytes (S n) x)
      with ([(x / 256 ^ Z.of_nat n) mod 256] ++ be_bytes n x).
    rewrite be_value_app, IHn. unfold len. rewrite be_bytes_length.
    unfold be_value at 1. simpl fold_left.
    rewrite Nat2Z.inj_succ, Z.pow_succ_r by lia.
    rewrite (Z.mul_comm 256), Z.rem_mul_r by lia.
    lia.
Qed.

Lemma slice_from_skipn (l : list Z) (n : nat) :
  (n <= length l)%nat -> slice_from l (Z.of_nat n) = Ok (skipn n l).
Proof.
  intros Hn. unfold slice_from, slice, len.
  replace ((0 <=? Z.of_nat n) && (Z.of_nat n <=? Z.of_nat (length l))
             && (Z.of_nat (length l) <=? Z.of_nat (length l))) with true
    by (symmetry; rewrite !andb_true_iff, !Z.leb_le; lia).
  rewrite Nat2Z.id. f_equal.
  apply firstn_all2. rewrite length_skipn. lia.
Qed.

Lemma slice_app (pre mid post : list Z) :
  slice (pre ++ mid ++ post) (len pre) (len pre + len mid) = Ok mid.
Proof.
  unfold slice. rewrite !len_app.
  pose proof (len_nonneg pre). pose proof (len_nonneg mid).
  pose proof (len_nonneg post).
  replace ((0 <=? len pre) && (len pre <=? len pre + len mid)
             && (len pre + len mid <=? len pre + (len mid + len post)))
    with true by (symmetry; rewrite !andb_true_iff, !Z.leb_le; lia).
  unfold len. rewrite Nat2Z.id.
  replace (Z.to_nat (Z.of_nat (length pre) + Z.of_nat (length mid)
                       - Z.of_nat (length pre))) with (length mid) by lia.
  rewrite skipn_app, skipn_all, Nat.sub_diag. simpl.
  rewrite firstn_app, firstn_all, Nat.sub_diag. simpl.
  apply f_equal, app_nil_r.
Qed.

Lemma copy_into_app (pre mid post src : list Z) :
  length src = length mid ->
  copy_into (pre ++ mid ++ post) (len pre) (len pre + len mid) src
  = Ok (pre ++ src ++ post).
Proof.
  intros Hlen. unfold copy_into. rewrite !len_app.
  pose proof (len_nonneg pre). pose proof (len_nonneg mid).
  pose proof (len_nonneg post).
  replace ((0 <=? len pre) && (len pre <=? len pre + len mid)
             && (len pre + len mid <=? len pre + (len mid + len post)))
    with true by (symmetry; rewrite !andb_true_iff, !Z.leb_le; lia).
  unfold len. rewrite Nat2Z.id.
  replace (Z.to_nat (Z.of_nat (length pre) + Z.of_nat (length mid)
                       - Z.of_nat (length pre))) with (length src) by lia.
  rewrite Nat.min_id, firstn_all.
  rewrite firstn_app, firstn_all, Nat.sub_diag. simpl. rewrite app_nil_r.
  rewrite skipn_app, skipn_all2 by lia.
  replace (length pre + length src - length pre)%nat with (length mid) by lia.
  rewrite skipn_app, skipn_all, Nat.sub_diag. simpl.
  reflexivity.
Qed.

Lemma index_app (pre post : list Z) (v : Z) :
  index (pre ++ v :: post) (len pre) = Ok v.
Proof.
  unfold index. rewrite len_app. pose proof (len_nonneg pre).
  pose proof (len_nonneg post).
  replace ((0 <=? len pre) && (len pre <? len pre + len (v :: post)))
    with true.
  - unfold len. rewrite Nat2Z.id, app_nth2, Nat.sub_diag by lia. reflexivity.
  - symmetry. rewrite andb_true_iff, Z.leb_le, Z.ltb_lt.
    unfold len in *. simpl length. lia.
Qed.

Lemma set_index_app (pre post : list Z) (old v : Z) :
  set_index (pre ++ old :: post) (len pre) v = Ok (pre ++ v :: post).
Proof.
  unfold set_index. rewrite len_app. pose proof (len_nonneg pre).
  replace ((0 <=? len pre) && (len pre <? len pre + len (old :: post)))
    with true.
  - unfold len. rewrite Nat2Z.id.
    rewrite firstn_app, firstn_all, Nat.sub_diag. simpl firstn.
    rewrite app_nil_r.
    change (S (length pre)) with (1 + length pre)%nat.
    rewrite <- skipn_skipn, skipn_app, skipn_all, Nat.sub_diag. reflexivity.
  - symmetry. rewrite andb_true_iff, Z.leb_le, Z.ltb_lt.
    unfold len in *. simpl length. lia.
Qed.

Lemma slice_at (b pre mid post : list Z) (lo hi : Z) :
  b = pre ++ mid ++ post -> lo = len pre -> hi = lo + len mid ->
  slice b lo hi = Ok mid.
Proof. intros -> -> ->. apply slice_app. Qed.

Lemma copy_into_at (b pre mid post src : list Z) (lo hi : Z) :
  b = pre ++ mid ++ post -> lo = len pre -> hi = lo + len mid ->
  length src = length mid ->
  copy_into b lo hi src = Ok (pre ++ src ++ post).
Proof. intros -> -> ->. apply copy_into_app. Qed.

Lemma index_at (b pre post : list Z) (v i : Z) :
  b = pre ++ v :: post -> i = len pre -> index b i = Ok v.
Proof. intros -> ->. apply index_app. Qed.

Lemma set_index_at (b pre post : list Z) (old v i : Z) :
  b = pre ++ old :: post -> i = len pre ->
  set_index b i v = Ok (pre ++ v :: post).
Proof. intros -> ->. apply set_index_app. Qed.

Lemma len_repeat (x : Z) (n : nat) : len (repeat x n) = Z.of_nat n.
Proof. unfold len. rewrite repeat_length. reflexivity. Qed.

Lemma len_be_bytes (n : nat) (x : Z) : len (be_bytes n x) = Z.of_nat n.
Proof. unfold len. rewrite be_bytes_length. reflexivity. Qed.

Lemma be_bytes_low (h k : nat) (x : Z) :
  skipn h (be_bytes (h + k) x) = be_bytes k x.
Proof.
  rewrite be_bytes_split, skipn_app, be_bytes_length, Nat.sub_diag.
  rewrite skipn_all2 by (rewrite be_bytes_length; lia).
  reflexivity.
Qed.

Lemma be_value_padded (h k : nat) (x : Z) :
  0 <= x < 256 ^ Z.of_nat k ->
  be_value (repeat 0 h ++ be_bytes k x) = x.
Proof.
  intros Hx. rewrite be_value_app, be_value_repeat0, be_value_be_bytes by lia.
  rewrite Z.mod_small by exact Hx. lia.
Qed.

(** Side conditions of the [_at] lemmas: the shape of the buffer, and
    offsets that are lengths of byte strings of known size. *)
Ltac side_layout :=
  repeat match goal with x := _ |- _ => subst x end;
  try eassumption;
  try reflexivity;
  repeat rewrite <- app_assoc;
  try reflexivity;
  repeat (rewrite ?len_app, ?length_app, ?len_repeat, ?len_be_bytes,
           ?repeat_length, ?be_bytes_length);
  try reflexivity; try lia;
  unfold len; cbn [length app]; try reflexivity; lia.

(** [common.Block]: a block of the Ethereum chain, its hash held as the
    integer that the 32 bytes spell. *)
Record Block : Type := mkBlock {
  EthBlockNum : Z;
  Hash : Z;
  Timestamp : Z
}.

(** * common: L2 transactions *)

Module Common.

(** Constants and codecs of package [common] that the L2 transaction codec
    calls.  [ErrNumOverflow] is the error that [common] declares for a value
    that overflows its type. *)

Definition maxIdxValue : Z := 0xffffffffffff.
Definition maxNonceValue : Z := 0xffffffffff.
Definition IdxBytesLen : Z := 6.
Definition TxIDPrefixL2Tx : Z := 2.

(** Modelled from the spec: [Idx.Bytes], whose source is not available.
    "Idx <-> 6 bytes big-endian"; an [Idx] is a 48-bit unsigned integer,
    and a value that does not fit overflows the type. *)
Definition Idx_Bytes (idx : Z) : result (list Z) :=
  if idx >? maxIdxValue then Err ErrNumOverflow else Ok (be_bytes 6 idx).

(** Modelled from the spec: [IdxFromBytes], the other direction of
    "Idx <-> 6 bytes big-endian"; any other length is a bad length. *)
Definition IdxFromBytes (b : list Z) : result Z :=
  if len b =? IdxBytesLen then Ok (be_value b) else Err ErrBadLength.

(** Modelled from the spec: [TokenID.Bytes]; a [TokenID] is a [u32] written
    on 4 bytes, big-endian as every other field of the codecs. *)
Definition TokenID_Bytes (t : Z) : list Z := be_bytes 4 t.

(** Modelled from the spec: [Nonce.Bytes]; a [Nonce] is a [u40] written on
    5 bytes big-endian, and a value that does not fit overflows the type. *)
Definition Nonce_Bytes (n : Z) : result (list Z) :=
  if n >? maxNonceValue then Err ErrNumOverflow else Ok (be_bytes 5 n).

(** Modelled from the spec: [Float16.BigInt], the value of a 16-bit code.
    "mantissa (10 bits) . 10^exponent (5 bits) . signBit (1 bit: x0.5)":
    bits 0 to 9 are the mantissa [m], bits 11 to 15 the exponent [e], and
    bit 10 counts for 0.5 in the mantissa, that is for half of [10^e],
    which needs [e] not to be 0. *)
Definition Float16_BigInt (f : Z) : Z :=
  let m := Z.land f 0x3FF in
  let e := Z.shiftr f 11 in
  let e5 := Z.land (Z.shiftr f 10) 1 in
  let exp := 10 ^ e in
  if negb (e5 =? 0) && negb (e =? 0) then m * exp + exp / 2 else m * exp.

(** The integers [start], [start + 1], ..., [n] of them. *)
Fixpoint zseq (start : Z) (n : nat) : list Z :=
  match n with
  | O => []
  | S k => start :: zseq (start + 1) k
  end.

(** The 16-bit codes in increasing order. *)
Definition Float16_codes : list Z := zseq 0 (Z.to_nat 65536).

(** Modelled from the spec: "[NewFloat16(x)] fails if [x] cannot be
    represented exactly".  The code returned is the least 16-bit code whose
    value is exactly [x]. *)
Definition NewFloat16 (x : Z) : result Z :=
  match find (fun f => Float16_BigInt f =? x) Float16_codes with
  | Some f => Ok f
  | None => Err ErrRoundingLoss
  end.

(** Modelled from the spec: [Float16.Bytes], the 16 bits on 2 bytes
    big-endian. *)
Definition Float16_Bytes (f : Z) : list Z := be_bytes 2 f.

(** Modelled from the spec: [Float16FromBytes] reads the first 2 bytes
    big-endian. *)
Definition Float16FromBytes (b : list Z) : result Z :=
  b2 <- slice b 0 2 ;; Ok (be_value b2).

(** A non-negative integer is representable when some 16-bit code has
    exactly that value. *)
Definition Float16_representable (x : Z) : Prop :=
  exists f, 0 <= f < 65536 /\ Float16_BigInt f = x.

Lemma in_zseq (n : nat) (start f : Z) :
  In f (zseq start n) <-> start <= f < start + Z.of_nat n.
Proof.
  revert start. induction n as [|n IH]; intros start.
  - simpl. lia.
  - cbn [zseq In]. rewrite IH. lia.
Qed.

Lemma Float16_codes_range (f : Z) : In f Float16_codes <-> 0 <= f < 65536.
Proof.
  unfold Float16_codes. rewrite in_zseq. lia.
Qed.

Lemma NewFloat16_Ok (x f : Z) :
  NewFloat16 x = Ok f -> 0 <= f < 65536 /\ Float16_BigInt f = x.
Proof.
  unfold NewFloat16.
  destruct (find _ Float16_codes) as [g|] eqn:Hfind; [|discriminate].
  intros [= <-]. apply find_some in Hfind. destruct Hfind as [Hin Heq].
  split; [exact (proj1 (Float16_codes_range g) Hin) | apply Z.eqb_eq; exact Heq].
Qed.

Lemma NewFloat16_total (x : Z) :
  (exists f, NewFloat16 x = Ok f) \/ NewFloat16 x = Err ErrRoundingLoss.
Proof.
  unfold NewFloat16. destruct (find _ Float16_codes); eauto.
Qed.

Lemma NewFloat16_representable (x : Z) :
  (exists f, NewFloat16 x = Ok f) <-> Float16_representable x.
Proof.
  split.
  - intros [f Hf]. exists f. apply NewFloat16_Ok. exact Hf.
  - intros (f & Hr & Hv). unfold NewFloat16.
    destruct (find _ Float16_codes) as [g|] eqn:Hfind; [eauto|].
    exfalso.
    assert (Hne : (Float16_BigInt f =? x) = false).
    { exact (find_none _ _ Hfind f (proj2 (Float16_codes_range f) Hr)). }
    apply Z.eqb_neq in Hne. contradiction.
Qed.

Lemma NewFloat16_fails (x : Z) :
  NewFloat16 x = Err ErrRoundingLoss <-> ~ Float16_representable x.
Proof.
  rewrite <- NewFloat16_representable. split.
  - intros H [f Hf]. congruence.
  - intros H. destruct (NewFloat16_total x) as [Hex|]; [contradiction|assumption].
Qed.

(** ** [L2Tx] *)

(** An already forged L2 transaction.  [Amount] is the value of the
    [*big.Int]; [Type_] is the [TxType] string, empty when unset. *)
Record L2Tx : Type := mkL2Tx {
  TxID : list Z;
  BatchNum : Z;
  Position : Z;
  FromIdx : Z;
  ToIdx : Z;
  TokenID : Z;
  Amount : Z;
  Fee : Z;
  Nonce : Z;
  Type_ : string;
  EthBlockNum : Z
}.

(** The Go types of the fields: [Idx] and [Nonce] are [uint64], [TokenID]
    is [uint32], [FeeSelector] is [uint8]. *)
Record wf_L2Tx (tx : L2Tx) : Prop := {
  wf_FromIdx : 0 <= FromIdx tx < 2 ^ 64;
  wf_ToIdx : 0 <= ToIdx tx < 2 ^ 64;
  wf_TokenID : 0 <= TokenID tx < 2 ^ 32;
  wf_Fee : 0 <= Fee tx < 256;
  wf_Nonce : 0 <= Nonce tx < 2 ^ 64
}.

Section L2TxCodec.

(** The length [TxIDLen] of a [TxID] array, a constant of package [common]
    whose declaration is not available, and [crypto/sha256] of the Go
    library. *)
Variable TxIDLen : nat.
Variable sha256 : list Z -> list Z.

(** [L2Tx{}] *)
Definition L2Tx_zero : L2Tx :=
  {| TxID := repeat 0 TxIDLen; BatchNum := 0; Position := 0; FromIdx := 0;
     ToIdx := 0; TokenID := 0; Amount := 0; Fee := 0; Nonce := 0;
     Type_ := EmptyString; EthBlockNum := 0 |}.

(** [CalculateTxID] returns the TxID of the transaction.  Errors are kept
    up to their wrapping by [tracerr.Wrap] and [fmt.Errorf]. *)
Definition CalculateTxID (tx : L2Tx) : result (list Z) :=
  let txID := repeat 0 TxIDLen in
  let b := [] in
  (* FromIdx *)
  fromIdxBytes <- Idx_Bytes (FromIdx tx) ;;
  let b := b ++ fromIdxBytes in
  (* TokenID *)
  let b := b ++ TokenID_Bytes (TokenID tx) in
  (* Amount *)
  amountFloat16 <- NewFloat16 (Amount tx) ;;
  let b := b ++ Float16_Bytes amountFloat16 in
  (* Nonce *)
  nonceBytes <- Nonce_Bytes (Nonce tx) ;;
  let b := b ++ nonceBytes in
  (* Fee *)
  let b := b ++ [Fee tx mod 256] in
  (* calculate hash *)
  let r := sha256 b in
  txID <- set_index txID 0 TxIDPrefixL2Tx ;;
  copy_into txID 1 (len txID) r.

(** [BytesDataAvailability] encodes a L2Tx into bytes for the data
    availability: [ fromIdx | toIdx | amountFloat16 | Fee ].  [nLevels] is
    a [uint32]. *)
Definition BytesDataAvailability (tx : L2Tx) (nLevels : Z) : result (list Z) :=
  let idxLen := nLevels / 8 in
  let b := repeat 0 (Z.to_nat (((nLevels * 2 + 16 + 8) mod 2 ^ 32) / 8)) in
  fromIdxBytes <- Idx_Bytes (FromIdx tx) ;;
  src <- slice_from fromIdxBytes ((6 - idxLen) mod 2 ^ 32) ;;
  b <- copy_into b 0 idxLen src ;;
  toIdxBytes <- Idx_Bytes (ToIdx tx) ;;
  src <- slice_from toIdxBytes ((6 - idxLen) mod 2 ^ 32) ;;
  b <- copy_into b idxLen (idxLen * 2) src ;;
  amountFloat16 <- NewFloat16 (Amount tx) ;;
  b <- copy_into b (idxLen * 2) (idxLen * 2 + 2) (Float16_Bytes amountFloat16) ;;
  b <- set_index b (idxLen * 2 + 2) (Fee tx mod 256) ;;
  slice_from b 0.

(** [L2TxFromBytesDataAvailability] decodes a L2Tx from the data
    availability bytes.  [nLevels] is an [int], whose division truncates. *)
Definition L2TxFromBytesDataAvailability (b : list Z) (nLevels : Z)
  : result L2Tx :=
  let idxLen := Z.quot nLevels 8 in
  let tx := L2Tx_zero in
  src <- slice b 0 idxLen ;;
  paddedFromIdxBytes <- copy_into (repeat 0 6) (6 - idxLen) 6 src ;;
  fromIdx <- IdxFromBytes paddedFromIdxBytes ;;
  src <- slice b idxLen (idxLen * 2) ;;
  paddedToIdxBytes <- copy_into (repeat 0 6) (6 - idxLen) 6 src ;;
  toIdx <- IdxFromBytes paddedToIdxBytes ;;
  amountBytes <- slice b (idxLen * 2) (idxLen * 2 + 2) ;;
  amountFloat16 <- Float16FromBytes amountBytes ;;
  fee <- index b (idxLen * 2 + 2) ;;
  Ok {| TxID := TxID tx; BatchNum := BatchNum tx; Position := Position tx;
        FromIdx := fromIdx; ToIdx := toIdx; TokenID := TokenID tx;
        Amount := Float16_BigInt amountFloat16; Fee := fee;
        Nonce := Nonce tx; Type_ := Type_ tx;
        EthBlockNum := EthBlockNum tx |}.

(** The bytes that [CalculateTxID] hashes. *)
Definition TxID_preimage (tx : L2Tx) (amountFloat16 : Z) : list Z :=
  be_bytes 6 (FromIdx tx) ++ be_bytes 4 (TokenID tx)
    ++ be_bytes 2 amountFloat16 ++ be_bytes 5 (Nonce tx) ++ [Fee tx].

Lemma CalculateTxID_Ok (tx : L2Tx) (f : Z) :
  (1 <= TxIDLen <= 33)%nat ->
  (forall b, length (sha256 b) = 32%nat) ->
  0 <= Fee tx < 256 ->
  FromIdx tx <= maxIdxValue ->
  Nonce tx <= maxNonceValue ->
  NewFloat16 (Amount tx) = Ok f ->
  CalculateTxID tx
  = Ok (TxIDPrefixL2Tx
          :: firstn (TxIDLen - 1) (sha256 (TxID_preimage tx f))).
Proof.
  intros Hlen Hsha Hfee Hidx Hnonce Hf.
  unfold CalculateTxID, Idx_Bytes, Nonce_Bytes.
  replace (FromIdx tx >? maxIdxValue) with false by (symmetry; lia).
  replace (Nonce tx >? maxNonceValue) with false by (symmetry; lia).
  rewrite Hf. cbn [bind]. rewrite Z.mod_small by exact Hfee.
  unfold TokenID_Bytes, Float16_Bytes.
  rewrite app_nil_l, <- !app_assoc. fold (TxID_preimage tx f).
  destruct TxIDLen as [|n]; [lia|].
  change (repeat 0 (S n)) with (0 :: repeat 0 n).
  rewrite (set_index_app [] (repeat 0 n) 0 TxIDPrefixL2Tx : set_index (0 :: repeat 0 n) 0 _ = _).
  cbn [bind app].
  unfold copy_into.
  assert (Hl : len (TxIDPrefixL2Tx :: repeat 0 n) = Z.of_nat (S n)).
  { unfold len. simpl length. rewrite repeat_length. reflexivity. }
  rewrite Hl.
  replace ((0 <=? 1) && (1 <=? Z.of_nat (S n)) && (Z.of_nat (S n) <=? Z.of_nat (S n)))
    with true by (symmetry; rewrite !andb_true_iff, !Z.leb_le; lia).
  rewrite Hsha.
  replace (Nat.min (Z.to_nat (Z.of_nat (S n) - 1)) 32) with n by lia.
  change (Z.to_nat 1) with 1%nat.
  change (firstn 1 (TxIDPrefixL2Tx :: repeat 0 n)) with [TxIDPrefixL2Tx].
  rewrite skipn_all2 by (simpl length; rewrite repeat_length; lia).
  rewrite app_nil_r. simpl. rewrite Nat.sub_0_r. reflexivity.
Qed.

Lemma CalculateTxID_Err (tx : L2Tx) :
  (1 <= TxIDLen <= 33)%nat ->
  (forall b, length (sha256 b) = 32%nat) ->
  0 <= Fee tx < 256 ->
  (exists e, CalculateTxID tx = Err e) <->
  (~ Float16_representable (Amount tx)
   \/ FromIdx tx > maxIdxValue \/ Nonce tx > maxNonceValue).
Proof.
  intros Hlen Hsha Hfee.
  destruct (Z_gt_le_dec (FromIdx tx) maxIdxValue) as [Hi|Hi].
  { split; [auto|]. intros _. exists ErrNumOverflow.
    unfold CalculateTxID, Idx_Bytes.
    replace (FromIdx tx >? maxIdxValue) with true by (symmetry; lia).
    reflexivity. }
  destruct (NewFloat16_total (Amount tx)) as [[f Hf]|Hf].
  - destruct (Z_gt_le_dec (Nonce tx) maxNonceValue) as [Hn|Hn].
    + split; [auto|]. intros _. exists ErrNumOverflow.
      unfold CalculateTxID, Idx_Bytes, Nonce_Bytes.
      replace (FromIdx tx >? maxIdxValue) with false by (symmetry; lia).
      replace (Nonce tx >? maxNonceValue) with true by (symmetry; lia).
      rewrite Hf. reflexivity.
    + rewrite (CalculateTxID_Ok tx f) by assumption. split.
      * intros [e He]. discriminate.
      * intros [Hr|[Hr|Hr]]; [|lia|lia].
        exfalso. apply Hr, NewFloat16_representable. eauto.
  - split.
    + intros _. left. apply NewFloat16_fails. exact Hf.
    + intros _. exists ErrRoundingLoss.
      unfold CalculateTxID, Idx_Bytes.
      replace (FromIdx tx >? maxIdxValue) with false by (symmetry; lia).
      rewrite Hf. reflexivity.
Qed.

(** The four fields that the data availability carries, in a transaction
    whose other fields have their zero value. *)
Definition L2Tx_DA (fromIdx toIdx amount fee : Z) : L2Tx :=
  {| TxID := TxID L2Tx_zero; BatchNum := 0; Position := 0;
     FromIdx := fromIdx; ToIdx := toIdx; TokenID := 0;
     Amount := amount; Fee := fee; Nonce := 0;
     Type_ := EmptyString; EthBlockNum := 0 |}.

(** The layout [ fromIdx | toIdx | amountFloat16 | Fee ] on
    [2 * idxLen + 3] bytes. *)
Definition DA_layout (idxLen : nat) (tx : L2Tx) (amountFloat16 : Z) : list Z :=
  be_bytes idxLen (FromIdx tx) ++ be_bytes idxLen (ToIdx tx)
    ++ be_bytes 2 amountFloat16 ++ [Fee tx].

Lemma Idx_Bytes_low (idx : Z) (k : nat) :
  (k <= 6)%nat -> idx <= maxIdxValue ->
  (src <- (fromIdxBytes <- Idx_Bytes idx ;;
           slice_from fromIdxBytes ((6 - Z.of_nat k) mod 2 ^ 32)) ;; Ok src)
  = Ok (be_bytes k idx).
Proof.
  intros Hk Hidx. unfold Idx_Bytes.
  replace (idx >? maxIdxValue) with false by (symmetry; lia).
  cbn [bind]. rewrite Z.mod_small by lia.
  replace (6 - Z.of_nat k) with (Z.of_nat (6 - k)) by lia.
  rewrite slice_from_skipn by (rewrite be_bytes_length; lia).
  replace 6%nat with ((6 - k) + k)%nat at 2 by lia.
  rewrite be_bytes_low. reflexivity.
Qed.

Lemma BytesDataAvailability_layout (tx : L2Tx) (k : nat) (f : Z) :
  (k <= 6)%nat ->
  FromIdx tx <= maxIdxValue -> ToIdx tx <= maxIdxValue ->
  0 <= Fee tx < 256 ->
  NewFloat16 (Amount tx) = Ok f ->
  BytesDataAvailability tx (8 * Z.of_nat k) = Ok (DA_layout k tx f).
Proof.
  intros Hk Hfrom Hto Hfee Hf.
  pose proof (Idx_Bytes_low (FromIdx tx) k Hk Hfrom) as HF.
  pose proof (Idx_Bytes_low (ToIdx tx) k Hk Hto) as HT.
  unfold BytesDataAvailability.
  replace (8 * Z.of_nat k / 8) with (Z.of_nat k)
    by (rewrite Z.mul_comm, Z.div_mul; lia).
  replace ((8 * Z.of_nat k * 2 + 16 + 8) mod 2 ^ 32 / 8)
    with (Z.of_nat (k + (k + (2 + 1)))).
  2:{ rewrite Z.mod_small by lia.
      replace (8 * Z.of_nat k * 2 + 16 + 8)
        with (Z.of_nat (k + (k + (2 + 1))) * 8) by lia.
      rewrite Z.div_mul; lia. }
  rewrite Nat2Z.id, !repeat_app.
  set (F := be_bytes k (FromIdx tx)). set (T := be_bytes k (ToIdx tx)).
  set (A := be_bytes 2 f).
  fold F in HF. fold T in HT.
  destruct (Idx_Bytes (FromIdx tx)) as [fb| |]; cbn [bind] in HF |- *;
    try discriminate.
  destruct (slice_from fb _) as [src| |]; cbn [bind] in HF |- *;
    try discriminate.
  injection HF as ->.
  erewrite (copy_into_at _ [] (repeat 0 k)); [| side_layout ..].
  cbn [bind app].
  destruct (Idx_Bytes (ToIdx tx)) as [tb| |]; cbn [bind] in HT |- *;
    try discriminate.
  destruct (slice_from tb _) as [src| |]; cbn [bind] in HT |- *;
    try discriminate.
  injection HT as ->.
  erewrite (copy_into_at _ F (repeat 0 k)); [| side_layout ..].
  cbn [bind]. rewrite Hf. cbn [bind]. unfold Float16_Bytes. fold A.
  erewrite (copy_into_at _ (F ++ T) (repeat 0 2) (repeat 0 1)); [| side_layout ..].
  cbn [bind].
  erewrite (set_index_at _ ((F ++ T) ++ A) [] 0); [| side_layout ..].
  cbn [bind]. rewrite Z.mod_small by exact Hfee.
  change 0 with (Z.of_nat 0) at 1. rewrite slice_from_skipn by lia.
  unfold DA_layout. simpl skipn. rewrite <- !app_assoc. reflexivity.
Qed.

Lemma L2TxFromBytesDataAvailability_layout (k : nat) (fromIdx toIdx f fee : Z) :
  (k <= 6)%nat ->
  0 <= fromIdx < 256 ^ Z.of_nat k ->
  0 <= toIdx < 256 ^ Z.of_nat k ->
  0 <= f < 65536 ->
  L2TxFromBytesDataAvailability
    (be_bytes k fromIdx ++ be_bytes k toIdx ++ be_bytes 2 f ++ [fee])
    (8 * Z.of_nat k)
  = Ok (L2Tx_DA fromIdx toIdx (Float16_BigInt f) fee).
Proof.
  intros Hk Hfrom Hto Hf16.
  unfold L2TxFromBytesDataAvailability.
  replace (Z.quot (8 * Z.of_nat k) 8) with (Z.of_nat k)
    by (rewrite Z.mul_comm, Z.quot_mul; lia).
  set (F := be_bytes k fromIdx). set (T := be_bytes k toIdx).
  set (A := be_bytes 2 f).
  assert (Hpad : repeat 0 6 = repeat 0 (6 - k) ++ repeat 0 k ++ []).
  { rewrite app_nil_r, <- repeat_app. f_equal. lia. }
  erewrite (slice_at _ [] F); [| side_layout ..].
  cbn [bind].
  erewrite (copy_into_at _ _ _ _ F _ _ Hpad); [| side_layout ..].
  cbn [bind]. unfold IdxFromBytes, IdxBytesLen.
  replace (len (repeat 0 (6 - k) ++ F ++ []) =? 6) with true
    by (symmetry; apply Z.eqb_eq; side_layout).
  cbn [bind]. rewrite app_nil_r.
  erewrite (slice_at _ F T); [| side_layout ..].
  cbn [bind].
  erewrite (copy_into_at _ _ _ _ T _ _ Hpad); [| side_layout ..].
  cbn [bind].
  replace (len (repeat 0 (6 - k) ++ T ++ []) =? 6) with true
    by (symmetry; apply Z.eqb_eq; side_layout).
  cbn [bind]. rewrite app_nil_r.
  erewrite (slice_at _ (F ++ T) A [fee]); [| side_layout ..].
  cbn [bind]. unfold Float16FromBytes.
  erewrite (slice_at A [] A []); [| side_layout ..].
  cbn [bind].
  erewrite (index_at _ (F ++ T ++ A) [] fee); [| side_layout ..].
  cbn [bind]. unfold L2Tx_DA.
  cbn [TxID BatchNum Position TokenID Nonce Type_ EthBlockNum L2Tx_zero].
  subst F T A.
  rewrite !be_value_padded by assumption.
  rewrite be_value_be_bytes by lia.
  change (256 ^ Z.of_nat 2) with 65536. rewrite Z.mod_small by exact Hf16.
  reflexivity.
Qed.

End L2TxCodec.

(** ** Properties of the L2 transaction codecs *)

(** C4.  For a well-typed [L2Tx] whose [Amount] is exactly representable as
    a [Float16] (and whose [FromIdx] and [Nonce] can be serialized),
    [CalculateTxID] returns a TxID whose byte 0 is the L2 tag [0x02] and
    whose remaining bytes are the leading bytes of SHA-256 over
    [FromIdx(6, big-endian) | TokenID(4) | Float16(Amount)(2) | Nonce(5) |
    Fee(1)]; it returns an error exactly when [Amount] is not representable
    or [FromIdx] or [Nonce] cannot be serialized, and it never panics. *)
Theorem CalculateTxID_spec
  (TxIDLen : nat) (sha256 : list Z -> list Z) (tx : L2Tx) :
  (1 <= TxIDLen <= 33)%nat ->
  (forall b, length (sha256 b) = 32%nat) ->
  wf_L2Tx tx ->
  (Float16_representable (Amount tx) ->
   FromIdx tx <= maxIdxValue -> Nonce tx <= maxNonceValue ->
   exists f,
     NewFloat16 (Amount tx) = Ok f /\ Float16_BigInt f = Amount tx /\
     CalculateTxID TxIDLen sha256 tx
     = Ok (0x02 :: firstn (TxIDLen - 1)
                     (sha256 (be_bytes 6 (FromIdx tx)
                                ++ be_bytes 4 (TokenID tx)
                                ++ be_bytes 2 f
                                ++ be_bytes 5 (Nonce tx)
                                ++ [Fee tx]))))
  /\ ((exists e, CalculateTxID TxIDLen sha256 tx = Err e) <->
      (~ Float16_representable (Amount tx)
       \/ FromIdx tx > maxIdxValue \/ Nonce tx > maxNonceValue))
  /\ CalculateTxID TxIDLen sha256 tx <> Panic.
Proof.
  intros Hlen Hsha Hwf. pose proof (wf_Fee tx Hwf) as Hfee.
  split; [|split].
  - intros Hrep Hidx Hnonce.
    apply NewFloat16_representable in Hrep. destruct Hrep as [f Hf].
    exists f. split; [exact Hf|]. split; [apply (NewFloat16_Ok _ _ Hf)|].
    apply CalculateTxID_Ok; assumption.
  - apply CalculateTxID_Err; assumption.
  - destruct (Z_gt_le_dec (FromIdx tx) maxIdxValue) as [Hi|Hi];
      [|destruct (Z_gt_le_dec (Nonce tx) maxNonceValue) as [Hn|Hn];
        [|destruct (NewFloat16_total (Amount tx)) as [[f Hf]|Hf]]].
    + destruct (proj2 (CalculateTxID_Err TxIDLen sha256 tx Hlen Hsha Hfee))
        as [e He]; [auto|]. congruence.
    + destruct (proj2 (CalculateTxID_Err TxIDLen sha256 tx Hlen Hsha Hfee))
        as [e He]; [auto|]. congruence.
    + rewrite (CalculateTxID_Ok TxIDLen sha256 tx f) by assumption.
      discriminate.
    + destruct (proj2 (CalculateTxID_Err TxIDLen sha256 tx Hlen Hsha Hfee))
        as [e He]; [left; apply NewFloat16_fails; exact Hf|]. congruence.
Qed.

(** A transfer of 79000000 from account 257 to account 256 with fee
    selector 201, and the same transfer once forged with nonce 3 in token 5. *)
Definition tx_transfer : L2Tx := L2Tx_DA 12 257 256 79000000 201.

Definition tx_forged : L2Tx :=
  {| TxID := repeat 0 12; BatchNum := 0; Position := 0; FromIdx := 257;
     ToIdx := 256; TokenID := 5; Amount := 79000000; Fee := 201; Nonce := 3;
     Type_ := EmptyString; EthBlockNum := 0 |}.

(** A function of the same shape as the hash function, to run the
    definitions on concrete transactions: 32 bytes that count the bytes
    hashed. *)
Definition hash_stub (b : list Z) : list Z := repeat (len b) 32.

Lemma tx_forged_wf : wf_L2Tx tx_forged.
Proof. split; cbn; lia. Defined.

Lemma CalculateTxID_spec_witness :
  exists f,
    NewFloat16 (Amount tx_forged) = Ok f /\
    Float16_BigInt f = Amount tx_forged /\
    CalculateTxID 12 hash_stub tx_forged
    = Ok (0x02 :: firstn (12 - 1)
                    (hash_stub (be_bytes 6 (FromIdx tx_forged)
                                  ++ be_bytes 4 (TokenID tx_forged)
                                  ++ be_bytes 2 f
                                  ++ be_bytes 5 (Nonce tx_forged)
                                  ++ [Fee tx_forged]))).
Proof.
  apply (CalculateTxID_spec 12 hash_stub tx_forged).
  - lia.
  - intros b. apply repeat_length.
  - exact tx_forged_wf.
  - exists 0x2b16. split; [lia | vm_compute; reflexivity].
  - vm_compute. discriminate.
  - vm_compute. discriminate.
Defined.

Example CalculateTxID_forged :
  CalculateTxID 12 hash_stub tx_forged
  = Ok [2; 18; 18; 18; 18; 18; 18; 18; 18; 18; 18; 18].
Proof. vm_compute. reflexivity. Qed.

Example NewFloat16_79000000 : NewFloat16 79000000 = Ok 0x2b16.
Proof. vm_compute. reflexivity. Qed.

Example BytesDataAvailability_transfer :
  BytesDataAvailability tx_transfer 32
  = Ok [0x00; 0x00; 0x01; 0x01; 0x00; 0x00; 0x01; 0x00; 0x2b; 0x16; 0xc9].
Proof. vm_compute. reflexivity. Qed.

(** C5, as amended.  For a well-typed [L2Tx], [nLevels] a multiple of 8
    not above 48, [FromIdx] and [ToIdx] below [2 ^ nLevels] and [Amount]
    exactly representable, [BytesDataAvailability] gives
    [FromIdx(nLevels/8) | ToIdx(nLevels/8) | Float16(Amount)(2) | Fee(1)],
    and [L2TxFromBytesDataAvailability] decodes it to the transaction that
    has the same [FromIdx], [ToIdx], [Amount] and [Fee] and the zero value
    in every other field. *)
Theorem L2Tx_DataAvailability_roundtrip
  (TxIDLen : nat) (tx : L2Tx) (nLevels : Z) :
  wf_L2Tx tx ->
  nLevels mod 8 = 0 -> 0 <= nLevels <= 48 ->
  FromIdx tx < 2 ^ nLevels -> ToIdx tx < 2 ^ nLevels ->
  Float16_representable (Amount tx) ->
  exists f,
    NewFloat16 (Amount tx) = Ok f /\
    BytesDataAvailability tx nLevels
    = Ok (be_bytes (Z.to_nat (nLevels / 8)) (FromIdx tx)
            ++ be_bytes (Z.to_nat (nLevels / 8)) (ToIdx tx)
            ++ be_bytes 2 f ++ [Fee tx]) /\
    L2TxFromBytesDataAvailability TxIDLen
      (be_bytes (Z.to_nat (nLevels / 8)) (FromIdx tx)
         ++ be_bytes (Z.to_nat (nLevels / 8)) (ToIdx tx)
         ++ be_bytes 2 f ++ [Fee tx]) nLevels
    = Ok (L2Tx_DA TxIDLen (FromIdx tx) (ToIdx tx) (Amount tx) (Fee tx)).
Proof.
  intros Hwf Hmod Hrange Hfrom Hto Hrep.
  destruct Hwf as [[Hf0 _] [Ht0 _] _ Hfee _].
  apply NewFloat16_representable in Hrep. destruct Hrep as [f Hf].
  destruct (NewFloat16_Ok _ _ Hf) as [Hf16 Hval].
  set (k := Z.to_nat (nLevels / 8)).
  assert (Hn : nLevels = 8 * Z.of_nat k).
  { subst k. rewrite Z2Nat.id by (apply Z.div_pos; lia).
    apply Z.div_exact; lia. }
  assert (Hk : (k <= 6)%nat).
  { subst k. apply Nat2Z.inj_le. rewrite Z2Nat.id by (apply Z.div_pos; lia).
    change (Z.of_nat 6) with (48 / 8). apply Z.div_le_mono; lia. }
  assert (Hpow : 2 ^ nLevels = 256 ^ Z.of_nat k).
  { rewrite Hn, Z.pow_mul_r by lia. reflexivity. }
  assert (Hmax : 256 ^ Z.of_nat k <= maxIdxValue + 1).
  { change (maxIdxValue + 1) with (256 ^ Z.of_nat 6).
    apply Z.pow_le_mono_r; lia. }
  rewrite Hpow in Hfrom, Hto. clearbody k. subst nLevels.
  exists f. split; [exact Hf|]. split.
  - apply (BytesDataAvailability_layout tx k f); try assumption; lia.
  - rewrite <- Hval.
    apply (L2TxFromBytesDataAvailability_layout TxIDLen k); try assumption; lia.
Qed.

Lemma L2Tx_DataAvailability_roundtrip_witness :
  exists f,
    NewFloat16 (Amount tx_forged) = Ok f /\
    BytesDataAvailability tx_forged 32
    = Ok (be_bytes (Z.to_nat (32 / 8)) (FromIdx tx_forged)
            ++ be_bytes (Z.to_nat (32 / 8)) (ToIdx tx_forged)
            ++ be_bytes 2 f ++ [Fee tx_forged]) /\
    L2TxFromBytesDataAvailability 12
      (be_bytes (Z.to_nat (32 / 8)) (FromIdx tx_forged)
         ++ be_bytes (Z.to_nat (32 / 8)) (ToIdx tx_forged)
         ++ be_bytes 2 f ++ [Fee tx_forged]) 32
    = Ok (L2Tx_DA 12 (FromIdx tx_forged) (ToIdx tx_forged)
            (Amount tx_forged) (Fee tx_forged)).
Proof.
  apply (L2Tx_DataAvailability_roundtrip 12 tx_forged 32).
  - exact tx_forged_wf.
  - reflexivity.
  - lia.
  - reflexivity.
  - reflexivity.
  - exists 0x2b16. split; [lia | vm_compute; reflexivity].
Defined.

(** C5 as stated fails in two ways.  A forged transaction (nonce 3, token
    5) is in range for [nLevels = 32], yet decoding its encoding gives back
    a transaction with nonce 0 and token 0: the encoding does not carry
    those fields.  And with [nLevels = 12] the index 300 fits in [nLevels]
    bits, yet it is written on one byte and read back as 44. *)
Lemma L2Tx_DataAvailability_roundtrip_counterexample :
  (BytesDataAvailability tx_forged 32
   = Ok [0; 0; 1; 1; 0; 0; 1; 0; 43; 22; 201]
   /\ L2TxFromBytesDataAvailability 12 [0; 0; 1; 1; 0; 0; 1; 0; 43; 22; 201] 32
      = Ok tx_transfer
   /\ tx_transfer <> tx_forged)
  /\
  (300 < 2 ^ 12
   /\ BytesDataAvailability (L2Tx_DA 12 300 256 79000000 201) 12
      = Ok [44; 0; 43; 22; 201; 0]
   /\ L2TxFromBytesDataAvailability 12 [44; 0; 43; 22; 201; 0] 12
      = Ok (L2Tx_DA 12 44 0 79000000 201)).
Proof.
  repeat split; try (vm_compute; reflexivity).
  intros H. apply (f_equal Nonce) in H. discriminate H.
Qed.

(** ** [SetType], [SetID] and [NewL2Tx] *)

(** Modelled from the spec: [IdxUserThreshold], whose declaration is not
    available.  "Values 0-255 reserved, 1 reserved for exits, first user
    idx = 256". *)
Definition IdxUserThreshold : Z := 256.

(** [a == b] on byte arrays. *)
Definition bytes_eqb (a b : list Z) : bool :=
  if list_eq_dec Z.eq_dec a b then true else false.

Lemma bytes_eqb_eq (a b : list Z) : bytes_eqb a b = true <-> a = b.
Proof.
  unfold bytes_eqb. destruct (list_eq_dec Z.eq_dec a b); split;
    congruence.
Qed.

Definition set_Type (tx : L2Tx) (t : string) : L2Tx :=
  {| TxID := TxID tx; BatchNum := BatchNum tx; Position := Position tx;
     FromIdx := FromIdx tx; ToIdx := ToIdx tx; TokenID := TokenID tx;
     Amount := Amount tx; Fee := Fee tx; Nonce := Nonce tx; Type_ := t;
     EthBlockNum := EthBlockNum tx |}.

Definition set_TxID (tx : L2Tx) (txID : list Z) : L2Tx :=
  {| TxID := txID; BatchNum := BatchNum tx; Position := Position tx;
     FromIdx := FromIdx tx; ToIdx := ToIdx tx; TokenID := TokenID tx;
     Amount := Amount tx; Fee := Fee tx; Nonce := Nonce tx;
     Type_ := Type_ tx; EthBlockNum := EthBlockNum tx |}.

Section NewL2Tx.

Variable TxIDLen : nat.
Variable sha256 : list Z -> list Z.

(** The transaction types [TxTypeExit] and [TxTypeTransfer], string
    constants of package [common]. *)
Variable TxTypeExit : string.
Variable TxTypeTransfer : string.

(** [SetType] sets the type of the transaction.  The method has a pointer
    receiver: it gives the transaction after the call and the error. *)
Definition SetType (tx : L2Tx) : L2Tx * result unit :=
  if ToIdx tx =? 1 then (set_Type tx TxTypeExit, Ok tt)
  else if ToIdx tx >=? IdxUserThreshold then (set_Type tx TxTypeTransfer, Ok tt)
  else (tx, Err (ErrMsg "cannot determine type of L2Tx, invalid ToIdx value")).

(** [SetID] sets the ID of the transaction. *)
Definition SetID (tx : L2Tx) : L2Tx * result unit :=
  match CalculateTxID TxIDLen sha256 tx with
  | Ok txID => (set_TxID tx txID, Ok tt)
  | Err err => (tx, Err err)
  | Panic => (tx, Panic)
  end.

(** [NewL2Tx] returns the given L2Tx with the TxId and Type parameters
    calculated from the L2Tx values.  It works on the transaction that its
    argument points to: the outcome is that transaction after the call,
    the transaction returned ([None] for a nil pointer) and the error
    ([Ok] for nil).  The text of an error is kept without the values
    printed in it. *)
Definition NewL2Tx (tx : L2Tx) : L2Tx * (option L2Tx * result unit) :=
  let txTypeOld := Type_ tx in
  match SetType tx with
  | (tx, Err err) => (tx, (None, Err err))
  | (tx, Panic) => (tx, (None, Panic))
  | (tx, Ok _) =>
      (* If original Type doesn't match the correct one, return error *)
      if negb (String.eqb txTypeOld "")
         && negb (String.eqb txTypeOld (Type_ tx))
      then (tx, (None, Err (ErrMsg "L2Tx.Type: should be")))
      else
        let txIDOld := TxID tx in
        match SetID tx with
        | (tx, Err err) => (tx, (None, Err err))
        | (tx, Panic) => (tx, (None, Panic))
        | (tx, Ok _) =>
            (* If original TxID doesn't match the correct one, return error *)
            if negb (bytes_eqb txIDOld (repeat 0 TxIDLen))
               && negb (bytes_eqb txIDOld (TxID tx))
            then (tx, (Some tx, Err (ErrMsg "L2Tx.TxID: should be")))
            else (tx, (Some tx, Ok tt))
        end
  end.

(** The type that [SetType] gives to a transaction, when it gives one. *)
Definition type_of_ToIdx (toIdx : Z) : option string :=
  if toIdx =? 1 then Some TxTypeExit
  else if toIdx >=? IdxUserThreshold then Some TxTypeTransfer
  else None.

Lemma SetType_type_of (tx : L2Tx) :
  SetType tx
  = match type_of_ToIdx (ToIdx tx) with
    | Some t => (set_Type tx t, Ok tt)
    | None => (tx, Err (ErrMsg "cannot determine type of L2Tx, invalid ToIdx value"))
    end.
Proof.
  unfold SetType, type_of_ToIdx.
  destruct (ToIdx tx =? 1); [reflexivity|].
  destruct (ToIdx tx >=? IdxUserThreshold); reflexivity.
Qed.

Lemma CalculateTxID_set_Type (tx : L2Tx) (t : string) :
  CalculateTxID TxIDLen sha256 (set_Type tx t)
  = CalculateTxID TxIDLen sha256 tx.
Proof. reflexivity. Qed.

Lemma CalculateTxID_set_TxID (tx : L2Tx) (txID : list Z) :
  CalculateTxID TxIDLen sha256 (set_TxID tx txID)
  = CalculateTxID TxIDLen sha256 tx.
Proof. reflexivity. Qed.

Lemma NewL2Tx_Ok_char (tx tx' : L2Tx) :
  NewL2Tx tx = (tx', (Some tx', Ok tt))
  <->
  exists t txID,
    type_of_ToIdx (ToIdx tx) = Some t
    /\ (Type_ tx = EmptyString \/ Type_ tx = t)
    /\ CalculateTxID TxIDLen sha256 tx = Ok txID
    /\ (TxID tx = repeat 0 TxIDLen \/ TxID tx = txID)
    /\ tx' = set_TxID (set_Type tx t) txID.
Proof.
  unfold NewL2Tx, SetID. rewrite SetType_type_of.
  destruct (type_of_ToIdx (ToIdx tx)) as [t|] eqn:Ht.
  2:{ split; [discriminate|]. intros (t & txID & H & _). discriminate. }
  cbn [Type_ set_Type TxID].
  destruct (String.eqb_spec (Type_ tx) "") as [He|He];
    destruct (String.eqb_spec (Type_ tx) t) as [Hty|Hty]; cbn [negb andb].
  4:{ split; [discriminate|].
      intros (t0 & txID & [= <-] & [H|H] & _); contradiction. }
  all: rewrite CalculateTxID_set_Type;
    destruct (CalculateTxID TxIDLen sha256 tx) as [txID| |] eqn:Hid;
    try (split; [discriminate|];
         intros (t0 & txID0 & _ & _ & H & _); discriminate);
    cbn [TxID set_TxID];
    destruct (bytes_eqb (TxID tx) (repeat 0 TxIDLen)) eqn:Hz;
    destruct (bytes_eqb (TxID tx) txID) eqn:Hi; cbn [negb andb];
    try (apply bytes_eqb_eq in Hz); try (apply bytes_eqb_eq in Hi);
    try (split;
         [ intros [= <-]; exists t, txID; repeat split; auto
         | intros (t0 & txID0 & [= <-] & _ & [= <-] & _ & ->); reflexivity ]).
  all: split; [discriminate|];
    intros (t0 & txID0 & _ & _ & [= <-] & [H|H] & _);
    [ apply bytes_eqb_eq in H | apply bytes_eqb_eq in H ]; congruence.
Qed.

(** X1.  [NewL2Tx] returns a nil error exactly when [ToIdx] is 1 or at
    least 256, the given [Type] is empty or the type that [ToIdx]
    determines, the TxID can be calculated, and the given [TxID] is all
    zero or the calculated one.  The transaction it then returns, which is
    the one it was given, has that type and that TxID, and its other fields
    are as given. *)
Theorem NewL2Tx_Ok_iff (tx tx' : L2Tx) :
  NewL2Tx tx = (tx', (Some tx', Ok tt))
  <->
  exists t txID,
    type_of_ToIdx (ToIdx tx) = Some t
    /\ (Type_ tx = EmptyString \/ Type_ tx = t)
    /\ CalculateTxID TxIDLen sha256 tx = Ok txID
    /\ (TxID tx = repeat 0 TxIDLen \/ TxID tx = txID)
    /\ Type_ tx' = t /\ TxID tx' = txID
    /\ BatchNum tx' = BatchNum tx /\ Position tx' = Position tx
    /\ FromIdx tx' = FromIdx tx /\ ToIdx tx' = ToIdx tx
    /\ TokenID tx' = TokenID tx /\ Amount tx' = Amount tx
    /\ Fee tx' = Fee tx /\ Nonce tx' = Nonce tx
    /\ EthBlockNum tx' = EthBlockNum tx.
Proof.
  rewrite NewL2Tx_Ok_char. split.
  - intros (t & txID & Ht & Hty & Hid & Hz & ->).
    exists t, txID. repeat split; assumption.
  - intros (t & txID & Ht & Hty & Hid & Hz & Hfields).
    exists t, txID. repeat (split; [assumption|]).
    destruct tx'. cbn in Hfields. unfold set_TxID, set_Type. cbn.
    destruct Hfields as (-> & -> & -> & -> & -> & -> & -> & -> & -> & -> & ->).
    reflexivity.
Qed.

(** X2.  [NewL2Tx] is idempotent: a transaction that it returned without
    an error is returned as it is, without an error, when it is given
    again. *)
Theorem NewL2Tx_idempotent (tx tx' : L2Tx) :
  NewL2Tx tx = (tx', (Some tx', Ok tt)) ->
  NewL2Tx tx' = (tx', (Some tx', Ok tt)).
Proof.
  intros H. apply NewL2Tx_Ok_char in H.
  destruct H as (t & txID & Ht & _ & Hid & _ & ->).
  apply NewL2Tx_Ok_char. exists t, txID.
  repeat split; auto.
Qed.

(** X3.  [NewL2Tx] overwrites the transaction it is given before it
    compares: when the given [Type] is neither empty nor the one that
    [ToIdx] determines, it returns nil and an error, and the transaction
    holds the determined type; when the type is accepted and the given
    [TxID] is neither all zero nor the calculated one, it returns the
    transaction together with an error, and the transaction holds the
    determined type and the calculated TxID. *)
Theorem NewL2Tx_mismatch_overwrites (tx : L2Tx) (t : string) :
  type_of_ToIdx (ToIdx tx) = Some t ->
  (Type_ tx <> EmptyString -> Type_ tx <> t ->
   NewL2Tx tx = (set_Type tx t, (None, Err (ErrMsg "L2Tx.Type: should be"))))
  /\ (forall txID,
        Type_ tx = EmptyString \/ Type_ tx = t ->
        CalculateTxID TxIDLen sha256 tx = Ok txID ->
        TxID tx <> repeat 0 TxIDLen -> TxID tx <> txID ->
        NewL2Tx tx
        = (set_TxID (set_Type tx t) txID,
           (Some (set_TxID (set_Type tx t) txID),
            Err (ErrMsg "L2Tx.TxID: should be")))).
Proof.
  intros Ht. unfold NewL2Tx, SetID. rewrite SetType_type_of, Ht.
  cbn [Type_ set_Type TxID]. split.
  - intros He Hty.
    destruct (String.eqb_spec (Type_ tx) "") as [He'|_]; [contradiction|].
    destruct (String.eqb_spec (Type_ tx) t) as [Hty'|_]; [contradiction|].
    reflexivity.
  - intros txID Hty Hid Hz Hi.
    replace (negb (Type_ tx =? "")%string && negb (Type_ tx =? t)%string)
      with false.
    2:{ destruct Hty as [-> | ->].
        - reflexivity.
        - rewrite String.eqb_refl, andb_false_r. reflexivity. }
    rewrite CalculateTxID_set_Type, Hid. cbn [TxID set_TxID].
    destruct (bytes_eqb (TxID tx) (repeat 0 TxIDLen)) eqn:Ez;
      [apply bytes_eqb_eq in Ez; contradiction|].
    destruct (bytes_eqb (TxID tx) txID) eqn:Ei;
      [apply bytes_eqb_eq in Ei; contradiction|].
    reflexivity.
Qed.

End NewL2Tx.

(** The transfer [tx_transfer] is completed by [NewL2Tx], and completing
    it again changes nothing. *)
Lemma NewL2Tx_idempotent_witness :
  exists tx',
    NewL2Tx 12 hash_stub "Exit" "Transfer" tx_transfer
    = (tx', (Some tx', Ok tt))
    /\ NewL2Tx 12 hash_stub "Exit" "Transfer" tx'
       = (tx', (Some tx', Ok tt)).
Proof.
  eexists. split.
  - vm_compute. reflexivity.
  - apply (NewL2Tx_idempotent 12 hash_stub "Exit" "Transfer" tx_transfer).
    vm_compute. reflexivity.
Defined.

(** A transfer to account 256 that is given as an exit, and the same
    transfer given with a TxID that is not its own. *)
Definition tx_wrong_type : L2Tx := set_Type tx_transfer "Exit".

Definition tx_wrong_id : L2Tx := set_TxID tx_transfer (repeat 7 12).

Lemma NewL2Tx_mismatch_overwrites_witness :
  NewL2Tx 12 hash_stub "Exit" "Transfer" tx_wrong_type
  = (set_Type tx_wrong_type "Transfer",
     (None, Err (ErrMsg "L2Tx.Type: should be")))
  /\ NewL2Tx 12 hash_stub "Exit" "Transfer" tx_wrong_id
     = (set_TxID (set_Type tx_wrong_id "Transfer") (2 :: repeat 18 11),
        (Some (set_TxID (set_Type tx_wrong_id "Transfer") (2 :: repeat 18 11)),
         Err (ErrMsg "L2Tx.TxID: should be"))).
Proof.
  split.
  - apply (NewL2Tx_mismatch_overwrites 12 hash_stub "Exit" "Transfer"
             tx_wrong_type "Transfer" eq_refl); discriminate.
  - apply (NewL2Tx_mismatch_overwrites 12 hash_stub "Exit" "Transfer"
             tx_wrong_id "Transfer" eq_refl).
    + left. reflexivity.
    + vm_compute. reflexivity.
    + discriminate.
    + discriminate.
Defined.

(** X16.  The TxID does not identify the recipient.  [CalculateTxID]
    reads [FromIdx], [TokenID], [Amount], [Nonce] and [Fee] only: two L2
    transactions that agree on these fields get the same TxID, or fail
    alike, whatever their [ToIdx], [Type], [BatchNum], [Position] and
    [EthBlockNum]; and when [NewL2Tx] completes both, it gives them the
    same TxID. *)
Theorem CalculateTxID_same_preimage
  (TxIDLen : nat) (sha256 : list Z -> list Z) (tx1 tx2 : L2Tx) :
  FromIdx tx1 = FromIdx tx2 ->
  TokenID tx1 = TokenID tx2 ->
  Amount tx1 = Amount tx2 ->
  Nonce tx1 = Nonce tx2 ->
  Fee tx1 = Fee tx2 ->
  CalculateTxID TxIDLen sha256 tx1 = CalculateTxID TxIDLen sha256 tx2
  /\ forall TxTypeExit TxTypeTransfer tx1' tx2',
       NewL2Tx TxIDLen sha256 TxTypeExit TxTypeTransfer tx1
       = (tx1', (Some tx1', Ok tt)) ->
       NewL2Tx TxIDLen sha256 TxTypeExit TxTypeTransfer tx2
       = (tx2', (Some tx2', Ok tt)) ->
       TxID tx1' = TxID tx2'.
Proof.
  intros Hfrom Htok Ham Hn Hfee.
  assert (Heq : CalculateTxID TxIDLen sha256 tx1
                = CalculateTxID TxIDLen sha256 tx2).
  { unfold CalculateTxID. rewrite Hfrom, Htok, Ham, Hn, Hfee. reflexivity. }
  split; [exact Heq|].
  intros TxTypeExit TxTypeTransfer tx1' tx2' H1 H2.
  apply NewL2Tx_Ok_char in H1. apply NewL2Tx_Ok_char in H2.
  destruct H1 as (t1 & id1 & _ & _ & Hid1 & _ & ->).
  destruct H2 as (t2 & id2 & _ & _ & Hid2 & _ & ->).
  cbn [TxID set_TxID]. congruence.
Qed.

(** The transfer [tx_transfer] to the account 256 and the same transfer
    to the account 300. *)
Definition tx_transfer_300 : L2Tx :=
  {| TxID := repeat 0 12; BatchNum := 0; Position := 0; FromIdx := 257;
     ToIdx := 300; TokenID := 0; Amount := 79000000; Fee := 201; Nonce := 0;
     Type_ := EmptyString; EthBlockNum := 0 |}.

Lemma CalculateTxID_same_preimage_witness :
  ToIdx tx_transfer <> ToIdx tx_transfer_300
  /\ CalculateTxID 12 hash_stub tx_transfer
     = CalculateTxID 12 hash_stub tx_transfer_300
  /\ forall TxTypeExit TxTypeTransfer tx1' tx2',
       NewL2Tx 12 hash_stub TxTypeExit TxTypeTransfer tx_transfer
       = (tx1', (Some tx1', Ok tt)) ->
       NewL2Tx 12 hash_stub TxTypeExit TxTypeTransfer tx_transfer_300
       = (tx2', (Some tx2', Ok tt)) ->
       TxID tx1' = TxID tx2'.
Proof.
  split; [discriminate|].
  apply (CalculateTxID_same_preimage 12 hash_stub tx_transfer
           tx_transfer_300); reflexivity.
Defined.

(** ** [L2TxFromBytesDataAvailability] on any bytes *)

Lemma slice_inv (l : list Z) (lo hi : Z) (r : result (list Z)) :
  slice l lo hi = r ->
  match r with
  | Ok s => 0 <= lo <= hi /\ hi <= len l /\ len s = hi - lo
  | Err _ => False
  | Panic => lo < 0 \/ hi < lo \/ len l < hi
  end.
Proof.
  unfold slice. intros <-.
  destruct (Z.leb_spec 0 lo); cbn [andb]; [|lia].
  destruct (Z.leb_spec lo hi); cbn [andb]; [|lia].
  destruct (Z.leb_spec hi (len l)); [|lia].
  split; [lia|]. split; [lia|].
  unfold len in *. rewrite length_firstn, length_skipn. lia.
Qed.

Lemma copy_into_inv (b : list Z) (lo hi : Z) (src : list Z)
  (r : result (list Z)) :
  copy_into b lo hi src = r ->
  match r with
  | Ok b' => 0 <= lo <= hi /\ hi <= len b /\ len b' = len b
  | Err _ => False
  | Panic => lo < 0 \/ hi < lo \/ len b < hi
  end.
Proof.
  unfold copy_into. intros <-.
  destruct (Z.leb_spec 0 lo); cbn [andb]; [|lia].
  destruct (Z.leb_spec lo hi); cbn [andb]; [|lia].
  destruct (Z.leb_spec hi (len b)); [|lia].
  split; [lia|]. split; [lia|].
  unfold len in *. rewrite !length_app, !length_firstn, length_skipn. lia.
Qed.

Lemma index_inv (b : list Z) (i : Z) (r : result Z) :
  index b i = r ->
  match r with
  | Ok _ => 0 <= i < len b
  | Err _ => False
  | Panic => i < 0 \/ len b <= i
  end.
Proof.
  unfold index. intros <-.
  destruct (Z.leb_spec 0 i); cbn [andb]; [|lia].
  destruct (Z.ltb_spec i (len b)); lia.
Qed.

Section L2TxFromBytes.

Variable TxIDLen : nat.

(** The decoder on bytes of the layout that it reads, whatever follows
    them. *)
Lemma L2TxFromBytesDataAvailability_fields
  (k : nat) (nLevels : Z) (F T A rest : list Z) (fee : Z) :
  Z.quot nLevels 8 = Z.of_nat k -> (k <= 6)%nat ->
  length F = k -> length T = k -> length A = 2%nat ->
  L2TxFromBytesDataAvailability TxIDLen (F ++ T ++ A ++ fee :: rest) nLevels
  = Ok (L2Tx_DA TxIDLen (be_value F) (be_value T)
          (Float16_BigInt (be_value A)) fee).
Proof.
  intros Hq Hk HF HT HA.
  unfold L2TxFromBytesDataAvailability. rewrite Hq.
  assert (Hpad : repeat 0 6 = repeat 0 (6 - k) ++ repeat 0 k ++ []).
  { rewrite app_nil_r, <- repeat_app. f_equal. lia. }
  erewrite (slice_at _ [] F); cycle 1.
  { reflexivity. }
  { reflexivity. }
  { unfold len. lia. }
  cbn [bind].
  erewrite (copy_into_at _ _ _ _ F _ _ Hpad); cycle 1.
  { rewrite len_repeat. lia. }
  { rewrite len_repeat. lia. }
  { rewrite repeat_length. exact HF. }
  cbn [bind]. unfold IdxFromBytes, IdxBytesLen.
  replace (len (repeat 0 (6 - k) ++ F ++ []) =? 6) with true
    by (symmetry; apply Z.eqb_eq; rewrite !len_app, len_repeat;
        unfold len; cbn [length]; lia).
  cbn [bind]. rewrite app_nil_r.
  erewrite (slice_at _ F T); cycle 1.
  { reflexivity. }
  { unfold len. lia. }
  { unfold len. lia. }
  cbn [bind].
  erewrite (copy_into_at _ _ _ _ T _ _ Hpad); cycle 1.
  { rewrite len_repeat. lia. }
  { rewrite len_repeat. lia. }
  { rewrite repeat_length. exact HT. }
  cbn [bind].
  replace (len (repeat 0 (6 - k) ++ T ++ []) =? 6) with true
    by (symmetry; apply Z.eqb_eq; rewrite !len_app, len_repeat;
        unfold len; cbn [length]; lia).
  cbn [bind]. rewrite app_nil_r.
  erewrite (slice_at _ (F ++ T) A (fee :: rest)); cycle 1.
  { rewrite <- app_assoc. reflexivity. }
  { rewrite len_app. unfold len. lia. }
  { unfold len. lia. }
  cbn [bind]. unfold Float16FromBytes.
  erewrite (slice_at A [] A []); cycle 1.
  { rewrite app_nil_r. reflexivity. }
  { reflexivity. }
  { unfold len. rewrite HA. reflexivity. }
  cbn [bind].
  erewrite (index_at _ (F ++ T ++ A) rest fee); cycle 1.
  { rewrite <- !app_assoc. reflexivity. }
  { rewrite !len_app. unfold len. lia. }
  cbn [bind]. unfold L2Tx_DA.
  rewrite !be_value_app, !be_value_repeat0. reflexivity.
Qed.

(** X19.  [L2TxFromBytesDataAvailability] checks nothing.  It never
    returns an error.  With [idxLen = nLevels / 8] from 0 to 6 and at
    least [2 * idxLen + 3] bytes it returns the transaction whose
    [FromIdx] and [ToIdx] are the first and the second [idxLen] bytes read
    big-endian, whose [Amount] is the value of the next 2 bytes as a
    [Float16] and whose [Fee] is the next byte; the bytes that follow are
    ignored.  In every other case it panics. *)
Theorem L2TxFromBytesDataAvailability_any_bytes (b : list Z) (nLevels : Z) :
  (forall F T A fee rest,
     0 <= Z.quot nLevels 8 <= 6 ->
     len F = Z.quot nLevels 8 -> len T = Z.quot nLevels 8 -> len A = 2 ->
     b = F ++ T ++ A ++ fee :: rest ->
     L2TxFromBytesDataAvailability TxIDLen b nLevels
     = Ok (L2Tx_DA TxIDLen (be_value F) (be_value T)
             (Float16_BigInt (be_value A)) fee))
  /\ (forall e, L2TxFromBytesDataAvailability TxIDLen b nLevels <> Err e)
  /\ (L2TxFromBytesDataAvailability TxIDLen b nLevels = Panic
      <-> Z.quot nLevels 8 < 0 \/ 6 < Z.quot nLevels 8
          \/ len b < 2 * Z.quot nLevels 8 + 3).
Proof.
  set (q := Z.quot nLevels 8).
  assert (Hfields : forall F T A fee rest,
            0 <= q <= 6 -> len F = q -> len T = q -> len A = 2 ->
            b = F ++ T ++ A ++ fee :: rest ->
            L2TxFromBytesDataAvailability TxIDLen b nLevels
            = Ok (L2Tx_DA TxIDLen (be_value F) (be_value T)
                    (Float16_BigInt (be_value A)) fee)).
  { intros F T A fee rest Hq HF HT HA ->.
    apply (L2TxFromBytesDataAvailability_fields (Z.to_nat q));
      unfold len in *; lia. }
  assert (Hpanic : q < 0 \/ 6 < q \/ len b < 2 * q + 3 ->
            L2TxFromBytesDataAvailability TxIDLen b nLevels = Panic).
  { intros Hbad. unfold L2TxFromBytesDataAvailability. fold q.
    destruct (slice b 0 q) as [s1|e|] eqn:E1; apply slice_inv in E1;
      [|contradiction|reflexivity].
    cbn [bind].
    destruct (copy_into (repeat 0 6) (6 - q) 6 s1) as [p1|e|] eqn:E2;
      apply copy_into_inv in E2; [|contradiction|reflexivity].
    rewrite len_repeat in E2.
    cbn [bind]. unfold IdxFromBytes, IdxBytesLen.
    replace (len p1 =? 6) with true by (symmetry; apply Z.eqb_eq; lia).
    cbn [bind].
    destruct (slice b q (q * 2)) as [s2|e|] eqn:E3; apply slice_inv in E3;
      [|contradiction|reflexivity].
    cbn [bind].
    destruct (copy_into (repeat 0 6) (6 - q) 6 s2) as [p2|e|] eqn:E4;
      apply copy_into_inv in E4; [|contradiction|reflexivity].
    rewrite len_repeat in E4.
    cbn [bind].
    replace (len p2 =? 6) with true by (symmetry; apply Z.eqb_eq; lia).
    cbn [bind].
    destruct (slice b (q * 2) (q * 2 + 2)) as [s3|e|] eqn:E5;
      apply slice_inv in E5; [|contradiction|reflexivity].
    cbn [bind]. unfold Float16FromBytes.
    destruct (slice s3 0 2) as [s4|e|] eqn:E6; apply slice_inv in E6;
      [|contradiction|lia].
    cbn [bind].
    destruct (index b (q * 2 + 2)) as [fee|e|] eqn:E7; apply index_inv in E7;
      [|contradiction|reflexivity].
    lia. }
  split; [exact Hfields|].
  destruct (Z_lt_le_dec q 0) as [Hneg|Hpos];
    [split; [rewrite Hpanic by lia; discriminate | split; auto]|].
  destruct (Z_lt_le_dec 6 q) as [Hbig|Hsmall];
    [split; [rewrite Hpanic by lia; discriminate | split; auto]|].
  destruct (Z_lt_le_dec (len b) (2 * q + 3)) as [Hshort|Hlong];
    [split; [rewrite Hpanic by lia; discriminate | split; auto]|].
  set (k := Z.to_nat q).
  assert (Hb : b = firstn k b ++ firstn k (skipn k b)
                   ++ firstn 2 (skipn (k + k) b)
                   ++ nth (k + k + 2) b 0 :: skipn (S (k + k + 2)) b).
  { rewrite <- (firstn_skipn k b) at 1. f_equal.
    rewrite <- (firstn_skipn k (skipn k b)) at 1. f_equal.
    rewrite skipn_skipn.
    rewrite <- (firstn_skipn 2 (skipn (k + k) b)) at 1. f_equal.
    rewrite skipn_skipn.
    replace (2 + (k + k))%nat with (k + k + 2)%nat by lia.
    assert (Hlen : (k + k + 2 < length b)%nat) by (unfold len in *; lia).
    clear - Hlen. revert Hlen. generalize (k + k + 2)%nat as n.
    intros n. revert b. induction n as [|n IH]; intros [|x b] Hlen;
      cbn [length] in *; try lia; [reflexivity|].
    cbn [skipn nth]. apply IH. lia. }
  assert (Hk : Z.of_nat k = q) by (subst k; lia).
  assert (HF : len (firstn k b) = q)
    by (unfold len in *; rewrite length_firstn; lia).
  assert (HT : len (firstn k (skipn k b)) = q)
    by (unfold len in *; rewrite length_firstn, length_skipn; lia).
  assert (HA : len (firstn 2 (skipn (k + k) b)) = 2)
    by (unfold len in *; rewrite length_firstn, length_skipn; lia).
  rewrite (Hfields _ _ _ _ _ (conj Hpos Hsmall) HF HT HA Hb).
  split; [discriminate|]. split; [discriminate | lia].
Qed.

(** The encoder for any number of levels below 56: the layout on
    [nLevels / 8] bytes for each index and, when [nLevels mod 8] is 4 or
    more, one byte 0 after it. *)
Lemma BytesDataAvailability_bytes (tx : L2Tx) (nLevels : Z) (f : Z) :
  0 <= nLevels < 56 ->
  FromIdx tx <= maxIdxValue -> ToIdx tx <= maxIdxValue ->
  0 <= Fee tx < 256 ->
  NewFloat16 (Amount tx) = Ok f ->
  BytesDataAvailability tx nLevels
  = Ok (DA_layout (Z.to_nat (nLevels / 8)) tx f
          ++ repeat 0 (Z.to_nat (nLevels mod 8 / 4))).
Proof.
  intros Hn Hfrom Hto Hfee Hf.
  set (k := Z.to_nat (nLevels / 8)). set (pad := Z.to_nat (nLevels mod 8 / 4)).
  assert (Hq : 0 <= nLevels / 8 <= 6).
  { split; [apply Z.div_pos; lia|].
    change 6 with (55 / 8). apply Z.div_le_mono; lia. }
  assert (Hk : (k <= 6)%nat) by (subst k; lia).
  assert (Hkq : nLevels / 8 = Z.of_nat k) by (subst k; lia).
  pose proof (Z.mod_pos_bound nLevels 8 ltac:(lia)) as Hr.
  assert (Hp : 0 <= nLevels mod 8 / 4 <= 1).
  { split; [apply Z.div_pos; lia|].
    change 1 with (7 / 4). apply Z.div_le_mono; lia. }
  assert (HL : (nLevels * 2 + 16 + 8) mod 2 ^ 32 / 8
               = Z.of_nat (k + (k + (2 + (1 + pad))))).
  { rewrite Z.mod_small by lia.
    pose proof (Z.div_mod nLevels 8 ltac:(lia)) as Hdm.
    pose proof (Z.div_mod (nLevels mod 8) 4 ltac:(lia)) as Hdm4.
    pose proof (Z.mod_pos_bound (nLevels mod 8) 4 ltac:(lia)) as Hr4.
    replace (nLevels * 2 + 16 + 8)
      with (2 * (nLevels mod 8 mod 4)
            + (2 * (nLevels / 8) + 3 + nLevels mod 8 / 4) * 8) by lia.
    rewrite Z.div_add by lia. rewrite Z.div_small by lia.
    subst k pad. lia. }
  pose proof (Idx_Bytes_low (FromIdx tx) k Hk Hfrom) as HF.
  pose proof (Idx_Bytes_low (ToIdx tx) k Hk Hto) as HT.
  unfold BytesDataAvailability. rewrite HL, Hkq.
  rewrite Nat2Z.id, !repeat_app.
  set (F := be_bytes k (FromIdx tx)). set (T := be_bytes k (ToIdx tx)).
  set (A := be_bytes 2 f). set (P := repeat 0 pad).
  fold F in HF. fold T in HT.
  destruct (Idx_Bytes (FromIdx tx)) as [fb| |]; cbn [bind] in HF |- *;
    try discriminate.
  destruct (slice_from fb _) as [src| |]; cbn [bind] in HF |- *;
    try discriminate.
  injection HF as ->.
  erewrite (copy_into_at _ [] (repeat 0 k)); [| side_layout ..].
  cbn [bind app].
  destruct (Idx_Bytes (ToIdx tx)) as [tb| |]; cbn [bind] in HT |- *;
    try discriminate.
  destruct (slice_from tb _) as [src| |]; cbn [bind] in HT |- *;
    try discriminate.
  injection HT as ->.
  erewrite (copy_into_at _ F (repeat 0 k)); [| side_layout ..].
  cbn [bind]. rewrite Hf. cbn [bind]. unfold Float16_Bytes. fold A.
  erewrite (copy_into_at _ (F ++ T) (repeat 0 2) (repeat 0 1 ++ P));
    [| side_layout ..].
  cbn [bind].
  erewrite (set_index_at _ ((F ++ T) ++ A) P 0); [| side_layout ..].
  cbn [bind]. rewrite Z.mod_small by exact Hfee.
  change 0 with (Z.of_nat 0) at 1. rewrite slice_from_skipn by lia.
  unfold DA_layout. simpl skipn. fold F T A. rewrite <- !app_assoc.
  reflexivity.
Qed.

(** X20.  The data availability codec of an L2 transaction for any number
    of levels below 56.  The encoding has [(2 * nLevels + 24) / 8] bytes,
    one more than the decoder reads when [nLevels mod 8] is 4 or more,
    and the decoder gives back the amount and the fee, and the two
    indexes reduced modulo [2 ^ (8 * (nLevels / 8))]: an index is given
    back as it is exactly when it fits in [nLevels / 8] bytes, also when
    [nLevels] is no multiple of 8. *)
Theorem L2Tx_DataAvailability_truncates (tx : L2Tx) (nLevels : Z) :
  wf_L2Tx tx ->
  0 <= nLevels < 56 ->
  FromIdx tx <= maxIdxValue -> ToIdx tx <= maxIdxValue ->
  Float16_representable (Amount tx) ->
  exists bs,
    BytesDataAvailability tx nLevels = Ok bs
    /\ len bs = (nLevels * 2 + 24) / 8
    /\ L2TxFromBytesDataAvailability TxIDLen bs nLevels
       = Ok (L2Tx_DA TxIDLen
               (FromIdx tx mod 2 ^ (8 * (nLevels / 8)))
               (ToIdx tx mod 2 ^ (8 * (nLevels / 8)))
               (Amount tx) (Fee tx)).
Proof.
  intros [[Hf0 _] [Ht0 _] _ Hfee _] Hn Hfrom Hto Hrep.
  apply NewFloat16_representable in Hrep. destruct Hrep as [f Hf].
  destruct (NewFloat16_Ok _ _ Hf) as [Hf16 Hval].
  assert (Hq : 0 <= nLevels / 8 <= 6).
  { split; [apply Z.div_pos; lia|].
    change 6 with (55 / 8). apply Z.div_le_mono; lia. }
  set (k := Z.to_nat (nLevels / 8)).
  assert (Hkq : nLevels / 8 = Z.of_nat k) by (subst k; lia).
  pose proof (Z.mod_pos_bound nLevels 8 ltac:(lia)) as Hr.
  assert (Hp : 0 <= nLevels mod 8 / 4 <= 1).
  { split; [apply Z.div_pos; lia|].
    change 1 with (7 / 4). apply Z.div_le_mono; lia. }
  eexists. split; [apply (BytesDataAvailability_bytes tx nLevels f);
                   assumption|].
  fold k. unfold DA_layout. split.
  - rewrite !len_app, !len_be_bytes, len_repeat. unfold len. cbn [length].
    pose proof (Z.div_mod nLevels 8 ltac:(lia)) as Hdm.
    pose proof (Z.div_mod (nLevels mod 8) 4 ltac:(lia)) as Hdm4.
    pose proof (Z.mod_pos_bound (nLevels mod 8) 4 ltac:(lia)) as Hr4.
    replace (nLevels * 2 + 24)
      with (2 * (nLevels mod 8 mod 4)
            + (2 * (nLevels / 8) + 3 + nLevels mod 8 / 4) * 8) by lia.
    rewrite Z.div_add by lia.
    rewrite (Z.div_small (2 * (nLevels mod 8 mod 4)) 8) by lia. lia.
  - rewrite <- !app_assoc.
    change ([Fee tx] ++ repeat 0 (Z.to_nat (nLevels mod 8 / 4)))
      with (Fee tx :: repeat 0 (Z.to_nat (nLevels mod 8 / 4))).
    rewrite (L2TxFromBytesDataAvailability_fields k nLevels).
    + rewrite !be_value_be_bytes by lia.
      change (256 ^ Z.of_nat 2) with 65536.
      rewrite (Z.mod_small f) by exact Hf16.
      rewrite Hval, Hkq, Z.pow_mul_r by lia. reflexivity.
    + rewrite Z.quot_div_nonneg by lia. exact Hkq.
    + lia.
    + apply be_bytes_length.
    + apply be_bytes_length.
    + apply be_bytes_length.
Qed.

(** X21.  What [BytesDataAvailability] does instead of encoding.  It
    returns the overflow error when [FromIdx] does not fit 48 bits,
    whatever the number of levels; otherwise it panics for 56 levels or
    more, slicing the 6 bytes of the index from an offset that wrapped
    around; for less than 56 levels it returns the overflow error when
    [ToIdx] does not fit 48 bits, and the rounding error when the indexes
    fit and the amount is not representable as a [Float16]. *)
Theorem BytesDataAvailability_fails (tx : L2Tx) (nLevels : Z) :
  0 <= nLevels < 2 ^ 32 ->
  (FromIdx tx > maxIdxValue ->
   BytesDataAvailability tx nLevels = Err ErrNumOverflow)
  /\ (FromIdx tx <= maxIdxValue -> 56 <= nLevels ->
      BytesDataAvailability tx nLevels = Panic)
  /\ (FromIdx tx <= maxIdxValue -> nLevels < 56 -> ToIdx tx > maxIdxValue ->
      BytesDataAvailability tx nLevels = Err ErrNumOverflow)
  /\ (FromIdx tx <= maxIdxValue -> nLevels < 56 -> ToIdx tx <= maxIdxValue ->
      ~ Float16_representable (Amount tx) ->
      BytesDataAvailability tx nLevels = Err ErrRoundingLoss).
Proof.
  intros Hn.
  assert (H32 : 2 ^ 32 = 4294967296) by reflexivity.
  split; [|split; [|split]].
  - intros Hfrom. unfold BytesDataAvailability, Idx_Bytes.
    replace (FromIdx tx >? maxIdxValue) with true by (symmetry; lia).
    reflexivity.
  - intros Hfrom Hbig. unfold BytesDataAvailability, Idx_Bytes.
    replace (FromIdx tx >? maxIdxValue) with false by (symmetry; lia).
    cbn [bind].
    assert (Hq : 7 <= nLevels / 8 < 2 ^ 32).
    { split; [change 7 with (56 / 8); apply Z.div_le_mono; lia|].
      apply Z.div_lt_upper_bound; lia. }
    unfold slice_from, slice. rewrite len_be_bytes.
    replace ((6 - nLevels / 8) mod 2 ^ 32)
      with (6 - nLevels / 8 + 2 ^ 32).
    2:{ symmetry. rewrite <- (Z.mod_add _ 1) by lia.
        rewrite Z.mul_1_l. apply Z.mod_small. lia. }
    replace (6 - nLevels / 8 + 2 ^ 32 <=? Z.of_nat 6) with false
      by (symmetry; apply Z.leb_gt; lia).
    rewrite andb_false_r. reflexivity.
  - intros Hfrom Hsmall Hto.
    assert (Hq : 0 <= nLevels / 8 <= 6).
    { split; [apply Z.div_pos; lia|].
      change 6 with (55 / 8). apply Z.div_le_mono; lia. }
    pose proof (Idx_Bytes_low (FromIdx tx) (Z.to_nat (nLevels / 8))
                  ltac:(lia) Hfrom) as HF.
    rewrite Z2Nat.id in HF by lia.
    unfold BytesDataAvailability.
    destruct (Idx_Bytes (FromIdx tx)) as [fb| |]; cbn [bind] in HF |- *;
      try discriminate.
    destruct (slice_from fb _) as [src| |]; cbn [bind] in HF |- *;
      try discriminate.
    destruct (copy_into _ 0 (nLevels / 8) src) as [b1|e|] eqn:E;
      apply copy_into_inv in E; [| contradiction |].
    + cbn [bind]. unfold Idx_Bytes.
      replace (ToIdx tx >? maxIdxValue) with true by (symmetry; lia).
      reflexivity.
    + exfalso. rewrite len_repeat in E.
      assert (nLevels / 8 <= (nLevels * 2 + 16 + 8) mod 2 ^ 32 / 8).
      { rewrite Z.mod_small by lia. apply Z.div_le_mono; lia. }
      pose proof (Z.div_pos ((nLevels * 2 + 16 + 8) mod 2 ^ 32) 8
                    ltac:(apply Z.mod_pos_bound; lia) ltac:(lia)).
      lia.
  - intros Hfrom Hsmall Hto Hrep.
    assert (Hq : 0 <= nLevels / 8 <= 6).
    { split; [apply Z.div_pos; lia|].
      change 6 with (55 / 8). apply Z.div_le_mono; lia. }
    assert (HL : 2 * (nLevels / 8) + 3
                 <= (nLevels * 2 + 16 + 8) mod 2 ^ 32 / 8).
    { rewrite Z.mod_small by lia.
      pose proof (Z.div_mod nLevels 8 ltac:(lia)) as Hdm.
      pose proof (Z.mod_pos_bound nLevels 8 ltac:(lia)) as Hr.
      apply Z.div_le_lower_bound; lia. }
    pose proof (Idx_Bytes_low (FromIdx tx) (Z.to_nat (nLevels / 8))
                  ltac:(lia) Hfrom) as HF.
    pose proof (Idx_Bytes_low (ToIdx tx) (Z.to_nat (nLevels / 8))
                  ltac:(lia) Hto) as HT.
    rewrite Z2Nat.id in HF, HT by lia.
    unfold BytesDataAvailability.
    destruct (Idx_Bytes (FromIdx tx)) as [fb| |]; cbn [bind] in HF |- *;
      try discriminate.
    destruct (slice_from fb _) as [src| |]; cbn [bind] in HF |- *;
      try discriminate.
    destruct (copy_into _ 0 (nLevels / 8) src) as [b1|e|] eqn:E1;
      apply copy_into_inv in E1; [| contradiction |];
      rewrite len_repeat in E1; [|exfalso; lia].
    cbn [bind].
    destruct (Idx_Bytes (ToIdx tx)) as [tb| |]; cbn [bind] in HT |- *;
      try discriminate.
    destruct (slice_from tb _) as [src2| |]; cbn [bind] in HT |- *;
      try discriminate.
    destruct (copy_into b1 _ _ src2) as [b2|e|] eqn:E2;
      apply copy_into_inv in E2; [| contradiction | exfalso; lia].
    cbn [bind]. apply NewFloat16_fails in Hrep. rewrite Hrep. reflexivity.
Qed.

End L2TxFromBytes.

(** A transfer from the account 300 for 12 levels: the index 300 fits in
    12 bits and is encoded on one byte. *)
Definition tx_from_300 : L2Tx := L2Tx_DA 12 300 256 79000000 201.

Lemma tx_from_300_wf : wf_L2Tx tx_from_300.
Proof. constructor; cbn; lia. Qed.

Lemma L2Tx_DataAvailability_truncates_witness :
  exists bs,
    BytesDataAvailability tx_from_300 12 = Ok bs
    /\ len bs = (12 * 2 + 24) / 8
    /\ L2TxFromBytesDataAvailability 12 bs 12
       = Ok (L2Tx_DA 12
               (FromIdx tx_from_300 mod 2 ^ (8 * (12 / 8)))
               (ToIdx tx_from_300 mod 2 ^ (8 * (12 / 8)))
               (Amount tx_from_300) (Fee tx_from_300)).
Proof.
  apply (L2Tx_DataAvailability_truncates 12 tx_from_300 12).
  - exact tx_from_300_wf.
  - lia.
  - vm_compute. discriminate.
  - vm_compute. discriminate.
  - exists 0x2b16. split; [lia | vm_compute; reflexivity].
Defined.

Lemma BytesDataAvailability_fails_witness :
  BytesDataAvailability tx_transfer 64 = Panic
  /\ BytesDataAvailability (L2Tx_DA 12 257 (2 ^ 48) 79000000 201) 32
     = Err ErrNumOverflow
  /\ BytesDataAvailability (L2Tx_DA 12 257 256 79000001 201) 32
     = Err ErrRoundingLoss.
Proof.
  split; [|split].
  - apply (proj1 (proj2 (BytesDataAvailability_fails tx_transfer 64
                           ltac:(split; [lia | reflexivity])))).
    + vm_compute. discriminate.
    + lia.
  - apply (proj1 (proj2 (proj2 (BytesDataAvailability_fails
                                  (L2Tx_DA 12 257 (2 ^ 48) 79000000 201) 32
                                  ltac:(split; [lia | reflexivity]))))).
    + vm_compute. discriminate.
    + lia.
    + vm_compute. reflexivity.
  - apply (proj2 (proj2 (proj2 (BytesDataAvailability_fails
                                  (L2Tx_DA 12 257 256 79000001 201) 32
                                  ltac:(split; [lia | reflexivity]))))).
    + vm_compute. discriminate.
    + lia.
    + vm_compute. discriminate.
    + apply NewFloat16_fails. vm_compute. reflexivity.
Defined.

End Common.

(** * api: rendering of BabyJubJub public keys *)

Module Api.

(** The alphabet of [base64.URLEncoding]. *)
Definition encodeURL : string :=
  "ABCDEFGHIJKLMNOPQRSTUVWXYZabcdefghijklmnopqrstuvwxyz0123456789-_".

(** [enc.encode[i]] *)
Definition encode_char (i : Z) : ascii :=
  match String.get (Z.to_nat i) encodeURL with
  | Some c => c
  | None => "A"%char
  end.

(** [base64.RawURLEncoding.EncodeToString] of the Go library: every 3
    bytes give 4 characters; a remainder of 1 or 2 bytes gives 2 or 3
    characters, and no padding is written. *)
Fixpoint RawURLEncoding_EncodeToString (src : list Z) : string :=
  match src with
  | [] => EmptyString
  | [s0] =>
      let val := Z.shiftl s0 16 in
      String (encode_char (Z.land (Z.shiftr val 18) 0x3F))
        (String (encode_char (Z.land (Z.shiftr val 12) 0x3F)) EmptyString)
  | [s0; s1] =>
      let val := Z.lor (Z.shiftl s0 16) (Z.shiftl s1 8) in
      String (encode_char (Z.land (Z.shiftr val 18) 0x3F))
        (String (encode_char (Z.land (Z.shiftr val 12) 0x3F))
           (String (encode_char (Z.land (Z.shiftr val 6) 0x3F)) EmptyString))
  | s0 :: s1 :: s2 :: rest =>
      let val := Z.lor (Z.lor (Z.shiftl s0 16) (Z.shiftl s1 8)) s2 in
      String (encode_char (Z.land (Z.shiftr val 18) 0x3F))
        (String (encode_char (Z.land (Z.shiftr val 12) 0x3F))
           (String (encode_char (Z.land (Z.shiftr val 6) 0x3F))
              (String (encode_char (Z.land val 0x3F))
                 (RawURLEncoding_EncodeToString rest))))
  end.

(** The loop [sum := pkComp[0]; for i := 1; i < len(pkComp); i++
    { sum += pkComp[i] }] on [uint8]: every addition wraps. *)
Definition checksum (pkComp : list Z) : Z :=
  fold_left (fun sum b => (sum + b) mod 256) (tl pkComp) (hd 0 pkComp).

(** The sum of the bytes as an integer. *)
Definition byte_sum (l : list Z) : Z := fold_right Z.add 0 l.

Section BJJ.

(** [babyjub.PublicKey] and its [Compress] method belong to an external
    library; [Compress] gives the 32 bytes of a [PublicKeyComp]. *)
Variable PublicKey : Type.
Variable Compress : PublicKey -> list Z.

Definition bjjToString (bjj : PublicKey) : string :=
  let pkComp := Compress bjj in
  let sum := checksum pkComp in
  let bjjSum := pkComp ++ [sum] in
  ("hez:" ++ RawURLEncoding_EncodeToString bjjSum)%string.

End BJJ.

Lemma checksum_acc (l : list Z) (acc : Z) :
  fold_left (fun sum b => (sum + b) mod 256) l (acc mod 256)
  = (acc + byte_sum l) mod 256.
Proof.
  revert acc. induction l as [|b l IH]; intros acc; simpl.
  - rewrite Z.add_0_r. reflexivity.
  - rewrite Zplus_mod_idemp_l, IH. f_equal. lia.
Qed.

Lemma checksum_mod (pkComp : list Z) :
  Forall is_byte pkComp -> checksum pkComp = byte_sum pkComp mod 256.
Proof.
  intros Hb. destruct pkComp as [|b l]; [reflexivity|].
  unfold checksum. simpl hd. simpl tl.
  inversion Hb as [|? ? Hb0 _]; subst.
  rewrite <- (Z.mod_small b 256) at 1 by exact Hb0.
  apply checksum_acc.
Qed.

Lemma EncodeToString_length (n : nat) (src : list Z) :
  length src = n ->
  String.length (RawURLEncoding_EncodeToString src) = ((4 * n + 2) / 3)%nat.
Proof.
  revert src. induction n as [n IH] using lt_wf_ind. intros src Hn.
  destruct src as [|s0 [|s1 [|s2 rest]]]; simpl in Hn; subst n;
    try reflexivity.
  cbn [RawURLEncoding_EncodeToString String.length].
  rewrite (IH (length rest)) by (simpl; lia).
  replace (4 * S (S (S (length rest))) + 2)%nat
    with (4 * length rest + 2 + 4 * 3)%nat by lia.
  rewrite Nat.div_add by lia. lia.
Qed.

Lemma append_length (a b : string) :
  String.length (a ++ b) = (String.length a + String.length b)%nat.
Proof. induction a; simpl; congruence. Qed.

Example EncodeToString_Man :
  RawURLEncoding_EncodeToString [77; 97; 110] = "TWFu"%string
  /\ RawURLEncoding_EncodeToString [77; 97] = "TWE"%string
  /\ RawURLEncoding_EncodeToString [77] = "TQ"%string
  /\ RawURLEncoding_EncodeToString [251; 255] = "-_8"%string.
Proof. repeat split. Qed.

(** C7.  The rendering of a BabyJubJub public key is ["hez:"] followed by
    the unpadded base64url encoding of the 32 compressed bytes and one
    checksum byte, the sum of the 32 bytes modulo 256; it has 48
    characters. *)
Theorem bjjToString_spec
  (PublicKey : Type) (Compress : PublicKey -> list Z) (bjj : PublicKey) :
  length (Compress bjj) = 32%nat ->
  Forall is_byte (Compress bjj) ->
  bjjToString PublicKey Compress bjj
  = ("hez:" ++ RawURLEncoding_EncodeToString
                 (Compress bjj ++ [byte_sum (Compress bjj) mod 256]))%string
  /\ is_byte (byte_sum (Compress bjj) mod 256)
  /\ String.length (bjjToString PublicKey Compress bjj) = 48%nat.
Proof.
  intros Hlen Hbytes. unfold bjjToString.
  rewrite (checksum_mod _ Hbytes). split; [reflexivity|]. split.
  - apply Z.mod_pos_bound. lia.
  - rewrite append_length, (EncodeToString_length 33).
    + reflexivity.
    + rewrite length_app, Hlen. reflexivity.
Qed.

(** A key whose compressed form is the bytes 224, 225, ..., 255: their sum
    is 7664, so the checksum byte wraps to 240. *)
Definition pkComp_high : list Z := map Z.of_nat (seq 224 32).

Lemma bjjToString_spec_witness :
  bjjToString (list Z) (fun pk => pk) pkComp_high
  = ("hez:" ++ RawURLEncoding_EncodeToString
                 (pkComp_high ++ [byte_sum pkComp_high mod 256]))%string
  /\ is_byte (byte_sum pkComp_high mod 256)
  /\ String.length (bjjToString (list Z) (fun pk => pk) pkComp_high) = 48%nat.
Proof.
  apply (bjjToString_spec (list Z) (fun pk => pk) pkComp_high).
  - reflexivity.
  - unfold pkComp_high, is_byte. apply Forall_forall.
    intros b Hb. apply in_map_iff in Hb. destruct Hb as (n & <- & Hn).
    apply in_seq in Hn. lia.
Defined.

Example bjjToString_high :
  byte_sum pkComp_high = 7664 /\ checksum pkComp_high = 240 /\
  bjjToString (list Z) (fun pk => pk) pkComp_high
  = "hez:4OHi4-Tl5ufo6err7O3u7_Dx8vP09fb3-Pn6-_z9_v_w"%string.
Proof. repeat split. Qed.

(** ** [GetPagination] *)

(** Modelled from the spec: [db.Pagination], whose declaration is not
    available.  [GetPagination] assigns [FirstReturnedItem] and
    [LastReturnedItem]; [TotalItems], [FirstItem] and [LastItem] stand for
    what the query fills in, which [GetPagination] leaves as it is. *)
Record Pagination : Type := {
  TotalItems : Z;
  FirstItem : Z;
  LastItem : Z;
  FirstReturnedItem : Z;
  LastReturnedItem : Z
}.

Section GetPagination.

(** The items of a page, [historyTxAPI] or [exitAPI], with their field
    [ItemID]. *)
Variable Item : Type.
Variable ItemID : Item -> Z.

(** [GetPagination], of [historyTxsAPI] and of [exitsAPI], which have the
    same body: it works on the items and the pagination of its receiver,
    it writes through the pointer [pagination] and returns it. *)
Definition GetPagination (Txs : list Item) (pagination : option Pagination)
  : result Pagination :=
  match nth_error Txs 0, nth_error Txs (length Txs - 1) with
  | Some first, Some last =>
      match pagination with
      | None => Panic
      | Some p =>
          if ItemID first <? ItemID last
          then Ok {| TotalItems := TotalItems p; FirstItem := FirstItem p;
                     LastItem := LastItem p;
                     FirstReturnedItem := ItemID first;
                     LastReturnedItem := ItemID last |}
          else Ok {| TotalItems := TotalItems p; FirstItem := FirstItem p;
                     LastItem := LastItem p;
                     FirstReturnedItem := ItemID last;
                     LastReturnedItem := ItemID first |}
      end
  | _, _ => Panic
  end.

(** The items come by ascending or by descending [ItemID]. *)
Definition ordered (Txs : list Item) : Prop :=
  StronglySorted (fun a b => ItemID a <= ItemID b) Txs
  \/ StronglySorted (fun a b => ItemID b <= ItemID a) Txs.

Lemma last_In (l : list Item) (d : Item) : l <> [] -> In (last l d) l.
Proof.
  induction l as [|a l IH]; [congruence|]. intros _.
  destruct l as [|b l]; [left; reflexivity|].
  right. apply IH. discriminate.
Qed.

Lemma nth_error_last (l : list Item) (d : Item) :
  l <> [] -> nth_error l (length l - 1) = Some (last l d).
Proof.
  induction l as [|a l IH]; [congruence|]. intros _.
  destruct l as [|b l]; [reflexivity|].
  specialize (IH ltac:(discriminate)).
  replace (length (a :: b :: l) - 1)%nat with (S (length (b :: l) - 1))
    by (cbn [length]; lia).
  exact IH.
Qed.

Lemma sorted_last (R : Item -> Item -> Prop) (l : list Item) (d : Item) :
  StronglySorted R l ->
  forall x, In x l -> x = last l d \/ R x (last l d).
Proof.
  induction 1 as [|a l Hs IH Ha]; intros x Hin; [destruct Hin|].
  destruct l as [|b l]; [destruct Hin as [<-|[]]; left; reflexivity|].
  change (last (a :: b :: l) d) with (last (b :: l) d).
  destruct Hin as [<-|Hin]; [|apply IH, Hin].
  right. rewrite Forall_forall in Ha. apply Ha, last_In. discriminate.
Qed.

(** X15.  [GetPagination] panics exactly when the page has no item or the
    pagination is nil.  Otherwise it returns the pagination with
    [FirstReturnedItem] not above [LastReturnedItem], both of them
    [ItemID]s of the page, and the other fields as they were; and when
    the items come by ascending or by descending [ItemID], they are the
    lowest and the highest [ItemID] of the page. *)
Theorem GetPagination_spec (Txs : list Item) (pagination : option Pagination) :
  (GetPagination Txs pagination = Panic <-> Txs = [] \/ pagination = None)
  /\ (forall e, GetPagination Txs pagination <> Err e)
  /\ (forall p',
        GetPagination Txs pagination = Ok p' ->
        (exists p, pagination = Some p
                   /\ TotalItems p' = TotalItems p
                   /\ FirstItem p' = FirstItem p
                   /\ LastItem p' = LastItem p)
        /\ FirstReturnedItem p' <= LastReturnedItem p'
        /\ In (FirstReturnedItem p') (map ItemID Txs)
        /\ In (LastReturnedItem p') (map ItemID Txs)
        /\ (ordered Txs ->
            forall t, In t Txs ->
              FirstReturnedItem p' <= ItemID t <= LastReturnedItem p')).
Proof.
  unfold GetPagination.
  destruct Txs as [|first rest].
  { split; [split; [auto | reflexivity]|]. split; discriminate. }
  rewrite (nth_error_last (first :: rest) first) by discriminate.
  cbn [nth_error].
  set (last_ := last (first :: rest) first).
  assert (Hlast : In last_ (first :: rest)) by (apply last_In; discriminate).
  destruct pagination as [p|].
  2:{ split; [split; [auto | reflexivity]|]. split; discriminate. }
  split.
  { destruct (ItemID first <? ItemID last_); split; try discriminate;
      intros [H|H]; discriminate. }
  split; [destruct (ItemID first <? ItemID last_); discriminate|].
  intros p' Hp'.
  assert (Hbounds : ordered (first :: rest) ->
            forall t, In t (first :: rest) ->
              Z.min (ItemID first) (ItemID last_) <= ItemID t
              <= Z.max (ItemID first) (ItemID last_)).
  { intros [Hs|Hs] t Ht.
    - pose proof (sorted_last _ _ first Hs t Ht) as Hl. fold last_ in Hl.
      inversion Hs as [|? ? _ Hf]; subst. rewrite Forall_forall in Hf.
      assert (ItemID first <= ItemID t)
        by (destruct Ht as [<-|Ht]; [lia | apply Hf, Ht]).
      assert (ItemID t <= ItemID last_)
        by (destruct Hl as [->|Hl]; [lia | exact Hl]).
      lia.
    - pose proof (sorted_last _ _ first Hs t Ht) as Hl. fold last_ in Hl.
      inversion Hs as [|? ? _ Hf]; subst. rewrite Forall_forall in Hf.
      assert (ItemID t <= ItemID first)
        by (destruct Ht as [<-|Ht]; [lia | apply Hf, Ht]).
      assert (ItemID last_ <= ItemID t)
        by (destruct Hl as [->|Hl]; [lia | exact Hl]).
      lia. }
  destruct (Z.ltb_spec (ItemID first) (ItemID last_)) as [Hlt|Hge];
    injection Hp' as <-; cbn [TotalItems FirstItem LastItem
                                FirstReturnedItem LastReturnedItem].
  - split; [exists p; auto|]. split; [lia|].
    split; [left; reflexivity|]. split; [apply in_map, Hlast|].
    intros Ho t Ht. specialize (Hbounds Ho t Ht). lia.
  - split; [exists p; auto|]. split; [lia|].
    split; [apply in_map, Hlast|]. split; [left; reflexivity|].
    intros Ho t Ht. specialize (Hbounds Ho t Ht). lia.
Qed.

End GetPagination.

(** ** [historyTxsToAPI] *)

(** [int(idx)]: the conversion of a [uint64] to an [int]. *)
Definition to_int (x : Z) : Z := (x + 2 ^ 63) mod 2 ^ 64 - 2 ^ 63.

(** [*p]: reading through a nil pointer panics. *)
Definition deref {A : Type} (p : option A) : result A :=
  match p with
  | Some a => Ok a
  | None => Panic
  end.

Section HistoryTxs.

(** [babyjub.PublicKey] with [Compress], and the types that the
    conversion copies or prints without looking into them: [float64],
    [time.Time], [*big.Int] and [ethCommon.Address], with the [String]
    methods of the last two and of [common.TxID], and [strconv.Itoa]. *)
Variable PublicKey : Type.
Variable Compress : PublicKey -> list Z.
Variable Float64 : Type.
Variable Time : Type.
Variable BigInt : Type.
Variable Address : Type.
Variable TxID_String : list Z -> string.
Variable BigInt_String : BigInt -> string.
Variable Address_String : Address -> string.
Variable Itoa : Z -> string.

Definition ethAddrToHez (addr : Address) : string :=
  ("hez:" ++ Address_String addr)%string.

Definition idxToHez (idx : Z) (tokenSymbol : string) : string :=
  ("hez:" ++ tokenSymbol ++ ":" ++ Itoa (to_int idx))%string.

(** Modelled from the spec: [historydb.TokenRead], whose declaration is
    not available: the fields that the conversions fill in. *)
Record TokenRead : Type := {
  token_TokenID : Z;
  token_EthBlockNum : Z;
  token_EthAddr : Address;
  token_Name : string;
  token_Symbol : string;
  token_Decimals : Z;
  token_USD : option Float64;
  token_USDUpdate : option Time
}.

(** Modelled from the spec: [historydb.HistoryTx], whose declaration is
    not available: the fields that [historyTxsToAPI] reads, a pointer
    where it reads through one or copies one. *)
Record HistoryTx : Type := {
  db_IsL1 : bool;
  db_TxID : list Z;
  db_ItemID : Z;
  db_Type : string;
  db_Position : Z;
  db_FromIdx : option Z;
  db_ToIdx : Z;
  db_Amount : BigInt;
  db_HistoricUSD : option Float64;
  db_BatchNum : option Z;
  db_EthBlockNum : Z;
  db_ToForgeL1TxsNum : option Z;
  db_UserOrigin : option bool;
  db_FromEthAddr : option Address;
  db_FromBJJ : option PublicKey;
  db_LoadAmount : BigInt;
  db_HistoricLoadAmountUSD : option Float64;
  db_Fee : option Z;
  db_HistoricFeeUSD : option Float64;
  db_Nonce : option Z;
  db_Timestamp : Time;
  db_TokenID : Z;
  db_TokenEthBlockNum : Z;
  db_TokenEthAddr : Address;
  db_TokenName : string;
  db_TokenSymbol : string;
  db_TokenDecimals : Z;
  db_TokenUSD : option Float64;
  db_TokenUSDUpdate : option Time
}.

Record l1Info : Type := {
  l1_ToForgeL1TxsNum : option Z;
  l1_UserOrigin : bool;
  l1_FromEthAddr : string;
  l1_FromBJJ : string;
  l1_LoadAmount : string;
  l1_HistoricLoadAmountUSD : option Float64;
  l1_EthBlockNum : Z
}.

Record l2Info : Type := {
  l2_Fee : Z;
  l2_HistoricFeeUSD : option Float64;
  l2_Nonce : Z
}.

Record historyTxAPI : Type := {
  IsL1 : string;
  TxID : string;
  ItemID : Z;
  Type_ : string;
  Position : Z;
  FromIdx : option string;
  ToIdx : string;
  Amount : string;
  BatchNum : option Z;
  HistoricUSD : option Float64;
  Timestamp : Time;
  L1Info : option l1Info;
  L2Info : option l2Info;
  Token : TokenRead
}.

(** The body of the loop of [historyTxsToAPI]: the [historyTxAPI] of one
    transaction. *)
Definition historyTxToAPI (dbTx : HistoryTx) : result historyTxAPI :=
  let token :=
    {| token_TokenID := db_TokenID dbTx;
       token_EthBlockNum := db_TokenEthBlockNum dbTx;
       token_EthAddr := db_TokenEthAddr dbTx;
       token_Name := db_TokenName dbTx;
       token_Symbol := db_TokenSymbol dbTx;
       token_Decimals := db_TokenDecimals dbTx;
       token_USD := db_TokenUSD dbTx;
       token_USDUpdate := db_TokenUSDUpdate dbTx |} in
  let fromIdx :=
    match db_FromIdx dbTx with
    | Some idx => Some (idxToHez idx (db_TokenSymbol dbTx))
    | None => None
    end in
  if db_IsL1 dbTx
  then
    userOrigin <- deref (db_UserOrigin dbTx) ;;
    fromEthAddr <- deref (db_FromEthAddr dbTx) ;;
    (* bjjToString calls Compress through the pointer *)
    fromBJJ <- deref (db_FromBJJ dbTx) ;;
    Ok {| IsL1 := "L1";
          TxID := TxID_String (db_TxID dbTx);
          ItemID := db_ItemID dbTx;
          Type_ := db_Type dbTx;
          Position := db_Position dbTx;
          FromIdx := fromIdx;
          ToIdx := idxToHez (db_ToIdx dbTx) (db_TokenSymbol dbTx);
          Amount := BigInt_String (db_Amount dbTx);
          BatchNum := db_BatchNum dbTx;
          HistoricUSD := db_HistoricUSD dbTx;
          Timestamp := db_Timestamp dbTx;
          L1Info :=
            Some {| l1_ToForgeL1TxsNum := db_ToForgeL1TxsNum dbTx;
                    l1_UserOrigin := userOrigin;
                    l1_FromEthAddr := ethAddrToHez fromEthAddr;
                    l1_FromBJJ := bjjToString PublicKey Compress fromBJJ;
                    l1_LoadAmount := BigInt_String (db_LoadAmount dbTx);
                    l1_HistoricLoadAmountUSD :=
                      db_HistoricLoadAmountUSD dbTx;
                    l1_EthBlockNum := db_EthBlockNum dbTx |};
          L2Info := None;
          Token := token |}
  else
    fee <- deref (db_Fee dbTx) ;;
    nonce <- deref (db_Nonce dbTx) ;;
    Ok {| IsL1 := "L2";
          TxID := TxID_String (db_TxID dbTx);
          ItemID := db_ItemID dbTx;
          Type_ := db_Type dbTx;
          Position := db_Position dbTx;
          FromIdx := fromIdx;
          ToIdx := idxToHez (db_ToIdx dbTx) (db_TokenSymbol dbTx);
          Amount := BigInt_String (db_Amount dbTx);
          BatchNum := db_BatchNum dbTx;
          HistoricUSD := db_HistoricUSD dbTx;
          Timestamp := db_Timestamp dbTx;
          L1Info := None;
          L2Info :=
            Some {| l2_Fee := fee;
                    l2_HistoricFeeUSD := db_HistoricFeeUSD dbTx;
                    l2_Nonce := nonce |};
          Token := token |}.

(** The loop [for i := 0; i < len(dbTxs); i++] of [historyTxsToAPI]. *)
Fixpoint historyTxsToAPI_loop (dbTxs : list HistoryTx)
  (apiTxs : list historyTxAPI) : result (list historyTxAPI) :=
  match dbTxs with
  | [] => Ok apiTxs
  | dbTx :: dbTxs' =>
      apiTx <- historyTxToAPI dbTx ;;
      historyTxsToAPI_loop dbTxs' (apiTxs ++ [apiTx])
  end.

Definition historyTxsToAPI (dbTxs : list HistoryTx)
  : result (list historyTxAPI) :=
  let apiTxs := [] in
  historyTxsToAPI_loop dbTxs apiTxs.

(** A transaction that has what its kind reads through a pointer. *)
Definition complete (dbTx : HistoryTx) : Prop :=
  if db_IsL1 dbTx
  then db_UserOrigin dbTx <> None /\ db_FromEthAddr dbTx <> None
       /\ db_FromBJJ dbTx <> None
  else db_Fee dbTx <> None /\ db_Nonce dbTx <> None.

(** The [historyTxAPI] of a transaction: that of an L1 transaction says
    so and has the L1 information only, with the key of the sender as
    [bjjToString] renders it; that of an L2 transaction says so and has
    the L2 information only. *)
Definition rendered (dbTx : HistoryTx) (apiTx : historyTxAPI) : Prop :=
  ItemID apiTx = db_ItemID dbTx
  /\ if db_IsL1 dbTx
     then IsL1 apiTx = "L1"%string /\ L2Info apiTx = None
          /\ exists info bjj,
               L1Info apiTx = Some info /\ db_FromBJJ dbTx = Some bjj
               /\ l1_FromBJJ info = bjjToString PublicKey Compress bjj
     else IsL1 apiTx = "L2"%string /\ L1Info apiTx = None
          /\ exists info, L2Info apiTx = Some info.

Lemma historyTxToAPI_outcome (dbTx : HistoryTx) :
  match historyTxToAPI dbTx with
  | Ok apiTx => complete dbTx /\ rendered dbTx apiTx
  | Err _ => False
  | Panic => ~ complete dbTx
  end.
Proof.
  unfold historyTxToAPI, complete, rendered.
  destruct (db_IsL1 dbTx).
  - destruct (db_UserOrigin dbTx); cbn [deref bind]; [|tauto].
    destruct (db_FromEthAddr dbTx); cbn [deref bind]; [|tauto].
    destruct (db_FromBJJ dbTx) as [bjj|]; cbn [deref bind]; [|tauto].
    cbn. repeat split; try discriminate. eauto.
  - destruct (db_Fee dbTx); cbn [deref bind]; [|tauto].
    destruct (db_Nonce dbTx); cbn [deref bind]; [|tauto].
    cbn. repeat split; try discriminate. eauto.
Qed.

Lemma historyTxsToAPI_loop_outcome (dbTxs : list HistoryTx) :
  forall acc,
    match historyTxsToAPI_loop dbTxs acc with
    | Ok apiTxs =>
        Forall complete dbTxs
        /\ exists new, apiTxs = acc ++ new /\ Forall2 rendered dbTxs new
    | Err _ => False
    | Panic => ~ Forall complete dbTxs
    end.
Proof.
  induction dbTxs as [|dbTx dbTxs IH]; intros acc; cbn [historyTxsToAPI_loop].
  - split; [constructor|]. exists []. rewrite app_nil_r. split; constructor.
  - pose proof (historyTxToAPI_outcome dbTx) as H1.
    destruct (historyTxToAPI dbTx) as [apiTx|e|]; cbn [bind];
      [|contradiction|].
    + specialize (IH (acc ++ [apiTx])).
      destruct (historyTxsToAPI_loop dbTxs (acc ++ [apiTx])) as [apiTxs|e|];
        [|contradiction|].
      * destruct IH as (Hall & new & -> & Hnew). destruct H1 as [Hc Hr].
        split; [constructor; assumption|].
        exists (apiTx :: new). rewrite <- app_assoc.
        split; [reflexivity|]. constructor; assumption.
      * intros Hall. inversion Hall; subst. contradiction.
    + intros Hall. inversion Hall; subst. contradiction.
Qed.

(** X24.  [historyTxsToAPI] never returns an error.  It panics exactly
    when an L1 transaction comes without [UserOrigin], [FromEthAddr] or
    [FromBJJ], or an L2 transaction without [Fee] or [Nonce].  Otherwise it
    returns one item for each transaction, in the same order and with the
    same [ItemID]; the item of an L1 transaction is marked ["L1"] and has
    the L1 information only, with the key of the sender as [bjjToString]
    renders it, and the item of an L2 transaction is marked ["L2"] and has
    the L2 information only. *)
Theorem historyTxsToAPI_spec (dbTxs : list HistoryTx) :
  (forall e, historyTxsToAPI dbTxs <> Err e)
  /\ (historyTxsToAPI dbTxs = Panic <-> ~ Forall complete dbTxs)
  /\ (forall apiTxs,
        historyTxsToAPI dbTxs = Ok apiTxs ->
        Forall2 rendered dbTxs apiTxs
        /\ length apiTxs = length dbTxs
        /\ map ItemID apiTxs = map db_ItemID dbTxs).
Proof.
  unfold historyTxsToAPI.
  pose proof (historyTxsToAPI_loop_outcome dbTxs []) as H.
  destruct (historyTxsToAPI_loop dbTxs []) as [apiTxs|e|].
  - destruct H as (Hall & new & -> & Hnew). cbn [app].
    split; [discriminate|]. split; [split; [discriminate | contradiction]|].
    intros apiTxs [= <-]. split; [exact Hnew|].
    split.
    + symmetry. eapply Forall2_length. exact Hnew.
    + clear Hall. induction Hnew as [|db api dbs apis Hr _ IH];
        [reflexivity|].
      cbn [map]. rewrite IH. f_equal. apply Hr.
  - contradiction.
  - split; [discriminate|]. split; [tauto | discriminate].
Qed.

End HistoryTxs.

End Api.

(** * eth: events and calldata of the rollup contract *)

Module Eth.

(** [RollupConstL1CoordinatorTotalBytes]: [4 bytes] token + [32 bytes]
    babyjub + [65 bytes] compressedSignature. *)
Definition RollupConstL1CoordinatorTotalBytes : Z := 101.

(** [common.L1CoordinatorTxBytesLen], the length that the contract
    constant above fixes. *)
Definition L1CoordinatorTxBytesLen : Z := RollupConstL1CoordinatorTotalBytes.

(** [common.L1Tx], with a hash or an address held as the integer that its
    bytes spell big-endian. *)
Record L1Tx : Type := mkL1Tx {
  ToForgeL1TxsNum : option Z;
  Position : Z;
  UserOrigin : bool;
  FromIdx : option Z;
  FromEthAddr : Z;
  FromBJJ : list Z;
  ToIdx : Z;
  TokenID : Z;
  Amount : Z;
  LoadAmount : Z
}.

(** [types.Log] of go-ethereum, reduced to the fields that are read. *)
Record Log : Type := mkLog {
  Topics : list Z;
  Data : list Z;
  TxHash : Z;
  BlockHash : Z
}.

Record RollupEventL1UserTx : Type := { L1UserTx : L1Tx }.

Record RollupEventAddToken : Type := {
  TokenAddress : Z;
  AddToken_TokenID : Z
}.

Record RollupEventForgeBatch : Type := {
  ForgeBatch_BatchNum : Z;
  EthTxHash : Z
}.

Record RollupEventUpdateForgeL1L2BatchTimeout : Type := {
  NewForgeL1L2BatchTimeout : Z
}.

Record RollupEventUpdateFeeAddToken : Type := { NewFeeAddToken : Z }.

Record RollupEventWithdrawEvent : Type := {
  Withdraw_Idx : Z;
  NumExitRoot : Z;
  InstantWithdraw : bool
}.

(** [RollupEvents] is the list of the events in a block of the rollup
    smart contract, one slice for each kind of event. *)
Record RollupEvents : Type := mkRollupEvents {
  ev_L1UserTx : list RollupEventL1UserTx;
  ev_AddToken : list RollupEventAddToken;
  ev_ForgeBatch : list RollupEventForgeBatch;
  ev_UpdateForgeL1L2BatchTimeout : list RollupEventUpdateForgeL1L2BatchTimeout;
  ev_UpdateFeeAddToken : list RollupEventUpdateFeeAddToken;
  ev_WithdrawEvent : list RollupEventWithdrawEvent
}.

(** [var rollupEvents RollupEvents] *)
Definition RollupEvents_zero : RollupEvents := mkRollupEvents [] [] [] [] [] [].

(** The events of [a] followed by the events of [b], kind by kind. *)
Definition RollupEvents_app (a b : RollupEvents) : RollupEvents :=
  {| ev_L1UserTx := ev_L1UserTx a ++ ev_L1UserTx b;
     ev_AddToken := ev_AddToken a ++ ev_AddToken b;
     ev_ForgeBatch := ev_ForgeBatch a ++ ev_ForgeBatch b;
     ev_UpdateForgeL1L2BatchTimeout :=
       ev_UpdateForgeL1L2BatchTimeout a ++ ev_UpdateForgeL1L2BatchTimeout b;
     ev_UpdateFeeAddToken := ev_UpdateFeeAddToken a ++ ev_UpdateFeeAddToken b;
     ev_WithdrawEvent := ev_WithdrawEvent a ++ ev_WithdrawEvent b |}.

(** The number of events, all kinds together. *)
Definition RollupEvents_count (a : RollupEvents) : nat :=
  (length (ev_L1UserTx a) + length (ev_AddToken a) + length (ev_ForgeBatch a)
   + length (ev_UpdateForgeL1L2BatchTimeout a)
   + length (ev_UpdateFeeAddToken a) + length (ev_WithdrawEvent a))%nat.

(** [vLog.Topics[i]] *)
Definition topic (vLog : Log) (i : Z) : result Z := index (Topics vLog) i.

(** [new(big.Int).SetBytes(h[:]).Int64()], the low 64 bits read as a
    signed integer, and [.Uint64()], the low 64 bits. *)
Definition Int64 (h : Z) : Z := (h + 2 ^ 63) mod 2 ^ 64 - 2 ^ 63.
Definition Uint64 (h : Z) : Z := h mod 2 ^ 64.

(** [ethCommon.BytesToAddress]: the last 20 bytes. *)
Definition BytesToAddress (h : Z) : Z := h mod 2 ^ 160.

(** The hash that the loop of [RollupEventsByBlock] compares with. *)
Definition first_BlockHash (logs : list Log) : Z :=
  match logs with
  | [] => 0
  | log0 :: _ => BlockHash log0
  end.

Section RollupClient.

(** The collaborators of the client: the log filter of the Ethereum node
    (asked for the logs of one block), the ABI decoder of each event, and
    the L1 transaction decoders of package [common]. *)
Variable FilterLogs : Z -> result (list Log).
Variable Unpack_L1UserTxEvent : list Z -> result (list Z).
Variable Unpack_AddToken : list Z -> result RollupEventAddToken.
Variable Unpack_UpdateForgeL1L2BatchTimeout : list Z -> result Z.
Variable Unpack_UpdateFeeAddToken : list Z -> result RollupEventUpdateFeeAddToken.
Variable L1UserTxFromBytes : list Z -> result L1Tx.
Variable L1CoordinatorTxFromBytes : list Z -> result L1Tx.

(** The Keccak-256 hashes of the event signatures. *)
Variable logHermezL1UserTxEvent : Z.
Variable logHermezAddToken : Z.
Variable logHermezForgeBatch : Z.
Variable logHermezUpdateForgeL1L2BatchTimeout : Z.
Variable logHermezUpdateFeeAddToken : Z.
Variable logHermezWithdrawEvent : Z.

(** The [switch vLog.Topics[0]] of [RollupEventsByBlock]: the events once
    [vLog] is decoded and appended. *)
Definition RollupEventsByBlock_switch (rollupEvents : RollupEvents) (vLog : Log)
  : result RollupEvents :=
  topic0 <- topic vLog 0 ;;
  if topic0 =? logHermezL1UserTxEvent then
    L1UserTxAux <- Unpack_L1UserTxEvent (Data vLog) ;;
    L1Tx <- L1UserTxFromBytes L1UserTxAux ;;
    topic1 <- topic vLog 1 ;;
    let toForgeL1TxsNum := Int64 topic1 in
    topic2 <- topic vLog 2 ;;
    let L1Tx :=
      {| ToForgeL1TxsNum := Some toForgeL1TxsNum;
         Position := Int64 topic2;
         UserOrigin := true;
         FromIdx := FromIdx L1Tx; FromEthAddr := FromEthAddr L1Tx;
         FromBJJ := FromBJJ L1Tx; ToIdx := ToIdx L1Tx;
         TokenID := TokenID L1Tx; Amount := Amount L1Tx;
         LoadAmount := LoadAmount L1Tx |} in
    Ok {| ev_L1UserTx := ev_L1UserTx rollupEvents ++ [{| L1UserTx := L1Tx |}];
          ev_AddToken := ev_AddToken rollupEvents;
          ev_ForgeBatch := ev_ForgeBatch rollupEvents;
          ev_UpdateForgeL1L2BatchTimeout :=
            ev_UpdateForgeL1L2BatchTimeout rollupEvents;
          ev_UpdateFeeAddToken := ev_UpdateFeeAddToken rollupEvents;
          ev_WithdrawEvent := ev_WithdrawEvent rollupEvents |}
  else if topic0 =? logHermezAddToken then
    addToken <- Unpack_AddToken (Data vLog) ;;
    topic1 <- topic vLog 1 ;;
    let addToken :=
      {| TokenAddress := BytesToAddress topic1;
         AddToken_TokenID := AddToken_TokenID addToken |} in
    Ok {| ev_L1UserTx := ev_L1UserTx rollupEvents;
          ev_AddToken := ev_AddToken rollupEvents ++ [addToken];
          ev_ForgeBatch := ev_ForgeBatch rollupEvents;
          ev_UpdateForgeL1L2BatchTimeout :=
            ev_UpdateForgeL1L2BatchTimeout rollupEvents;
          ev_UpdateFeeAddToken := ev_UpdateFeeAddToken rollupEvents;
          ev_WithdrawEvent := ev_WithdrawEvent rollupEvents |}
  else if topic0 =? logHermezForgeBatch then
    topic1 <- topic vLog 1 ;;
    let forgeBatch :=
      {| ForgeBatch_BatchNum := Int64 topic1; EthTxHash := TxHash vLog |} in
    Ok {| ev_L1UserTx := ev_L1UserTx rollupEvents;
          ev_AddToken := ev_AddToken rollupEvents;
          ev_ForgeBatch := ev_ForgeBatch rollupEvents ++ [forgeBatch];
          ev_UpdateForgeL1L2BatchTimeout :=
            ev_UpdateForgeL1L2BatchTimeout rollupEvents;
          ev_UpdateFeeAddToken := ev_UpdateFeeAddToken rollupEvents;
          ev_WithdrawEvent := ev_WithdrawEvent rollupEvents |}
  else if topic0 =? logHermezUpdateForgeL1L2BatchTimeout then
    timeout <- Unpack_UpdateForgeL1L2BatchTimeout (Data vLog) ;;
    Ok {| ev_L1UserTx := ev_L1UserTx rollupEvents;
          ev_AddToken := ev_AddToken rollupEvents;
          ev_ForgeBatch := ev_ForgeBatch rollupEvents;
          ev_UpdateForgeL1L2BatchTimeout :=
            ev_UpdateForgeL1L2BatchTimeout rollupEvents
              ++ [{| NewForgeL1L2BatchTimeout := timeout |}];
          ev_UpdateFeeAddToken := ev_UpdateFeeAddToken rollupEvents;
          ev_WithdrawEvent := ev_WithdrawEvent rollupEvents |}
  else if topic0 =? logHermezUpdateFeeAddToken then
    updateFeeAddToken <- Unpack_UpdateFeeAddToken (Data vLog) ;;
    Ok {| ev_L1UserTx := ev_L1UserTx rollupEvents;
          ev_AddToken := ev_AddToken rollupEvents;
          ev_ForgeBatch := ev_ForgeBatch rollupEvents;
          ev_UpdateForgeL1L2BatchTimeout :=
            ev_UpdateForgeL1L2BatchTimeout rollupEvents;
          ev_UpdateFeeAddToken :=
            ev_UpdateFeeAddToken rollupEvents ++ [updateFeeAddToken];
          ev_WithdrawEvent := ev_WithdrawEvent rollupEvents |}
  else if topic0 =? logHermezWithdrawEvent then
    topic1 <- topic vLog 1 ;;
    topic2 <- topic vLog 2 ;;
    topic3 <- topic vLog 3 ;;
    let instantWithdraw := Uint64 topic3 in
    let withdraw :=
      {| Withdraw_Idx := Uint64 topic1;
         NumExitRoot := Uint64 topic2;
         InstantWithdraw := instantWithdraw =? 1 |} in
    Ok {| ev_L1UserTx := ev_L1UserTx rollupEvents;
          ev_AddToken := ev_AddToken rollupEvents;
          ev_ForgeBatch := ev_ForgeBatch rollupEvents;
          ev_UpdateForgeL1L2BatchTimeout :=
            ev_UpdateForgeL1L2BatchTimeout rollupEvents;
          ev_UpdateFeeAddToken := ev_UpdateFeeAddToken rollupEvents;
          ev_WithdrawEvent := ev_WithdrawEvent rollupEvents ++ [withdraw] |}
  else Ok rollupEvents.

(** The loop [for _, vLog := range logs] of [RollupEventsByBlock]. *)
Fixpoint RollupEventsByBlock_loop
  (blockHash : Z) (rollupEvents : RollupEvents) (logs : list Log)
  : result RollupEvents :=
  match logs with
  | [] => Ok rollupEvents
  | vLog :: logs' =>
      if negb (BlockHash vLog =? blockHash)
      then Err ErrBlockHashMismatchEvent
      else
        rollupEvents <- RollupEventsByBlock_switch rollupEvents vLog ;;
        RollupEventsByBlock_loop blockHash rollupEvents logs'
  end.

(** [RollupEventsByBlock] returns the events in a block that happened in
    the rollup smart contract, and the hash of that block (the zero hash
    when the block has no log). *)
Definition RollupEventsByBlock (blockNum : Z) : result (RollupEvents * Z) :=
  let rollupEvents := RollupEvents_zero in
  let blockHash := 0 in
  logs <- FilterLogs blockNum ;;
  let blockHash :=
    match logs with
    | [] => blockHash
    | log0 :: _ => BlockHash log0
    end in
  rollupEvents <- RollupEventsByBlock_loop blockHash rollupEvents logs ;;
  Ok (rollupEvents, blockHash).

(** The compact signature that [RollupForgeBatchArgs] rebuilds from one
    chunk of the encoded L1 coordinator transactions. *)
Definition L1Coordinator_signature (bytesL1Coordinator : list Z)
  : result (list Z) :=
  let signature := [] in
  v <- index bytesL1Coordinator 0 ;;
  s <- slice bytesL1Coordinator 1 33 ;;
  r <- slice bytesL1Coordinator 33 65 ;;
  let signature := signature ++ r in
  let signature := signature ++ s in
  let signature := signature ++ [v] in
  Ok signature.

(** The loop [for i := 0; i < numTxsL1; i++] of [RollupForgeBatchArgs];
    [n] counts the iterations that remain. *)
Fixpoint RollupForgeBatchArgs_loopL1
  (n : nat) (i : Z) (EncodedL1CoordinatorTx : list Z)
  (L1CoordinatorTxs : list L1Tx) (L1CoordinatorTxsAuths : list (list Z))
  : result (list L1Tx * list (list Z)) :=
  match n with
  | O => Ok (L1CoordinatorTxs, L1CoordinatorTxsAuths)
  | S n' =>
      bytesL1Coordinator <-
        slice EncodedL1CoordinatorTx (i * L1CoordinatorTxBytesLen)
          ((i + 1) * L1CoordinatorTxBytesLen) ;;
      signature <- L1Coordinator_signature bytesL1Coordinator ;;
      l1Tx <- L1CoordinatorTxFromBytes bytesL1Coordinator ;;
      RollupForgeBatchArgs_loopL1 n' (i + 1) EncodedL1CoordinatorTx
        (L1CoordinatorTxs ++ [l1Tx]) (L1CoordinatorTxsAuths ++ [signature])
  end.

(** The part of [RollupForgeBatchArgs] that decodes
    [aux.EncodedL1CoordinatorTx] into [L1CoordinatorTxs] and
    [L1CoordinatorTxsAuths]. *)
Definition RollupForgeBatchArgs_L1CoordinatorTxs
  (EncodedL1CoordinatorTx : list Z) : result (list L1Tx * list (list Z)) :=
  let numTxsL1 := len EncodedL1CoordinatorTx / L1CoordinatorTxBytesLen in
  RollupForgeBatchArgs_loopL1 (Z.to_nat numTxsL1) 0 EncodedL1CoordinatorTx [] [].

Lemma RollupEvents_app_zero_r (a : RollupEvents) :
  RollupEvents_app a RollupEvents_zero = a.
Proof.
  destruct a. unfold RollupEvents_app. cbn. rewrite !app_nil_r. reflexivity.
Qed.

Lemma RollupEvents_app_zero_l (a : RollupEvents) :
  RollupEvents_app RollupEvents_zero a = a.
Proof. destruct a. reflexivity. Qed.

Lemma RollupEvents_app_assoc (a b c : RollupEvents) :
  RollupEvents_app a (RollupEvents_app b c)
  = RollupEvents_app (RollupEvents_app a b) c.
Proof.
  unfold RollupEvents_app. cbn. rewrite !app_assoc. reflexivity.
Qed.

(** Case analysis on the outcome of each call and on each test of the
    [switch]. *)
Ltac case_results :=
  repeat match goal with
         | |- context [if ?a =? ?b then _ else _] =>
             destruct (a =? b); cbv iota
         | |- context [bind (topic ?l ?i) _] =>
             destruct (topic l i); cbn [bind]
         | |- context [bind (L1UserTxFromBytes ?b) _] =>
             destruct (L1UserTxFromBytes b); cbn [bind]
         | |- context [bind (?unpack (Data ?l)) _] =>
             destruct (unpack (Data l)); cbn [bind]
         end.

(** Decoding a log appends to the events collected so far the events of
    that log alone. *)
Lemma RollupEventsByBlock_switch_app (acc : RollupEvents) (vLog : Log) :
  RollupEventsByBlock_switch acc vLog
  = (e <- RollupEventsByBlock_switch RollupEvents_zero vLog ;;
     Ok (RollupEvents_app acc e)).
Proof.
  unfold RollupEventsByBlock_switch.
  case_results; try reflexivity;
    unfold RollupEvents_app; cbn; rewrite ?app_nil_r;
    destruct acc; reflexivity.
Qed.

(** A log gives at most one event. *)
Lemma RollupEventsByBlock_switch_count (vLog : Log) (e : RollupEvents) :
  RollupEventsByBlock_switch RollupEvents_zero vLog = Ok e ->
  (RollupEvents_count e <= 1)%nat.
Proof.
  assert (H : match RollupEventsByBlock_switch RollupEvents_zero vLog with
              | Ok e' => (RollupEvents_count e' <= 1)%nat
              | _ => True
              end).
  { unfold RollupEventsByBlock_switch.
    case_results; try exact I; unfold RollupEvents_count; cbn; lia. }
  intros He. rewrite He in H. exact H.
Qed.

Lemma RollupEventsByBlock_loop_app
  (blockHash : Z) (pre post : list Log) (acc : RollupEvents) :
  RollupEventsByBlock_loop blockHash acc (pre ++ post)
  = (acc' <- RollupEventsByBlock_loop blockHash acc pre ;;
     RollupEventsByBlock_loop blockHash acc' post).
Proof.
  revert acc. induction pre as [|l pre IH]; intros acc; cbn; [reflexivity|].
  destruct (negb (BlockHash l =? blockHash)); [reflexivity|].
  destruct (RollupEventsByBlock_switch acc l); cbn [bind]; auto.
Qed.

Lemma RollupEventsByBlock_loop_Ok
  (blockHash : Z) (logs : list Log) (acc evs : RollupEvents) :
  RollupEventsByBlock_loop blockHash acc logs = Ok evs ->
  Forall (fun l => BlockHash l = blockHash) logs
  /\ exists per,
      Forall2 (fun l e =>
                 RollupEventsByBlock_switch RollupEvents_zero l = Ok e
                 /\ (RollupEvents_count e <= 1)%nat) logs per
      /\ evs = RollupEvents_app acc
                 (fold_right RollupEvents_app RollupEvents_zero per).
Proof.
  revert acc evs. induction logs as [|l logs IH]; intros acc evs H; cbn in H.
  - injection H as <-. split; [constructor|]. exists []. split; [constructor|].
    cbn. rewrite RollupEvents_app_zero_r. reflexivity.
  - destruct (BlockHash l =? blockHash) eqn:Hh; [|discriminate].
    cbn [negb] in H. apply Z.eqb_eq in Hh.
    rewrite RollupEventsByBlock_switch_app in H.
    destruct (RollupEventsByBlock_switch RollupEvents_zero l) as [e| |] eqn:He;
      cbn [bind] in H; try discriminate.
    apply IH in H. destruct H as [Hall (per & Hper & ->)].
    split; [constructor; assumption|].
    exists (e :: per). split.
    + constructor; [|exact Hper]. split; [exact He|].
      apply (RollupEventsByBlock_switch_count l). exact He.
    + cbn. apply eq_sym, RollupEvents_app_assoc.
Qed.

(** The loop ends well, or it stops at the first log that carries another
    hash or does not decode, the logs before it having been decoded. *)
Lemma RollupEventsByBlock_loop_stops
  (blockHash : Z) (logs : list Log) (acc : RollupEvents) :
  (exists evs, RollupEventsByBlock_loop blockHash acc logs = Ok evs)
  \/ exists pre l post acc',
      logs = pre ++ l :: post
      /\ RollupEventsByBlock_loop blockHash acc pre = Ok acc'
      /\ ((BlockHash l <> blockHash
           /\ RollupEventsByBlock_loop blockHash acc logs
              = Err ErrBlockHashMismatchEvent)
          \/ (BlockHash l = blockHash
              /\ ((exists e,
                     RollupEventsByBlock_switch RollupEvents_zero l = Err e
                     /\ RollupEventsByBlock_loop blockHash acc logs = Err e)
                  \/ (RollupEventsByBlock_switch RollupEvents_zero l = Panic
                      /\ RollupEventsByBlock_loop blockHash acc logs = Panic)))).
Proof.
  revert acc. induction logs as [|l logs IH]; intros acc.
  - left. exists acc. reflexivity.
  - assert (Hstep : RollupEventsByBlock_loop blockHash acc (l :: logs)
                    = if negb (BlockHash l =? blockHash)
                      then Err ErrBlockHashMismatchEvent
                      else (e <- RollupEventsByBlock_switch RollupEvents_zero l ;;
                            RollupEventsByBlock_loop blockHash
                              (RollupEvents_app acc e) logs)).
    { cbn [RollupEventsByBlock_loop]. rewrite RollupEventsByBlock_switch_app.
      destruct (RollupEventsByBlock_switch RollupEvents_zero l); reflexivity. }
    destruct (BlockHash l =? blockHash) eqn:Hh; cbn [negb] in Hstep.
    + apply Z.eqb_eq in Hh.
      destruct (RollupEventsByBlock_switch RollupEvents_zero l) as [e|err|]
        eqn:He; cbn [bind] in Hstep.
      * destruct (IH (RollupEvents_app acc e))
          as [Hok | (pre & l' & post & acc' & Hsplit & Hpre & Hstop)].
        { left. rewrite Hstep. exact Hok. }
        right. exists (l :: pre), l', post, acc'.
        split; [rewrite Hsplit; reflexivity|]. split.
        { cbn [RollupEventsByBlock_loop].
          replace (BlockHash l =? blockHash) with true
            by (symmetry; apply Z.eqb_eq; exact Hh).
          cbn [negb]. rewrite RollupEventsByBlock_switch_app, He. exact Hpre. }
        rewrite Hstep. exact Hstop.
      * right. exists [], l, logs, acc.
        split; [reflexivity|]. split; [reflexivity|].
        right. split; [exact Hh|]. left. exists err.
        split; [exact He | exact Hstep].
      * right. exists [], l, logs, acc.
        split; [reflexivity|]. split; [reflexivity|].
        right. split; [exact Hh|]. right. split; [exact He | exact Hstep].
    + apply Z.eqb_neq in Hh. right. exists [], l, logs, acc.
      split; [reflexivity|]. split; [reflexivity|].
      left. split; [exact Hh | exact Hstep].
Qed.

(** C6, as amended.  [RollupEventsByBlock] is given a block number only.
    On success every log carries the block hash of the first log, which is
    returned with the events for the caller to compare with the hash it
    expects; each log gives at most one event, and the events of each kind
    are in the order of the logs.  Whenever a log carries another hash than
    the first log, the call returns no events: it returns
    [ErrBlockHashMismatchEvent] when the logs before the first such log
    decode, and a log that does not decode ends the call before, with the
    error of its decoder or with a panic (a log that lacks a topic).
    Every call that returns no events ends in one of these ways. *)
Theorem RollupEventsByBlock_spec (blockNum : Z) (logs : list Log) :
  FilterLogs blockNum = Ok logs ->
  (forall rollupEvents blockHash,
     RollupEventsByBlock blockNum = Ok (rollupEvents, blockHash) ->
     blockHash = first_BlockHash logs
     /\ Forall (fun l => BlockHash l = blockHash) logs
     /\ exists per,
         Forall2 (fun l e =>
                    RollupEventsByBlock_switch RollupEvents_zero l = Ok e
                    /\ (RollupEvents_count e <= 1)%nat) logs per
         /\ rollupEvents = fold_right RollupEvents_app RollupEvents_zero per)
  /\ (forall l, In l logs -> BlockHash l <> first_BlockHash logs ->
      forall r, RollupEventsByBlock blockNum <> Ok r)
  /\ (forall pre l post acc,
        logs = pre ++ l :: post ->
        RollupEventsByBlock_loop (first_BlockHash logs) RollupEvents_zero pre
        = Ok acc ->
        BlockHash l <> first_BlockHash logs ->
        RollupEventsByBlock blockNum = Err ErrBlockHashMismatchEvent)
  /\ (forall pre l post acc,
        logs = pre ++ l :: post ->
        RollupEventsByBlock_loop (first_BlockHash logs) RollupEvents_zero pre
        = Ok acc ->
        BlockHash l = first_BlockHash logs ->
        (forall e,
           RollupEventsByBlock_switch RollupEvents_zero l = Err e ->
           RollupEventsByBlock blockNum = Err e)
        /\ (RollupEventsByBlock_switch RollupEvents_zero l = Panic ->
            RollupEventsByBlock blockNum = Panic))
  /\ ((forall r, RollupEventsByBlock blockNum <> Ok r) ->
      exists pre l post acc,
        logs = pre ++ l :: post
        /\ RollupEventsByBlock_loop (first_BlockHash logs) RollupEvents_zero
             pre = Ok acc
        /\ ((BlockHash l <> first_BlockHash logs
             /\ RollupEventsByBlock blockNum = Err ErrBlockHashMismatchEvent)
            \/ (BlockHash l = first_BlockHash logs
                /\ ((exists e,
                       RollupEventsByBlock_switch RollupEvents_zero l = Err e
                       /\ RollupEventsByBlock blockNum = Err e)
                    \/ (RollupEventsByBlock_switch RollupEvents_zero l = Panic
                        /\ RollupEventsByBlock blockNum = Panic))))).
Proof.
  intros Hlogs.
  assert (Hrun : RollupEventsByBlock blockNum
                 = (rollupEvents <- RollupEventsByBlock_loop
                                      (first_BlockHash logs) RollupEvents_zero logs ;;
                    Ok (rollupEvents, first_BlockHash logs))).
  { unfold RollupEventsByBlock. rewrite Hlogs. reflexivity. }
  assert (Hok : forall rollupEvents blockHash,
             RollupEventsByBlock blockNum = Ok (rollupEvents, blockHash) ->
             blockHash = first_BlockHash logs
             /\ Forall (fun l => BlockHash l = blockHash) logs
             /\ exists per,
                 Forall2 (fun l e =>
                            RollupEventsByBlock_switch RollupEvents_zero l = Ok e
                            /\ (RollupEvents_count e <= 1)%nat) logs per
                 /\ rollupEvents
                    = fold_right RollupEvents_app RollupEvents_zero per).
  { intros evs h H. rewrite Hrun in H.
    destruct (RollupEventsByBlock_loop _ _ logs) as [evs'| |] eqn:Hloop;
      cbn [bind] in H; try discriminate.
    injection H as -> <-.
    apply RollupEventsByBlock_loop_Ok in Hloop.
    destruct Hloop as [Hall (per & Hper & ->)].
    rewrite RollupEvents_app_zero_l. eauto. }
  split; [exact Hok|]. split; [|split; [|split]].
  - intros l Hin Hne [evs h] H. apply Hok in H. destruct H as (-> & Hall & _).
    rewrite Forall_forall in Hall. apply Hne, Hall, Hin.
  - intros pre l post acc -> Hpre Hne. rewrite Hrun.
    rewrite RollupEventsByBlock_loop_app, Hpre. cbn [bind].
    cbn [RollupEventsByBlock_loop].
    replace (BlockHash l =? first_BlockHash (pre ++ l :: post)) with false
      by (symmetry; apply Z.eqb_neq; exact Hne).
    reflexivity.
  - intros pre l post acc -> Hpre Heq.
    assert (Hstep : RollupEventsByBlock blockNum
                    = (e <- RollupEventsByBlock_switch RollupEvents_zero l ;;
                       rollupEvents <-
                         RollupEventsByBlock_loop
                           (first_BlockHash (pre ++ l :: post))
                           (RollupEvents_app acc e) post ;;
                       Ok (rollupEvents, first_BlockHash (pre ++ l :: post)))).
    { rewrite Hrun, RollupEventsByBlock_loop_app, Hpre. cbn [bind].
      cbn [RollupEventsByBlock_loop].
      replace (BlockHash l =? first_BlockHash (pre ++ l :: post)) with true
        by (symmetry; apply Z.eqb_eq; exact Heq).
      cbn [negb]. rewrite RollupEventsByBlock_switch_app.
      destruct (RollupEventsByBlock_switch RollupEvents_zero l); reflexivity. }
    split.
    + intros e He. rewrite Hstep, He. reflexivity.
    + intros He. rewrite Hstep, He. reflexivity.
  - intros Hfail.
    destruct (RollupEventsByBlock_loop_stops (first_BlockHash logs) logs
                RollupEvents_zero)
      as [[evs Hevs] | (pre & l & post & acc & Hsplit & Hpre & Hstop)].
    + exfalso. apply (Hfail (evs, first_BlockHash logs)).
      rewrite Hrun, Hevs. reflexivity.
    + exists pre, l, post, acc. split; [exact Hsplit|]. split; [exact Hpre|].
      destruct Hstop as [[Hne Hl] | [Heq [(e & He & Hl) | [He Hl]]]].
      * left. split; [exact Hne|]. rewrite Hrun, Hl. reflexivity.
      * right. split; [exact Heq|]. left. exists e. split; [exact He|].
        rewrite Hrun, Hl. reflexivity.
      * right. split; [exact Heq|]. right. split; [exact He|].
        rewrite Hrun, Hl. reflexivity.
Qed.

End RollupClient.

(** A client to run the definitions on: the event signatures are 1 to 6, the block
    at height 5 has one [ForgeBatch] log (batch 7, transaction 9) in a
    block of hash 2, the block at height 6 has two logs from blocks of
    different hashes, the blocks at the heights 7 and 8 have before such a
    second log a log without topics and an [AddToken] log, and the ABI
    decoders fail. *)
Definition log_forge (blockHash : Z) : Log :=
  {| Topics := [3; 7]; Data := []; TxHash := 9; BlockHash := blockHash |}.

Definition log_no_topics (blockHash : Z) : Log :=
  {| Topics := []; Data := []; TxHash := 9; BlockHash := blockHash |}.

Definition log_add_token (blockHash : Z) : Log :=
  {| Topics := [2; 7]; Data := []; TxHash := 9; BlockHash := blockHash |}.

Definition FilterLogs_ex (blockNum : Z) : result (list Log) :=
  if blockNum =? 5 then Ok [log_forge 2]
  else if blockNum =? 6 then Ok [log_forge 2; log_forge 4]
  else if blockNum =? 7 then Ok [log_no_topics 2; log_forge 4]
  else if blockNum =? 8 then Ok [log_add_token 2; log_forge 4]
  else Ok [].

Definition RollupEventsByBlock_ex : Z -> result (RollupEvents * Z) :=
  RollupEventsByBlock FilterLogs_ex
    (fun _ => Err (ErrExternal 0)) (fun _ => Err (ErrExternal 0))
    (fun _ => Err (ErrExternal 0)) (fun _ => Err (ErrExternal 0))
    (fun _ => Err (ErrExternal 0)) 1 2 3 4 5 6.

(** The block at height 5 as the synchronizer fetched it before the chain
    reorganized: its hash is 1. *)
Definition block_b : Block := {| EthBlockNum := 5; Hash := 1; Timestamp := 0 |}.

Lemma RollupEventsByBlock_spec_witness :
  RollupEventsByBlock_ex 6 = Err ErrBlockHashMismatchEvent
  /\ RollupEventsByBlock_ex 7 = Panic
  /\ RollupEventsByBlock_ex 8 = Err (ErrExternal 0).
Proof.
  split; [|split].
  - refine (proj1 (proj2 (proj2
      (RollupEventsByBlock_spec FilterLogs_ex
         (fun _ => Err (ErrExternal 0)) (fun _ => Err (ErrExternal 0))
         (fun _ => Err (ErrExternal 0)) (fun _ => Err (ErrExternal 0))
         (fun _ => Err (ErrExternal 0)) 1 2 3 4 5 6
         6 [log_forge 2; log_forge 4] _)))
      [log_forge 2] (log_forge 4) [] _ _ _ _).
    + reflexivity.
    + reflexivity.
    + reflexivity.
    + cbn. discriminate.
  - refine (proj2 (proj1 (proj2 (proj2 (proj2
      (RollupEventsByBlock_spec FilterLogs_ex
         (fun _ => Err (ErrExternal 0)) (fun _ => Err (ErrExternal 0))
         (fun _ => Err (ErrExternal 0)) (fun _ => Err (ErrExternal 0))
         (fun _ => Err (ErrExternal 0)) 1 2 3 4 5 6
         7 [log_no_topics 2; log_forge 4] _))))
      [] (log_no_topics 2) [log_forge 4] _ _ _ _) _).
    + reflexivity.
    + reflexivity.
    + reflexivity.
    + reflexivity.
    + reflexivity.
  - refine (proj1 (proj1 (proj2 (proj2 (proj2
      (RollupEventsByBlock_spec FilterLogs_ex
         (fun _ => Err (ErrExternal 0)) (fun _ => Err (ErrExternal 0))
         (fun _ => Err (ErrExternal 0)) (fun _ => Err (ErrExternal 0))
         (fun _ => Err (ErrExternal 0)) 1 2 3 4 5 6
         8 [log_add_token 2; log_forge 4] _))))
      [] (log_add_token 2) [log_forge 4] _ _ _ _) (ErrExternal 0) _).
    + reflexivity.
    + reflexivity.
    + reflexivity.
    + reflexivity.
    + reflexivity.
Defined.

(** C6 as stated fails: the only event of the block at height 5 lies in a
    block of hash 2, which is not the hash 1 of [block_b], and
    [RollupEventsByBlock] returns it without an error. *)
Lemma RollupEventsByBlock_counterexample :
  FilterLogs_ex (EthBlockNum block_b) = Ok [log_forge 2]
  /\ BlockHash (log_forge 2) <> Hash block_b
  /\ RollupEventsByBlock_ex (EthBlockNum block_b)
     = Ok ({| ev_L1UserTx := []; ev_AddToken := [];
              ev_ForgeBatch :=
                [{| ForgeBatch_BatchNum := 7; EthTxHash := 9 |}];
              ev_UpdateForgeL1L2BatchTimeout := [];
              ev_UpdateFeeAddToken := []; ev_WithdrawEvent := [] |}, 2).
Proof.
  split; [reflexivity|]. split; [cbn; discriminate|].
  vm_compute. reflexivity.
Qed.

(** Modelled from the spec: [L1Tx.BytesCoordinatorTx], whose source is not
    available.  "[L1CoordinatorTx.Bytes(sig)] =
    v(1) | r(32) | s(32) | FromBJJcompressed(32) | TokenID(4) = 101 bytes",
    where the compact signature [sig] is [r | s | v]. *)
Definition BytesCoordinatorTx_spec (tx : L1Tx) (compressedSignatureBytes : list Z)
  : result (list Z) :=
  r <- slice compressedSignatureBytes 0 32 ;;
  s <- slice compressedSignatureBytes 32 64 ;;
  v <- index compressedSignatureBytes 64 ;;
  Ok ([v] ++ r ++ s ++ FromBJJ tx ++ be_bytes 4 (TokenID tx)).

(** One chunk of the encoded L1 coordinator transactions, field by field
    in the order in which [RollupForgeBatchArgs] reads them. *)
Record CoordinatorChunk : Type := mkChunk {
  chunk_v : Z;
  chunk_s : list Z;
  chunk_r : list Z;
  chunk_bjj : list Z;
  chunk_tokenID : list Z
}.

Record wf_chunk (c : CoordinatorChunk) : Prop := {
  wf_chunk_s : length (chunk_s c) = 32%nat;
  wf_chunk_r : length (chunk_r c) = 32%nat;
  wf_chunk_bjj : length (chunk_bjj c) = 32%nat;
  wf_chunk_tokenID : length (chunk_tokenID c) = 4%nat
}.

Definition chunk_bytes (c : CoordinatorChunk) : list Z :=
  [chunk_v c] ++ chunk_s c ++ chunk_r c ++ chunk_bjj c ++ chunk_tokenID c.

(** The compact Ethereum signature [r | s | v] of a chunk. *)
Definition chunk_signature (c : CoordinatorChunk) : list Z :=
  chunk_r c ++ chunk_s c ++ [chunk_v c].

Lemma chunk_bytes_length (c : CoordinatorChunk) :
  wf_chunk c -> len (chunk_bytes c) = L1CoordinatorTxBytesLen.
Proof.
  intros [Hs Hr Hb Ht]. unfold chunk_bytes, len.
  rewrite !length_app, Hs, Hr, Hb, Ht. reflexivity.
Qed.

Lemma L1Coordinator_signature_chunk (c : CoordinatorChunk) :
  wf_chunk c -> L1Coordinator_signature (chunk_bytes c) = Ok (chunk_signature c).
Proof.
  intros [Hs Hr Hb Ht]. unfold L1Coordinator_signature, chunk_bytes.
  erewrite (index_at _ [] _ (chunk_v c) 0); [|reflexivity..]. cbn [bind].
  erewrite (slice_at _ [chunk_v c] (chunk_s c)); cycle 1.
  { reflexivity. }
  { reflexivity. }
  { unfold len. rewrite Hs. reflexivity. }
  cbn [bind].
  erewrite (slice_at _ ([chunk_v c] ++ chunk_s c) (chunk_r c)); cycle 1.
  { rewrite <- app_assoc. reflexivity. }
  { unfold len. rewrite length_app, Hs. reflexivity. }
  { unfold len. rewrite Hr. reflexivity. }
  cbn [bind app]. unfold chunk_signature. rewrite <- app_assoc. reflexivity.
Qed.

Section RollupClientProofs.

Variable L1CoordinatorTxFromBytes : list Z -> result L1Tx.

Lemma concat_chunks_len (done : list (list Z)) :
  Forall (fun b => len b = L1CoordinatorTxBytesLen) done ->
  len (concat done) = Z.of_nat (length done) * L1CoordinatorTxBytesLen.
Proof.
  induction 1 as [|b done Hb _ IH]; [reflexivity|].
  cbn [concat length]. rewrite len_app, IH, Hb. lia.
Qed.

Lemma RollupForgeBatchArgs_loopL1_chunks
  (txof : CoordinatorChunk -> L1Tx) (rest : list Z)
  (todo : list CoordinatorChunk) :
  Forall wf_chunk todo ->
  (forall c, In c todo -> L1CoordinatorTxFromBytes (chunk_bytes c) = Ok (txof c)) ->
  forall (done : list (list Z)) (txs : list L1Tx) (auths : list (list Z)),
    Forall (fun b => len b = L1CoordinatorTxBytesLen) done ->
    RollupForgeBatchArgs_loopL1 L1CoordinatorTxFromBytes
      (length todo) (Z.of_nat (length done))
      (concat done ++ concat (map chunk_bytes todo) ++ rest) txs auths
    = Ok (txs ++ map txof todo, auths ++ map chunk_signature todo).
Proof.
  intros Hwf. induction Hwf as [|c todo Hc _ IH]; intros Htx done txs auths Hdone.
  - cbn. rewrite !app_nil_r. reflexivity.
  - cbn [length map concat RollupForgeBatchArgs_loopL1].
    rewrite <- app_assoc.
    erewrite (slice_at _ (concat done) (chunk_bytes c)); cycle 1.
    { reflexivity. }
    { rewrite concat_chunks_len by exact Hdone. reflexivity. }
    { rewrite chunk_bytes_length by exact Hc. lia. }
    cbn [bind]. rewrite (L1Coordinator_signature_chunk c Hc). cbn [bind].
    rewrite (Htx c (or_introl eq_refl)). cbn [bind].
    specialize (IH (fun c' H => Htx c' (or_intror H))
                  (done ++ [chunk_bytes c]) (txs ++ [txof c])
                  (auths ++ [chunk_signature c])).
    rewrite length_app, concat_app in IH. cbn [length concat] in IH.
    rewrite app_nil_r, <- !app_assoc in IH.
    replace (Z.of_nat (length done + 1)) with (Z.of_nat (length done) + 1)
      in IH by lia.
    rewrite IH.
    + cbn [app]. reflexivity.
    + apply Forall_app. split; [exact Hdone|].
      constructor; [apply chunk_bytes_length; exact Hc | constructor].
Qed.

End RollupClientProofs.

(** C3, as amended.  [RollupForgeBatchArgs] splits the encoded L1
    coordinator transactions into chunks of 101 bytes, ignoring an
    incomplete last chunk; it reads each chunk as
    [v(1) | s(32) | r(32) | FromBJJcompressed(32) | TokenID(4)], hands the
    whole chunk to [L1CoordinatorTxFromBytes], and rebuilds the compact
    signature as [r | s | v]. *)
Theorem RollupForgeBatchArgs_L1CoordinatorTxs_spec
  (L1CoordinatorTxFromBytes : list Z -> result L1Tx)
  (txof : CoordinatorChunk -> L1Tx)
  (chunks : list CoordinatorChunk) (rest : list Z) :
  Forall wf_chunk chunks ->
  len rest < 101 ->
  (forall c, In c chunks ->
     L1CoordinatorTxFromBytes (chunk_bytes c) = Ok (txof c)) ->
  Forall (fun c => len (chunk_bytes c) = 101) chunks
  /\ RollupForgeBatchArgs_L1CoordinatorTxs L1CoordinatorTxFromBytes
       (concat (map chunk_bytes chunks) ++ rest)
     = Ok (map txof chunks,
           map (fun c => chunk_r c ++ chunk_s c ++ [chunk_v c]) chunks).
Proof.
  intros Hwf Hrest Htx. split.
  - eapply Forall_impl; [|exact Hwf]. intros c Hc.
    apply chunk_bytes_length. exact Hc.
  - unfold RollupForgeBatchArgs_L1CoordinatorTxs.
    assert (Hlen : len (concat (map chunk_bytes chunks) ++ rest)
                   / L1CoordinatorTxBytesLen = Z.of_nat (length chunks)).
    { rewrite len_app, concat_chunks_len.
      - rewrite length_map, Z.add_comm, Z.div_add by discriminate.
        pose proof (len_nonneg rest).
        rewrite Z.div_small by (unfold L1CoordinatorTxBytesLen,
                                  RollupConstL1CoordinatorTotalBytes; lia).
        reflexivity.
      - apply Forall_map. eapply Forall_impl; [|exact Hwf].
        intros c Hc. apply chunk_bytes_length. exact Hc. }
    rewrite Hlen, Nat2Z.id.
    apply (RollupForgeBatchArgs_loopL1_chunks L1CoordinatorTxFromBytes
             txof rest chunks Hwf Htx [] [] []).
    constructor.
Qed.

(** A coordinator transaction and a compact signature whose [r] is 32
    bytes 1, whose [s] is 32 bytes 2 and whose [v] is 27. *)
Definition l1tx_coord : L1Tx :=
  {| ToForgeL1TxsNum := None; Position := 0; UserOrigin := false;
     FromIdx := None; FromEthAddr := 0; FromBJJ := repeat 7 32; ToIdx := 0;
     TokenID := 5; Amount := 0; LoadAmount := 0 |}.

Definition sig_rsv : list Z := repeat 1 32 ++ repeat 2 32 ++ [27].

Definition chunk_vsr : CoordinatorChunk :=
  {| chunk_v := 27; chunk_s := repeat 2 32; chunk_r := repeat 1 32;
     chunk_bjj := repeat 7 32; chunk_tokenID := [0; 0; 0; 5] |}.

(** The transaction and the signature above in the layout
    [v | r | s | FromBJJcompressed | TokenID]. *)
Definition blob_vrs : list Z :=
  [27] ++ repeat 1 32 ++ repeat 2 32 ++ repeat 7 32 ++ [0; 0; 0; 5].

(** A decoder that reads the two trailing fields of a chunk, to run the
    definitions on concrete chunks. *)
Definition L1CoordinatorTxFromBytes_stub (b : list Z) : result L1Tx :=
  bjj <- slice b 65 97 ;;
  tok <- slice b 97 101 ;;
  Ok {| ToForgeL1TxsNum := None; Position := 0; UserOrigin := false;
        FromIdx := None; FromEthAddr := 0; FromBJJ := bjj; ToIdx := 0;
        TokenID := be_value tok; Amount := 0; LoadAmount := 0 |}.

Lemma RollupForgeBatchArgs_L1CoordinatorTxs_spec_witness :
  Forall (fun c => len (chunk_bytes c) = 101) [chunk_vsr; chunk_vsr]
  /\ RollupForgeBatchArgs_L1CoordinatorTxs L1CoordinatorTxFromBytes_stub
       (concat (map chunk_bytes [chunk_vsr; chunk_vsr]) ++ [9; 9; 9])
     = Ok (map (fun _ => l1tx_coord) [chunk_vsr; chunk_vsr],
           map (fun c => chunk_r c ++ chunk_s c ++ [chunk_v c])
             [chunk_vsr; chunk_vsr]).
Proof.
  apply (RollupForgeBatchArgs_L1CoordinatorTxs_spec
           L1CoordinatorTxFromBytes_stub (fun _ => l1tx_coord)
           [chunk_vsr; chunk_vsr] [9; 9; 9]).
  - repeat constructor.
  - vm_compute. reflexivity.
  - intros c [<-|[<-|[]]]; vm_compute; reflexivity.
Defined.

(** C3 as stated fails: written in the layout [v | r | s | ...] that the
    claim gives, a transaction is 101 bytes long, but the signature that
    [RollupForgeBatchArgs] rebuilds from it is [s | r | v], not the
    signature [r | s | v] that was encoded. *)
Lemma RollupForgeBatchArgs_L1CoordinatorTxs_counterexample :
  BytesCoordinatorTx_spec l1tx_coord sig_rsv = Ok blob_vrs
  /\ len blob_vrs = 101
  /\ RollupForgeBatchArgs_L1CoordinatorTxs L1CoordinatorTxFromBytes_stub
       blob_vrs
     = Ok ([l1tx_coord], [repeat 2 32 ++ repeat 1 32 ++ [27]])
  /\ repeat 2 32 ++ repeat 1 32 ++ [27] <> sig_rsv.
Proof.
  split; [vm_compute; reflexivity|].
  split; [reflexivity|]. split; [vm_compute; reflexivity|].
  vm_compute. discriminate.
Qed.

(** ** The fee indexes of a forged batch *)

(** [RollupConstMaxFeeIdxCoordinator] is the maximum number of tokens the
    coordinator can use to collect fees. *)
Definition RollupConstMaxFeeIdxCoordinator : Z := 64.

(** The loop [for i := 0; i < RollupConstMaxFeeIdxCoordinator; i++] of
    [RollupForgeBatch]; [n] counts the iterations that remain. *)
Fixpoint RollupForgeBatch_loopFeeIdx
  (n : nat) (i lenBytes : Z) (FeeIdxCoordinator : list Z)
  (feeIdxCoordinator : list Z) : result (list Z) :=
  match n with
  | O => Ok feeIdxCoordinator
  | S n' =>
      let feeIdx := 0 in
      let feeIdx :=
        if i <? len FeeIdxCoordinator
        then nth (Z.to_nat i) FeeIdxCoordinator 0 else feeIdx in
      bytesFeeIdx <- Common.Idx_Bytes feeIdx ;;
      src <- slice_from bytesFeeIdx (len bytesFeeIdx - lenBytes) ;;
      RollupForgeBatch_loopFeeIdx n' (i + 1) lenBytes FeeIdxCoordinator
        (feeIdxCoordinator ++ src)
  end.

(** The part of [RollupForgeBatch] that encodes [args.FeeIdxCoordinator]
    into the bytes handed to the contract.  [nLevels] is an [int64], whose
    division truncates. *)
Definition RollupForgeBatch_FeeIdxCoordinator
  (nLevels : Z) (FeeIdxCoordinator : list Z) : result (list Z) :=
  let lenBytes := Z.quot nLevels 8 in
  let feeIdxCoordinator := [] in
  if len FeeIdxCoordinator >? RollupConstMaxFeeIdxCoordinator
  then Err (ErrMsg "len(args.FeeIdxCoordinator) > 64")
  else
    RollupForgeBatch_loopFeeIdx (Z.to_nat RollupConstMaxFeeIdxCoordinator) 0
      lenBytes FeeIdxCoordinator feeIdxCoordinator.

(** The loop [for i := 0; i < numFeeIdxCoordinator; i++] of
    [RollupForgeBatchArgs]; [n] counts the iterations that remain. *)
Fixpoint RollupForgeBatchArgs_loopFeeIdx
  (n : nat) (i lenFeeIdxCoordinatorBytes : Z) (aux_FeeIdxCoordinator : list Z)
  (FeeIdxCoordinator : list Z) : result (list Z) :=
  match n with
  | O => Ok FeeIdxCoordinator
  | S n' =>
      let paddedFeeIdx := repeat 0 6 in
      chunk <- slice aux_FeeIdxCoordinator (i * lenFeeIdxCoordinatorBytes)
                 ((i + 1) * lenFeeIdxCoordinatorBytes) ;;
      paddedFeeIdx <-
        (if lenFeeIdxCoordinatorBytes <? Common.IdxBytesLen
         then copy_into paddedFeeIdx (6 - lenFeeIdxCoordinatorBytes) 6 chunk
         else copy_into paddedFeeIdx 0 6 chunk) ;;
      feeIdxCoordinator <- Common.IdxFromBytes paddedFeeIdx ;;
      RollupForgeBatchArgs_loopFeeIdx n' (i + 1) lenFeeIdxCoordinatorBytes
        aux_FeeIdxCoordinator
        (if negb (feeIdxCoordinator =? 0)
         then FeeIdxCoordinator ++ [feeIdxCoordinator]
         else FeeIdxCoordinator)
  end.

(** The part of [RollupForgeBatchArgs] that decodes [aux.FeeIdxCoordinator]
    into [FeeIdxCoordinator].  The division by a zero length panics. *)
Definition RollupForgeBatchArgs_FeeIdxCoordinator
  (nLevels : Z) (aux_FeeIdxCoordinator : list Z) : result (list Z) :=
  let lenFeeIdxCoordinatorBytes := Z.quot nLevels 8 in
  if lenFeeIdxCoordinatorBytes =? 0 then Panic
  else
    let numFeeIdxCoordinator :=
      Z.quot (len aux_FeeIdxCoordinator) lenFeeIdxCoordinatorBytes in
    RollupForgeBatchArgs_loopFeeIdx (Z.to_nat numFeeIdxCoordinator) 0
      lenFeeIdxCoordinatorBytes aux_FeeIdxCoordinator [].

(** The indexes that are not [Idx(0)]. *)
Definition nonzero (idxs : list Z) : list Z :=
  filter (fun idx => negb (idx =? 0)) idxs.

Lemma nth_pad (l : list Z) (n : nat) :
  (length l <= n)%nat ->
  map (fun j => nth j l 0) (seq 0 n) = l ++ repeat 0 (n - length l).
Proof.
  revert n. induction l as [|a l IH]; intros n Hn.
  - rewrite Nat.sub_0_r. cbn [app length].
    clear Hn. generalize 0%nat as s.
    induction n as [|n IHn]; intros s; [reflexivity|].
    cbn [seq map repeat]. rewrite IHn. destruct s; reflexivity.
  - destruct n as [|n]; [cbn [length] in Hn; lia|].
    cbn [seq map nth length app]. rewrite <- seq_shift, map_map.
    cbn [nth]. rewrite IH by (cbn [length] in Hn; lia).
    reflexivity.
Qed.

Lemma concat_be_bytes_len (k : nat) (vals : list Z) :
  len (concat (map (be_bytes k) vals)) = Z.of_nat (length vals) * Z.of_nat k.
Proof.
  induction vals as [|v vals IH]; [reflexivity|].
  cbn [map concat length]. rewrite len_app, IH, len_be_bytes. lia.
Qed.

Lemma nonzero_app (a b : list Z) : nonzero (a ++ b) = nonzero a ++ nonzero b.
Proof. apply filter_app. Qed.

Lemma nonzero_repeat0 (n : nat) : nonzero (repeat 0 n) = [].
Proof. induction n; [reflexivity | exact IHn]. Qed.

Lemma RollupForgeBatch_loopFeeIdx_Ok (k : nat) (idxs : list Z) :
  (k <= 6)%nat ->
  Forall (fun idx => idx <= Common.maxIdxValue) idxs ->
  forall (n i : nat) (acc : list Z),
    RollupForgeBatch_loopFeeIdx n (Z.of_nat i) (Z.of_nat k) idxs acc
    = Ok (acc ++ concat (map (fun j => be_bytes k (nth j idxs 0)) (seq i n))).
Proof.
  intros Hk Hmax. induction n as [|n IH]; intros i acc.
  - cbn. rewrite app_nil_r. reflexivity.
  - cbn [RollupForgeBatch_loopFeeIdx seq map concat].
    rewrite Nat2Z.id.
    assert (Hidx : (if Z.of_nat i <? len idxs then nth i idxs 0 else 0)
                   = nth i idxs 0).
    { unfold len. destruct (Z.ltb_spec (Z.of_nat i) (Z.of_nat (length idxs)));
        [reflexivity|]. symmetry. apply nth_overflow. lia. }
    rewrite Hidx.
    assert (Hle : nth i idxs 0 <= Common.maxIdxValue).
    { destruct (Nat.lt_ge_cases i (length idxs)) as [Hi|Hi].
      - rewrite Forall_forall in Hmax. apply Hmax, nth_In, Hi.
      - rewrite nth_overflow by exact Hi. unfold Common.maxIdxValue. lia. }
    unfold Common.Idx_Bytes.
    replace (nth i idxs 0 >? Common.maxIdxValue) with false
      by (symmetry; lia).
    cbn [bind]. rewrite len_be_bytes.
    replace (Z.of_nat 6 - Z.of_nat k) with (Z.of_nat (6 - k)) by lia.
    rewrite slice_from_skipn by (rewrite be_bytes_length; lia).
    replace 6%nat with ((6 - k) + k)%nat at 2 by lia.
    rewrite be_bytes_low. cbn [bind].
    replace (Z.of_nat i + 1) with (Z.of_nat (S i)) by lia.
    rewrite IH, <- app_assoc. reflexivity.
Qed.

Lemma RollupForgeBatchArgs_loopFeeIdx_Ok
  (k : nat) (rest : list Z) (todo : list Z) :
  (1 <= k <= 6)%nat ->
  Forall (fun v => 0 <= v) todo ->
  forall (done : list Z) (acc : list Z),
    RollupForgeBatchArgs_loopFeeIdx (length todo) (Z.of_nat (length done))
      (Z.of_nat k)
      (concat (map (be_bytes k) done) ++ concat (map (be_bytes k) todo) ++ rest)
      acc
    = Ok (acc ++ nonzero (map (fun v => v mod 256 ^ Z.of_nat k) todo)).
Proof.
  intros Hk Hpos. induction Hpos as [|v todo Hv _ IH]; intros done acc.
  - cbn. rewrite app_nil_r. reflexivity.
  - cbn [length map concat RollupForgeBatchArgs_loopFeeIdx].
    rewrite <- app_assoc.
    erewrite (slice_at _ (concat (map (be_bytes k) done)) (be_bytes k v));
      cycle 1.
    { reflexivity. }
    { rewrite concat_be_bytes_len. reflexivity. }
    { rewrite len_be_bytes. lia. }
    cbn [bind].
    assert (Hpad :
      (if Z.of_nat k <? Common.IdxBytesLen
       then copy_into (repeat 0 6) (6 - Z.of_nat k) 6 (be_bytes k v)
       else copy_into (repeat 0 6) 0 6 (be_bytes k v))
      = Ok (repeat 0 (6 - k) ++ be_bytes k v)).
    { unfold Common.IdxBytesLen.
      destruct (Z.ltb_spec (Z.of_nat k) 6) as [Hlt|Hge].
      - erewrite (copy_into_at _ (repeat 0 (6 - k)) (repeat 0 k) []);
          cycle 1.
        { rewrite app_nil_r, <- repeat_app. f_equal. lia. }
        { rewrite len_repeat. lia. }
        { rewrite len_repeat. lia. }
        { rewrite be_bytes_length, repeat_length. reflexivity. }
        rewrite app_nil_r. reflexivity.
      - assert (k = 6)%nat as -> by lia.
        erewrite (copy_into_at _ [] (repeat 0 6) []); cycle 1.
        { reflexivity. }
        { reflexivity. }
        { reflexivity. }
        { rewrite be_bytes_length. reflexivity. }
        rewrite app_nil_r. reflexivity. }
    rewrite Hpad. cbn [bind].
    unfold Common.IdxFromBytes.
    replace (len (repeat 0 (6 - k) ++ be_bytes k v) =? Common.IdxBytesLen)
      with true
      by (symmetry; apply Z.eqb_eq;
          rewrite len_app, len_repeat, len_be_bytes;
          unfold Common.IdxBytesLen; lia).
    cbn [bind].
    rewrite be_value_app, be_value_repeat0, be_value_be_bytes by exact Hv.
    rewrite Z.mul_0_l, Z.add_0_l.
    specialize (IH (done ++ [v])
                  (if negb (v mod 256 ^ Z.of_nat k =? 0)
                   then acc ++ [v mod 256 ^ Z.of_nat k] else acc)).
    rewrite length_app, map_app, concat_app in IH.
    cbn [length map concat] in IH.
    rewrite app_nil_r, <- !app_assoc in IH.
    replace (Z.of_nat (length done + 1)) with (Z.of_nat (length done) + 1)
      in IH by lia.
    rewrite IH. unfold nonzero. cbn [filter].
    destruct (negb (v mod 256 ^ Z.of_nat k =? 0));
      [rewrite <- app_assoc|]; reflexivity.
Qed.

(** What [RollupForgeBatchArgs] reads back from the fee indexes that
    [RollupForgeBatch] was given, on [k] bytes each. *)
Lemma FeeIdxCoordinator_codec (k : nat) (idxs : list Z) :
  (1 <= k <= 6)%nat ->
  len idxs <= RollupConstMaxFeeIdxCoordinator ->
  Forall (fun idx => 0 <= idx <= Common.maxIdxValue) idxs ->
  forall nLevels, Z.quot nLevels 8 = Z.of_nat k ->
  exists bs,
    RollupForgeBatch_FeeIdxCoordinator nLevels idxs = Ok bs
    /\ len bs = RollupConstMaxFeeIdxCoordinator * Z.of_nat k
    /\ RollupForgeBatchArgs_FeeIdxCoordinator nLevels bs
       = Ok (nonzero (map (fun idx => idx mod 256 ^ Z.of_nat k) idxs)).
Proof.
  intros Hk Hlen Hidx nLevels Hq.
  unfold RollupConstMaxFeeIdxCoordinator in *.
  set (vals := idxs ++ repeat 0 (64 - length idxs)).
  assert (Hvals : length vals = 64%nat).
  { subst vals. rewrite length_app, repeat_length. unfold len in Hlen. lia. }
  exists (concat (map (be_bytes k) vals)).
  split; [|split].
  - unfold RollupForgeBatch_FeeIdxCoordinator. rewrite Hq.
    unfold RollupConstMaxFeeIdxCoordinator.
    replace (len idxs >? 64) with false by (symmetry; lia).
    rewrite (RollupForgeBatch_loopFeeIdx_Ok k idxs) with (i := 0%nat);
      [| lia | eapply Forall_impl; [|exact Hidx]; cbn; intros; lia].
    cbn [app]. rewrite <- (map_map (fun j => nth j idxs 0) (be_bytes k)).
    change (Z.to_nat 64) with 64%nat.
    rewrite nth_pad by (unfold len in Hlen; lia). reflexivity.
  - rewrite concat_be_bytes_len, Hvals. reflexivity.
  - unfold RollupForgeBatchArgs_FeeIdxCoordinator. rewrite Hq.
    replace (Z.of_nat k =? 0) with false by (symmetry; lia).
    rewrite concat_be_bytes_len, Hvals, Z.quot_mul by lia.
    replace (Z.to_nat (Z.of_nat 64)) with (length vals)
      by (rewrite Hvals; reflexivity).
    rewrite <- (app_nil_r (concat (map (be_bytes k) vals))).
    rewrite (RollupForgeBatchArgs_loopFeeIdx_Ok k [] vals Hk) with (done := []).
    + cbn [app]. subst vals.
      rewrite map_app, nonzero_app, map_repeat.
      rewrite Z.mod_0_l by lia.
      rewrite nonzero_repeat0, app_nil_r. reflexivity.
    + subst vals. apply Forall_app. split.
      * eapply Forall_impl; [|exact Hidx]. cbn. intros; lia.
      * apply Forall_forall. intros x Hx. apply repeat_spec in Hx. lia.
Qed.

Lemma concat_nil (A B : Type) (l : list A) :
  concat (map (fun _ : A => @nil B) l) = [].
Proof. induction l; [reflexivity | exact IHl]. Qed.

(** X4.  Fee indexes survive a forged batch up to the zero entries.  For
    [nLevels] from 8 to 55 and at most 64 indexes that fit the type,
    [RollupForgeBatch] writes [64 * (nLevels / 8)] bytes, and what
    [RollupForgeBatchArgs] reads back from them is the given indexes
    reduced modulo [2 ^ (8 * (nLevels / 8))], without those that become 0:
    the given indexes that are not 0 when each of them is below that
    bound. *)
Theorem FeeIdxCoordinator_roundtrip (nLevels : Z) (idxs : list Z) :
  8 <= nLevels < 56 ->
  len idxs <= RollupConstMaxFeeIdxCoordinator ->
  Forall (fun idx => 0 <= idx <= Common.maxIdxValue) idxs ->
  exists bs,
    RollupForgeBatch_FeeIdxCoordinator nLevels idxs = Ok bs
    /\ len bs = RollupConstMaxFeeIdxCoordinator * (nLevels / 8)
    /\ RollupForgeBatchArgs_FeeIdxCoordinator nLevels bs
       = Ok (nonzero (map (fun idx => idx mod 2 ^ (8 * (nLevels / 8))) idxs))
    /\ (Forall (fun idx => idx < 2 ^ (8 * (nLevels / 8))) idxs ->
        RollupForgeBatchArgs_FeeIdxCoordinator nLevels bs
        = Ok (nonzero idxs)).
Proof.
  intros Hn Hlen Hidx.
  assert (Hq : Z.quot nLevels 8 = nLevels / 8)
    by (apply Z.quot_div_nonneg; lia).
  assert (Hlo : 1 <= nLevels / 8)
    by (change 1 with (8 / 8); apply Z.div_le_mono; lia).
  assert (Hhi : nLevels / 8 <= 6)
    by (change 6 with (55 / 8); apply Z.div_le_mono; lia).
  set (k := Z.to_nat (nLevels / 8)).
  assert (Hk : Z.of_nat k = nLevels / 8) by (subst k; lia).
  destruct (FeeIdxCoordinator_codec k idxs ltac:(lia) Hlen Hidx nLevels
              ltac:(lia)) as (bs & Henc & Hbs & Hdec).
  assert (Hpow : 2 ^ (8 * (nLevels / 8)) = 256 ^ Z.of_nat k).
  { rewrite Hk, Z.pow_mul_r by lia. reflexivity. }
  exists bs. rewrite Hpow, <- Hk.
  split; [exact Henc|]. split; [exact Hbs|]. split; [exact Hdec|].
  intros Hfit. rewrite Hdec. do 2 f_equal.
  rewrite <- (map_id idxs) at 2. apply map_ext_in.
  intros idx Hin. rewrite Forall_forall in Hidx, Hfit.
  apply Z.mod_small. split; [apply Hidx, Hin | apply Hfit, Hin].
Qed.

(** X5.  Outside that range of [nLevels] the two functions do not agree.
    For [nLevels] below 8 [RollupForgeBatch] writes no byte at all,
    whatever the indexes, and [RollupForgeBatchArgs] panics on the
    division by the chunk length 0, whatever the bytes.  For [nLevels] of
    56 or more [RollupForgeBatch] panics, slicing the 6 bytes of an index
    from a negative offset. *)
Theorem FeeIdxCoordinator_nLevels_out_of_range (nLevels : Z) (idxs : list Z) :
  len idxs <= RollupConstMaxFeeIdxCoordinator ->
  Forall (fun idx => 0 <= idx <= Common.maxIdxValue) idxs ->
  (0 <= nLevels < 8 ->
   RollupForgeBatch_FeeIdxCoordinator nLevels idxs = Ok []
   /\ forall bs, RollupForgeBatchArgs_FeeIdxCoordinator nLevels bs = Panic)
  /\ (56 <= nLevels ->
      RollupForgeBatch_FeeIdxCoordinator nLevels idxs = Panic).
Proof.
  intros Hlen Hidx.
  assert (Hmax : Forall (fun idx => idx <= Common.maxIdxValue) idxs)
    by (eapply Forall_impl; [|exact Hidx]; cbn; intros; lia).
  unfold RollupConstMaxFeeIdxCoordinator in *. split.
  - intros Hn.
    assert (Hq : Z.quot nLevels 8 = 0) by (apply Z.quot_small; lia).
    split.
    + unfold RollupForgeBatch_FeeIdxCoordinator. rewrite Hq.
      unfold RollupConstMaxFeeIdxCoordinator.
      replace (len idxs >? 64) with false by (symmetry; lia).
      pose proof (RollupForgeBatch_loopFeeIdx_Ok 0 idxs ltac:(lia) Hmax
                    (Z.to_nat 64) 0%nat []) as Hloop.
      change (Z.of_nat 0) with 0 in Hloop. rewrite Hloop.
      cbn [app be_bytes]. rewrite concat_nil. reflexivity.
    + intros bs. unfold RollupForgeBatchArgs_FeeIdxCoordinator.
      rewrite Hq. reflexivity.
  - intros Hn.
    assert (Hq : 7 <= Z.quot nLevels 8).
    { rewrite Z.quot_div_nonneg by lia.
      change 7 with (56 / 8). apply Z.div_le_mono; lia. }
    unfold RollupForgeBatch_FeeIdxCoordinator.
    unfold RollupConstMaxFeeIdxCoordinator.
    replace (len idxs >? 64) with false by (symmetry; lia).
    change (Z.to_nat 64) with (S 63).
    cbn [RollupForgeBatch_loopFeeIdx].
    assert (Hle : (if 0 <? len idxs then nth (Z.to_nat 0) idxs 0 else 0)
                  <= Common.maxIdxValue).
    { destruct (0 <? len idxs); [|unfold Common.maxIdxValue; lia].
      destruct idxs as [|a l]; [unfold Common.maxIdxValue; cbn; lia|].
      inversion Hmax; subst. assumption. }
    unfold Common.Idx_Bytes.
    destruct (Z.gtb_spec
                (if 0 <? len idxs then nth (Z.to_nat 0) idxs 0 else 0)
                Common.maxIdxValue) as [Hgt|_]; [lia|].
    cbn [bind]. rewrite len_be_bytes.
    unfold slice_from, slice. rewrite len_be_bytes.
    generalize dependent (Z.quot nLevels 8). intros q Hq.
    destruct (Z.leb_spec 0 (Z.of_nat 6 - q)); [lia | reflexivity].
Qed.

Lemma FeeIdxCoordinator_roundtrip_witness :
  exists bs,
    RollupForgeBatch_FeeIdxCoordinator 16 [300; 0; 65536 + 7; 65536] = Ok bs
    /\ len bs = RollupConstMaxFeeIdxCoordinator * (16 / 8)
    /\ RollupForgeBatchArgs_FeeIdxCoordinator 16 bs
       = Ok (nonzero (map (fun idx => idx mod 2 ^ (8 * (16 / 8)))
                        [300; 0; 65536 + 7; 65536]))
    /\ (Forall (fun idx => idx < 2 ^ (8 * (16 / 8)))
          [300; 0; 65536 + 7; 65536] ->
        RollupForgeBatchArgs_FeeIdxCoordinator 16 bs
        = Ok (nonzero [300; 0; 65536 + 7; 65536])).
Proof.
  apply (FeeIdxCoordinator_roundtrip 16 [300; 0; 65536 + 7; 65536]).
  - lia.
  - vm_compute. discriminate.
  - repeat constructor; vm_compute; discriminate.
Defined.

Lemma FeeIdxCoordinator_nLevels_out_of_range_witness :
  (RollupForgeBatch_FeeIdxCoordinator 4 [300; 7] = Ok []
   /\ forall bs, RollupForgeBatchArgs_FeeIdxCoordinator 4 bs = Panic)
  /\ RollupForgeBatch_FeeIdxCoordinator 60 [300; 7] = Panic.
Proof.
  split.
  - apply (FeeIdxCoordinator_nLevels_out_of_range 4 [300; 7]).
    + vm_compute. discriminate.
    + repeat constructor; vm_compute; discriminate.
    + lia.
  - apply (FeeIdxCoordinator_nLevels_out_of_range 60 [300; 7]).
    + vm_compute. discriminate.
    + repeat constructor; vm_compute; discriminate.
    + lia.
Defined.

(** ** The L2 transactions of a forged batch *)

Section L2TxsData.

(** [L2Tx.Bytes] and [common.L2TxFromBytes]: the codec of one L2
    transaction for a number of levels. *)
Variable L2Tx_Bytes : Common.L2Tx -> Z -> result (list Z).
Variable L2TxFromBytes : list Z -> Z -> result Common.L2Tx.

(** The loop [for i := 0; i < len(args.L2TxsData); i++] of
    [RollupForgeBatch]. *)
Fixpoint RollupForgeBatch_loopL2
  (L2TxsData : list Common.L2Tx) (nLevels : Z) (l2DataBytes : list Z)
  : result (list Z) :=
  match L2TxsData with
  | [] => Ok l2DataBytes
  | l2 :: L2TxsData' =>
      bytesl2 <- L2Tx_Bytes l2 nLevels ;;
      RollupForgeBatch_loopL2 L2TxsData' nLevels (l2DataBytes ++ bytesl2)
  end.

(** The part of [RollupForgeBatch] that encodes [args.L2TxsData]. *)
Definition RollupForgeBatch_L2TxsData
  (nLevels : Z) (L2TxsData : list Common.L2Tx) : result (list Z) :=
  RollupForgeBatch_loopL2 L2TxsData nLevels [].

(** The loop [for i := 0; i < numTxsL2; i++] of [RollupForgeBatchArgs];
    [n] counts the iterations that remain. *)
Fixpoint RollupForgeBatchArgs_loopL2
  (n : nat) (i lenL2TxsBytes nLevels : Z) (aux_L2TxsData : list Z)
  (L2TxsData : list Common.L2Tx) : result (list Common.L2Tx) :=
  match n with
  | O => Ok L2TxsData
  | S n' =>
      chunk <- slice aux_L2TxsData (i * lenL2TxsBytes)
                 ((i + 1) * lenL2TxsBytes) ;;
      l2Tx <- L2TxFromBytes chunk nLevels ;;
      RollupForgeBatchArgs_loopL2 n' (i + 1) lenL2TxsBytes nLevels
        aux_L2TxsData (L2TxsData ++ [l2Tx])
  end.

(** The part of [RollupForgeBatchArgs] that decodes [aux.L2TxsData]. *)
Definition RollupForgeBatchArgs_L2TxsData
  (nLevels : Z) (aux_L2TxsData : list Z) : result (list Common.L2Tx) :=
  let lenL2TxsBytes := Z.quot nLevels 8 * 2 + 2 + 1 in
  if lenL2TxsBytes =? 0 then Panic
  else
    let numTxsL2 := Z.quot (len aux_L2TxsData) lenL2TxsBytes in
    RollupForgeBatchArgs_loopL2 (Z.to_nat numTxsL2) 0 lenL2TxsBytes nLevels
      aux_L2TxsData [].

Lemma RollupForgeBatch_loopL2_Ok
  (nLevels : Z) (bytes_of : Common.L2Tx -> list Z) (txs : list Common.L2Tx) :
  (forall tx, In tx txs -> L2Tx_Bytes tx nLevels = Ok (bytes_of tx)) ->
  forall acc,
    RollupForgeBatch_loopL2 txs nLevels acc
    = Ok (acc ++ concat (map bytes_of txs)).
Proof.
  induction txs as [|tx txs IH]; intros Hb acc.
  - cbn. rewrite app_nil_r. reflexivity.
  - cbn [RollupForgeBatch_loopL2 map concat].
    rewrite (Hb tx (or_introl eq_refl)). cbn [bind].
    rewrite IH by (intros tx' H; apply Hb; right; exact H).
    rewrite <- app_assoc. reflexivity.
Qed.

Lemma concat_L2_len
  (l : Z) (bytes_of : Common.L2Tx -> list Z) (txs : list Common.L2Tx) :
  (forall tx, In tx txs -> len (bytes_of tx) = l) ->
  len (concat (map bytes_of txs)) = Z.of_nat (length txs) * l.
Proof.
  induction txs as [|tx txs IH]; intros Hl; [reflexivity|].
  cbn [map concat length]. rewrite len_app, IH, (Hl tx (or_introl eq_refl)).
  - lia.
  - intros tx' H. apply Hl. right. exact H.
Qed.

Lemma RollupForgeBatchArgs_loopL2_Ok
  (nLevels l : Z) (bytes_of : Common.L2Tx -> list Z)
  (back : Common.L2Tx -> Common.L2Tx) (rest : list Z)
  (todo : list Common.L2Tx) :
  (forall tx, In tx todo ->
     len (bytes_of tx) = l
     /\ L2TxFromBytes (bytes_of tx) nLevels = Ok (back tx)) ->
  forall (done : list Common.L2Tx) (acc : list Common.L2Tx),
    (forall tx, In tx done -> len (bytes_of tx) = l) ->
    RollupForgeBatchArgs_loopL2 (length todo) (Z.of_nat (length done)) l
      nLevels
      (concat (map bytes_of done) ++ concat (map bytes_of todo) ++ rest) acc
    = Ok (acc ++ map back todo).
Proof.
  induction todo as [|tx todo IH]; intros Htodo done acc Hdone.
  - cbn. rewrite app_nil_r. reflexivity.
  - cbn [length map concat RollupForgeBatchArgs_loopL2].
    destruct (Htodo tx (or_introl eq_refl)) as [Hl Hback].
    rewrite <- app_assoc.
    erewrite (slice_at _ (concat (map bytes_of done)) (bytes_of tx));
      cycle 1.
    { reflexivity. }
    { rewrite (concat_L2_len l) by exact Hdone. reflexivity. }
    { rewrite Hl. lia. }
    cbn [bind]. rewrite Hback. cbn [bind].
    specialize (IH (fun tx' H => Htodo tx' (or_intror H))
                  (done ++ [tx]) (acc ++ [back tx])).
    rewrite length_app, map_app, concat_app in IH.
    cbn [length map concat] in IH.
    rewrite app_nil_r, <- !app_assoc in IH.
    replace (Z.of_nat (length done + 1)) with (Z.of_nat (length done) + 1)
      in IH by lia.
    rewrite IH.
    + cbn [app]. reflexivity.
    + intros tx' H. apply in_app_or in H. destruct H as [H|[<-|[]]].
      * apply Hdone, H.
      * exact Hl.
Qed.

(** X6.  The L2 transactions of a forged batch are read back in order.
    When each of the transactions is encoded for [nLevels] on
    [2 * (nLevels / 8) + 3] bytes and decoded from them,
    [RollupForgeBatch] writes the encodings one after the other, and
    [RollupForgeBatchArgs] reads from these bytes, followed or not by less
    than one more chunk, the decoded transactions in the same order. *)
Theorem L2TxsData_roundtrip
  (nLevels : Z) (bytes_of : Common.L2Tx -> list Z)
  (back : Common.L2Tx -> Common.L2Tx)
  (txs : list Common.L2Tx) (rest : list Z) :
  0 <= nLevels ->
  (forall tx, In tx txs ->
     L2Tx_Bytes tx nLevels = Ok (bytes_of tx)
     /\ len (bytes_of tx) = 2 * (nLevels / 8) + 3
     /\ L2TxFromBytes (bytes_of tx) nLevels = Ok (back tx)) ->
  len rest < 2 * (nLevels / 8) + 3 ->
  RollupForgeBatch_L2TxsData nLevels txs = Ok (concat (map bytes_of txs))
  /\ RollupForgeBatchArgs_L2TxsData nLevels (concat (map bytes_of txs) ++ rest)
     = Ok (map back txs).
Proof.
  intros Hn Htx Hrest.
  assert (Hq : Z.quot nLevels 8 = nLevels / 8)
    by (apply Z.quot_div_nonneg; lia).
  assert (Hq0 : 0 <= nLevels / 8) by (apply Z.div_pos; lia).
  set (l := 2 * (nLevels / 8) + 3) in *.
  split.
  - unfold RollupForgeBatch_L2TxsData.
    rewrite (RollupForgeBatch_loopL2_Ok nLevels bytes_of txs).
    + reflexivity.
    + intros tx H. apply (Htx tx H).
  - unfold RollupForgeBatchArgs_L2TxsData. rewrite Hq.
    replace (nLevels / 8 * 2 + 2 + 1) with l by (subst l; lia).
    replace (l =? 0) with false by (symmetry; subst l; lia).
    pose proof (len_nonneg rest) as Hr0.
    assert (Hnum : Z.quot (len (concat (map bytes_of txs) ++ rest)) l
                   = Z.of_nat (length txs)).
    { rewrite len_app, (concat_L2_len l)
        by (intros tx H; apply (Htx tx H)).
      rewrite Z.quot_div_nonneg by (subst l; nia).
      rewrite Z.add_comm, Z.div_add by (subst l; lia).
      rewrite Z.div_small by lia. reflexivity. }
    rewrite Hnum, Nat2Z.id.
    apply (RollupForgeBatchArgs_loopL2_Ok nLevels l bytes_of back rest txs)
      with (done := []) (acc := []).
    + intros tx H. destruct (Htx tx H) as (_ & Hl & Hb). split; assumption.
    + intros tx [].
Qed.

End L2TxsData.

Lemma L2TxsData_roundtrip_witness :
  RollupForgeBatch_L2TxsData
    (fun tx nLevels => Common.BytesDataAvailability tx (nLevels mod 2 ^ 32))
    32 [Common.tx_forged; Common.tx_transfer]
  = Ok (concat (map (fun _ => [0; 0; 1; 1; 0; 0; 1; 0; 43; 22; 201])
                  [Common.tx_forged; Common.tx_transfer]))
  /\ RollupForgeBatchArgs_L2TxsData (Common.L2TxFromBytesDataAvailability 12)
       32
       (concat (map (fun _ => [0; 0; 1; 1; 0; 0; 1; 0; 43; 22; 201])
                  [Common.tx_forged; Common.tx_transfer]) ++ [9; 9])
     = Ok (map (fun _ => Common.tx_transfer)
             [Common.tx_forged; Common.tx_transfer]).
Proof.
  apply (L2TxsData_roundtrip
           (fun tx nLevels =>
              Common.BytesDataAvailability tx (nLevels mod 2 ^ 32))
           (Common.L2TxFromBytesDataAvailability 12) 32
           (fun _ => [0; 0; 1; 1; 0; 0; 1; 0; 43; 22; 201])
           (fun _ => Common.tx_transfer)
           [Common.tx_forged; Common.tx_transfer] [9; 9]).
  - lia.
  - intros tx [<-|[<-|[]]]; repeat split; vm_compute; reflexivity.
  - vm_compute. reflexivity.
Defined.

End Eth.

(** * historydb: paginated read queries *)

Module HistoryDB.

(** [OrderAsc]: the API passes the order as [ASC] or [DESC]. *)
Definition OrderAsc : string := "ASC".

(** A row as the API structs receive it: the selected columns and the
    column [total_items]. *)
Record WithTotal (Row : Type) : Type := mkWithTotal {
  item : Row;
  TotalItems : Z
}.
Arguments mkWithTotal {Row} item TotalItems.
Arguments item {Row} w.
Arguments TotalItems {Row} w.

(** ** The queries as the database evaluates them *)

Section Query.

Variable Row : Type.
Variable item_id : Row -> Z.

(** [ORDER BY item_id ASC] or [DESC] *)
Fixpoint insert_by (asc : bool) (r : Row) (l : list Row) : list Row :=
  match l with
  | [] => [r]
  | x :: l' =>
      if (if asc then item_id r <=? item_id x else item_id x <=? item_id r)
      then r :: l
      else x :: insert_by asc r l'
  end.

Definition order_by_item_id (asc : bool) (l : list Row) : list Row :=
  fold_right (insert_by asc) [] l.

(** [WHERE c1 AND c2 AND ...] *)
Definition where_ (conds : list (Row -> bool)) (r : Row) : bool :=
  forallb (fun c => c r) conds.

(** [SELECT ..., COUNT( * ) OVER() AS total_items FROM rows WHERE conds
    ORDER BY item_id order LIMIT limit]: the window count is the number of
    rows that pass the [WHERE] clause, before the limit applies. *)
Definition select (rows : list Row) (conds : list (Row -> bool))
  (asc : bool) (limit : Z) : list (WithTotal Row) :=
  let matching := filter (where_ conds) rows in
  let total_items := Z.of_nat (length matching) in
  map (fun r => mkWithTotal r total_items)
    (firstn (Z.to_nat limit) (order_by_item_id asc matching)).

End Query.

Arguments select {Row} item_id rows conds asc limit.
Arguments where_ {Row} conds r.

(** A filter given through a pointer: no condition when the pointer is
    nil. *)
Definition filter_opt {Row V : Type} (v : option V) (c : V -> Row -> bool)
  : list (Row -> bool) :=
  match v with
  | Some x => [c x]
  | None => []
  end.

(** A comparison of a nullable column with a value: never true on NULL. *)
Definition eq_null (col : option Z) (v : Z) : bool :=
  match col with
  | Some x => x =? v
  | None => false
  end.

Definition is_null {A : Type} (col : option A) : bool :=
  match col with
  | Some _ => false
  | None => true
  end.

(** [item_id >= ?] or [item_id <= ?], by the order. *)
Definition from_item (order : string) (item_id v : Z) : bool :=
  if String.eqb order OrderAsc then item_id >=? v else item_id <=? v.

(** ** The state of the history database *)

(** The rows that the [FROM] clause of each query joins, with the columns
    that the filters read. *)
Record BatchRow : Type := {
  batch_item_id : Z; batch_batch_num : Z; batch_slot_num : Z;
  batch_forger_addr : Z
}.

Record BidRow : Type := {
  bid_item_id : Z; bid_slot_num : Z; bid_bidder_addr : Z
}.

Record TokenRow : Type := {
  token_item_id : Z; token_token_id : Z; token_symbol : string;
  token_name : string
}.

Record TxRow : Type := {
  tx_item_id : Z;
  tx_from_eth_addr : option Z; tx_to_eth_addr : option Z;
  tx_from_bjj : option Z; tx_to_bjj : option Z;
  tx_token_id : Z;
  tx_effective_from_idx : option Z; tx_to_idx : Z;
  tx_batch_num : option Z;
  tx_type : string
}.

Record ExitRow : Type := {
  exit_item_id : Z; exit_eth_addr : Z; exit_bjj : Z; exit_token_id : Z;
  exit_account_idx : Z; exit_batch_num : Z;
  exit_instant_withdrawn : option Z; exit_delayed_withdrawn : option Z
}.

Record CoordinatorRow : Type := {
  coordinator_item_id : Z; coordinator_bidder_addr : Z;
  coordinator_forger_addr : Z
}.

Record AccountRow : Type := {
  account_item_id : Z; account_eth_addr : Z; account_bjj : Z;
  account_token_id : Z
}.

(** The effects of a read on the connection controller and the database. *)
Inductive event : Type :=
| EvAcquire             (* apiConnCon.Acquire succeeded *)
| EvAcquireFailed       (* apiConnCon.Acquire returned an error *)
| EvRelease             (* apiConnCon.Release *)
| EvCancel              (* the cancel function of Acquire *)
| EvQuery.              (* a query sent to the database *)

(** [HistoryDB]: the read connection with its tables, and the connection
    controller. *)
Record HistoryDB : Type := {
  batch_rows : list BatchRow;
  bid_rows : list BidRow;
  token_rows : list TokenRow;
  tx_rows : list TxRow;
  exit_rows : list ExitRow;
  coordinator_rows : list CoordinatorRow;
  account_rows : list AccountRow;
  (* the error of the connection, if it is broken *)
  dbRead_error : option error;
  (* the free slots of the semaphore *)
  apiConnCon_free : nat
}.

(** Modelled from the spec: [apiConnCon.Acquire], whose source is not
    available.  "A bounded semaphore caps concurrent API queries":
    acquiring fails when no slot becomes free within the timeout. *)
Definition Acquire (hdb : HistoryDB) : result unit :=
  match apiConnCon_free hdb with
  | O => Err ErrAcquire
  | S _ => Ok tt
  end.

(** The frame of every API read:
    [cancel, err := hdb.apiConnCon.Acquire(); defer cancel();
     if err != nil { return ..., err }; defer hdb.apiConnCon.Release()],
    then the body; the deferred calls run last registered first. *)
Definition withConn {A : Type} (hdb : HistoryDB)
  (body : result A * list event) : result A * list event :=
  match Acquire hdb with
  | Ok _ => (fst body, [EvAcquire] ++ snd body ++ [EvRelease; EvCancel])
  | Err e => (Err e, [EvAcquireFailed; EvCancel])
  | Panic => (Panic, [])
  end.

(** [meddler.QueryAll] on the read connection: a broken connection gives
    its error, and otherwise the rows are those that the database selects. *)
Definition QueryAll {Row : Type} (hdb : HistoryDB) (item_id : Row -> Z)
  (rows : list Row) (conds : list (Row -> bool)) (order : string) (limit : Z)
  : result (list (WithTotal Row)) * list event :=
  match dbRead_error hdb with
  | Some e => (Err e, [EvQuery])
  | None =>
      (Ok (select item_id rows conds (String.eqb order OrderAsc) limit),
       [EvQuery])
  end.

(** [uint64] subtraction. *)
Definition sub64 (a b : Z) : Z := (a - b) mod 2 ^ 64.

(** The tail that the queries share:
    [if len(rows) == 0 { return rows, 0, nil };
     return rows, rows[0].TotalItems - uint64(len(rows)), nil]. *)
Definition paginated {Row : Type}
  (q : result (list (WithTotal Row)) * list event)
  : result (list (WithTotal Row) * Z) * list event :=
  (rows <- fst q ;;
   match rows with
   | [] => Ok (rows, 0)
   | row0 :: _ => Ok (rows, sub64 (TotalItems row0) (Z.of_nat (length rows)))
   end,
   snd q).

(** ** The query of [GetTxsAPI], as text and as conditions *)

(** The query under construction: its text, whether the next condition is
    joined by [AND], the arguments of the placeholders, and the meaning of
    the conditions appended so far. *)
Inductive sqlArg : Type :=
| ArgZ (v : Z)
| ArgStr (v : string).

Record builder : Type := mkBuilder {
  queryStr : string;
  nextIsAnd : bool;
  args : list sqlArg;
  conds : list (TxRow -> bool)
}.

(** [if nextIsAnd { queryStr += "AND " } else { queryStr += "WHERE " }],
    then the condition [text] with its arguments, and [nextIsAnd = true]. *)
Definition add_condition (b : builder) (text : string) (a : list sqlArg)
  (c : TxRow -> bool) : builder :=
  {| queryStr :=
       queryStr b ++ (if nextIsAnd b then "AND " else "WHERE ") ++ text;
     nextIsAnd := true;
     args := args b ++ a;
     conds := conds b ++ [c] |}.

Definition add_condition_opt {V : Type} (b : builder) (v : option V)
  (text : string) (a : V -> list sqlArg) (c : V -> TxRow -> bool) : builder :=
  match v with
  | Some x => add_condition b text (a x) (c x)
  | None => b
  end.

(** The [SELECT ... FROM ...] text of [GetTxsAPI], its line breaks and
    indentation written as single spaces. *)
Definition GetTxsAPI_select : string :=
  "SELECT tx.item_id, tx.is_l1, tx.id, tx.type, tx.position, "
  ++ "hez_idx(tx.effective_from_idx, token.symbol) AS from_idx, "
  ++ "tx.from_eth_addr, tx.from_bjj, "
  ++ "hez_idx(tx.to_idx, token.symbol) AS to_idx, tx.to_eth_addr, tx.to_bjj, "
  ++ "tx.amount, tx.amount_success, tx.token_id, tx.amount_usd, "
  ++ "tx.batch_num, tx.eth_block_num, tx.to_forge_l1_txs_num, tx.user_origin, "
  ++ "tx.deposit_amount, tx.deposit_amount_usd, tx.deposit_amount_success, "
  ++ "tx.fee, tx.fee_usd, tx.nonce, "
  ++ "token.token_id, token.item_id AS token_item_id, "
  ++ "token.eth_block_num AS token_block, "
  ++ "token.eth_addr, token.name, token.symbol, token.decimals, token.usd, "
  ++ "token.usd_update, block.timestamp, count(" ++ "*) OVER() AS total_items "
  ++ "FROM tx INNER JOIN token ON tx.token_id = token.token_id "
  ++ "INNER JOIN block ON tx.eth_block_num = block.eth_block_num ".

(** The filters of [GetTxsAPI], from the [SELECT] text to the condition
    on [tx.batch_num]. *)
Definition GetTxsAPI_filters
  (ethAddr bjj tokenID idx batchNum : option Z) (txType : option string)
  (fromItem : option Z) (order : string) : builder :=
  let b := {| queryStr := GetTxsAPI_select; nextIsAnd := false;
              args := []; conds := [] |} in
  (* ethAddr filter, else bjj filter *)
  let b :=
    match ethAddr, bjj with
    | Some a, _ =>
        {| queryStr :=
             queryStr b ++ "WHERE (tx.from_eth_addr = ? OR tx.to_eth_addr = ?) ";
           nextIsAnd := true;
           args := args b ++ [ArgZ a; ArgZ a];
           conds := conds b ++
             [fun r => eq_null (tx_from_eth_addr r) a
                       || eq_null (tx_to_eth_addr r) a] |}
    | None, Some j =>
        {| queryStr := queryStr b ++ "WHERE (tx.from_bjj = ? OR tx.to_bjj = ?) ";
           nextIsAnd := true;
           args := args b ++ [ArgZ j; ArgZ j];
           conds := conds b ++
             [fun r => eq_null (tx_from_bjj r) j || eq_null (tx_to_bjj r) j] |}
    | None, None => b
    end in
  (* tokenID filter *)
  let b := add_condition_opt b tokenID "tx.token_id = ? "
             (fun t => [ArgZ t]) (fun t r => tx_token_id r =? t) in
  (* idx filter *)
  let b := add_condition_opt b idx "(tx.effective_from_idx = ? OR tx.to_idx = ?) "
             (fun i => [ArgZ i; ArgZ i])
             (fun i r => eq_null (tx_effective_from_idx r) i
                         || (tx_to_idx r =? i)) in
  (* batchNum filter *)
  let b := add_condition_opt b batchNum "tx.batch_num = ? "
             (fun n => [ArgZ n]) (fun n r => eq_null (tx_batch_num r) n) in
  (* txType filter *)
  let b := add_condition_opt b txType "tx.type = ? "
             (fun t => [ArgStr t]) (fun t r => String.eqb (tx_type r) t) in
  let b := add_condition_opt b fromItem
             (if String.eqb order OrderAsc
              then "tx.item_id >= ? " else "tx.item_id <= ? ")
             (fun v => [ArgZ v]) (fun v r => from_item order (tx_item_id r) v) in
  add_condition b "tx.batch_num IS NOT NULL " []
    (fun r => negb (is_null (tx_batch_num r))).

(** ** The paginated reads *)

(** [GetBatchesAPI] returns the batches applying the given filters. *)
Definition GetBatchesAPI (hdb : HistoryDB)
  (minBatchNum maxBatchNum slotNum forgerAddr fromItem limit : option Z)
  (order : string)
  : result (list (WithTotal BatchRow) * Z) * list event :=
  withConn hdb
    (let conds :=
       filter_opt minBatchNum (fun v r => batch_batch_num r >? v)
       ++ filter_opt maxBatchNum (fun v r => batch_batch_num r <? v)
       ++ filter_opt slotNum (fun v r => batch_slot_num r =? v)
       ++ filter_opt forgerAddr (fun v r => batch_forger_addr r =? v)
       ++ filter_opt fromItem (fun v r => from_item order (batch_item_id r) v) in
     match limit with
     | None => (Panic, [])
     | Some n =>
         paginated (QueryAll hdb batch_item_id (batch_rows hdb) conds order n)
     end).

(** [GetBidsAPI] returns the bids applying the given filters. *)
Definition GetBidsAPI (hdb : HistoryDB)
  (slotNum bidderAddr fromItem limit : option Z) (order : string)
  : result (list (WithTotal BidRow) * Z) * list event :=
  withConn hdb
    (let conds :=
       filter_opt slotNum (fun v r => bid_slot_num r =? v)
       ++ filter_opt bidderAddr (fun v r => bid_bidder_addr r =? v)
       ++ filter_opt fromItem (fun v r => from_item order (bid_item_id r) v) in
     match limit with
     | None => (Panic, [])
     | Some n =>
         paginated (QueryAll hdb bid_item_id (bid_rows hdb) conds order n)
     end).

Section Tokens.

(** The regular-expression match [name ~ ?] of the database. *)
Variable regex_match : string -> string -> bool.

(** [GetTokensAPI] returns a list of tokens from the DB. *)
Definition GetTokensAPI (hdb : HistoryDB)
  (ids : list Z) (symbols : list string) (name : string)
  (fromItem limit : option Z) (order : string)
  : result (list (WithTotal TokenRow) * Z) * list event :=
  withConn hdb
    (let conds :=
       (if (0 <? Z.of_nat (length ids))
        then [fun r => existsb (Z.eqb (token_token_id r)) ids] else [])
       ++ (if (0 <? Z.of_nat (length symbols))
           then [fun r => existsb (String.eqb (token_symbol r)) symbols]
           else [])
       ++ (if String.eqb name "" then []
           else [fun r => regex_match (token_name r) name])
       ++ filter_opt fromItem (fun v r => from_item order (token_item_id r) v) in
     match limit with
     | None => (Panic, [])
     | Some n =>
         let q := QueryAll hdb token_item_id (token_rows hdb) conds order n in
         (tokens <- fst q ;;
          match tokens with
          | [] => Ok ([], 0)
          | token0 :: _ =>
              Ok (tokens,
                  sub64 (Z.of_nat (length tokens)) (TotalItems token0))
          end,
          snd q)
     end).

End Tokens.

(** [GetTxsAPI] returns a list of txs from the DB and pagination info. *)
Definition GetTxsAPI (hdb : HistoryDB)
  (ethAddr bjj tokenID idx batchNum : option Z) (txType : option string)
  (fromItem limit : option Z) (order : string)
  : result (list (WithTotal TxRow) * Z) * list event :=
  withConn hdb
    (if negb (is_null ethAddr) && negb (is_null bjj)
     then (Err (ErrMsg "ethAddr and bjj are incompatible"), [])
     else
       let b := GetTxsAPI_filters ethAddr bjj tokenID idx batchNum txType
                  fromItem order in
       match limit with
       | None => (Panic, [])
       | Some n =>
           paginated (QueryAll hdb tx_item_id (tx_rows hdb) (conds b) order n)
       end).

(** [GetExitsAPI] returns a list of exits from the DB and pagination
    info. *)
Definition GetExitsAPI (hdb : HistoryDB)
  (ethAddr bjj tokenID idx batchNum : option Z)
  (onlyPendingWithdraws : option bool) (fromItem limit : option Z)
  (order : string)
  : result (list (WithTotal ExitRow) * Z) * list event :=
  if negb (is_null ethAddr) && negb (is_null bjj)
  then (Err (ErrMsg "ethAddr and bjj are incompatible"), [])
  else
    withConn hdb
      (let conds :=
         match ethAddr, bjj with
         | Some a, _ => [fun r => exit_eth_addr r =? a]
         | None, Some j => [fun r => exit_bjj r =? j]
         | None, None => []
         end
         ++ filter_opt tokenID (fun v r => exit_token_id r =? v)
         ++ filter_opt idx (fun v r => exit_account_idx r =? v)
         ++ filter_opt batchNum (fun v r => exit_batch_num r =? v)
         ++ match onlyPendingWithdraws with
            | Some true =>
                [fun r => is_null (exit_instant_withdrawn r)
                          && is_null (exit_delayed_withdrawn r)]
            | _ => []
            end
         ++ filter_opt fromItem (fun v r => from_item order (exit_item_id r) v) in
       match limit with
       | None => (Panic, [])
       | Some n =>
           paginated (QueryAll hdb exit_item_id (exit_rows hdb) conds order n)
       end).

(** [GetCoordinatorsAPI] returns a list of coordinators from the DB and
    pagination info. *)
Definition GetCoordinatorsAPI (hdb : HistoryDB)
  (bidderAddr forgerAddr fromItem limit : option Z) (order : string)
  : result (list (WithTotal CoordinatorRow) * Z) * list event :=
  withConn hdb
    (let conds :=
       filter_opt bidderAddr (fun v r => coordinator_bidder_addr r =? v)
       ++ filter_opt forgerAddr (fun v r => coordinator_forger_addr r =? v)
       ++ filter_opt fromItem
            (fun v r => from_item order (coordinator_item_id r) v) in
     match limit with
     | None => (Panic, [])
     | Some n =>
         paginated (QueryAll hdb coordinator_item_id (coordinator_rows hdb)
                      conds order n)
     end).

(** [GetAccountsAPI] returns a list of accounts from the DB and pagination
    info. *)
Definition GetAccountsAPI (hdb : HistoryDB)
  (tokenIDs : list Z) (ethAddr bjj fromItem limit : option Z) (order : string)
  : result (list (WithTotal AccountRow) * Z) * list event :=
  if negb (is_null ethAddr) && negb (is_null bjj)
  then (Err (ErrMsg "ethAddr and bjj are incompatible"), [])
  else
    withConn hdb
      (let conds :=
         match ethAddr, bjj with
         | Some a, _ => [fun r => account_eth_addr r =? a]
         | None, Some j => [fun r => account_bjj r =? j]
         | None, None => []
         end
         ++ (if (0 <? Z.of_nat (length tokenIDs))
             then [fun r => existsb (Z.eqb (account_token_id r)) tokenIDs]
             else [])
         ++ filter_opt fromItem
              (fun v r => from_item order (account_item_id r) v) in
       match limit with
       | None => (Panic, [])
       | Some n =>
           paginated (QueryAll hdb account_item_id (account_rows hdb)
                        conds order n)
       end).

(** ** Properties of the queries *)

Lemma In_firstn {A : Type} (n : nat) (l : list A) (x : A) :
  In x (firstn n l) -> In x l.
Proof.
  revert l. induction n as [|n IH]; intros [|y l]; cbn; try tauto.
  intros [<-|H]; [left; reflexivity | right; apply IH; exact H].
Qed.

Section QueryProofs.

Variable Row : Type.
Variable item_id : Row -> Z.

Lemma insert_by_length (asc : bool) (r : Row) (l : list Row) :
  length (insert_by Row item_id asc r l) = S (length l).
Proof.
  induction l as [|x l IH]; cbn [insert_by]; [reflexivity|].
  destruct (if asc then _ else _); cbn [length]; [reflexivity|].
  rewrite IH. reflexivity.
Qed.

Lemma order_by_item_id_length (asc : bool) (l : list Row) :
  length (order_by_item_id Row item_id asc l) = length l.
Proof.
  induction l as [|x l IH]; [reflexivity|].
  cbn [order_by_item_id fold_right].
  rewrite insert_by_length. fold (order_by_item_id Row item_id asc l).
  rewrite IH. reflexivity.
Qed.

Lemma insert_by_In (asc : bool) (r x : Row) (l : list Row) :
  In x (insert_by Row item_id asc r l) -> x = r \/ In x l.
Proof.
  induction l as [|y l IH]; cbn [insert_by].
  - intros [<-|[]]. auto.
  - destruct (if asc then _ else _); cbn [In].
    + intros [<-|[<-|H]]; auto.
    + intros [<-|H]; [auto|]. apply IH in H. tauto.
Qed.

Lemma order_by_item_id_In (asc : bool) (x : Row) (l : list Row) :
  In x (order_by_item_id Row item_id asc l) -> In x l.
Proof.
  induction l as [|y l IH]; [auto|].
  cbn [order_by_item_id fold_right]. intros H.
  apply insert_by_In in H. destruct H as [<-|H]; [left; reflexivity|].
  right. apply IH. exact H.
Qed.

(** Every selected row is a row of the table that passes every
    condition, and carries the count of such rows. *)
Lemma select_In (rows : list Row) (cs : list (Row -> bool))
  (asc : bool) (limit : Z) (w : WithTotal Row) :
  In w (select item_id rows cs asc limit) ->
  In (item w) rows /\ where_ cs (item w) = true
  /\ TotalItems w = Z.of_nat (length (filter (where_ cs) rows)).
Proof.
  unfold select. rewrite in_map_iff. intros (r & <- & Hr). cbn.
  apply In_firstn, order_by_item_id_In, filter_In in Hr.
  tauto.
Qed.

Lemma select_length (rows : list Row) (cs : list (Row -> bool))
  (asc : bool) (limit : Z) :
  length (select item_id rows cs asc limit)
  = Nat.min (Z.to_nat limit) (length (filter (where_ cs) rows)).
Proof.
  unfold select.
  rewrite length_map, length_firstn, order_by_item_id_length. reflexivity.
Qed.

(** The tail shared by six of the seven queries: on a non-empty page the
    pending items are the matching rows less the returned ones. *)
Lemma paginated_QueryAll (hdb : HistoryDB) (rows : list Row)
  (cs : list (Row -> bool)) (order : string) (limit : Z)
  (page : list (WithTotal Row)) (pendingItems : Z) (tr : list event) :
  Z.of_nat (length rows) < 2 ^ 64 ->
  paginated (QueryAll hdb item_id rows cs order limit)
  = (Ok (page, pendingItems), tr) ->
  page <> [] ->
  pendingItems
  = Z.of_nat (length (filter (where_ cs) rows)) - Z.of_nat (length page)
  /\ 0 <= pendingItems.
Proof.
  intros Hsize H Hne. unfold paginated, QueryAll in H.
  destruct (dbRead_error hdb); cbn [fst snd bind] in H; [discriminate|].
  set (sel := select item_id rows cs (String.eqb order OrderAsc) limit) in *.
  destruct sel as [|w sel'] eqn:Hsel; [injection H as <- _ _; contradiction|].
  injection H as <- <- _.
  assert (Hw : In w sel) by (rewrite Hsel; left; reflexivity).
  apply select_In in Hw. destruct Hw as (_ & _ & ->).
  pose proof (select_length rows cs (String.eqb order OrderAsc) limit) as Hl.
  fold sel in Hl. rewrite Hsel in Hl.
  pose proof (filter_length_le (where_ cs) rows) as Hf.
  assert (Hpow : 2 ^ 64 = 18446744073709551616) by reflexivity.
  unfold sub64. rewrite ?Zpos_P_of_succ_nat. cbn [length] in Hl |- *.
  rewrite Z.mod_small; lia.
Qed.

End QueryProofs.

Arguments paginated_QueryAll {Row} item_id hdb rows cs order limit
  page pendingItems tr.
Arguments select_In {Row} item_id rows cs asc limit w.

Lemma withConn_Ok {A : Type} (hdb : HistoryDB)
  (body : result A * list event) (a : A) (tr : list event) :
  withConn hdb body = (Ok a, tr) ->
  exists tr', body = (Ok a, tr').
Proof.
  unfold withConn. destruct (Acquire hdb); [|discriminate..].
  destruct body as [r tr']. cbn. intros [= -> _]. eauto.
Qed.

(** The size of a table is a [bigint] of the database. *)
Definition table_sizes (hdb : HistoryDB) : Prop :=
  Z.of_nat (length (batch_rows hdb)) < 2 ^ 64
  /\ Z.of_nat (length (bid_rows hdb)) < 2 ^ 64
  /\ Z.of_nat (length (token_rows hdb)) < 2 ^ 64
  /\ Z.of_nat (length (tx_rows hdb)) < 2 ^ 64
  /\ Z.of_nat (length (exit_rows hdb)) < 2 ^ 64
  /\ Z.of_nat (length (coordinator_rows hdb)) < 2 ^ 64
  /\ Z.of_nat (length (account_rows hdb)) < 2 ^ 64.

(** A non-empty page comes with the number of matching rows less the
    number of returned rows. *)
Definition pendingItems_ok {Row : Type}
  (out : result (list (WithTotal Row) * Z) * list event) : Prop :=
  forall page pendingItems,
    fst out = Ok (page, pendingItems) -> page <> [] ->
    (forall w, In w page ->
       pendingItems = TotalItems w - Z.of_nat (length page))
    /\ 0 <= pendingItems.

Lemma paginated_pendingItems_ok {Row : Type} (item_id : Row -> Z)
  (hdb : HistoryDB) (rows : list Row) (cs : list (Row -> bool))
  (order : string) (limit : option Z) :
  Z.of_nat (length rows) < 2 ^ 64 ->
  pendingItems_ok
    (withConn hdb
       match limit with
       | None => (Panic, [])
       | Some n => paginated (QueryAll hdb item_id rows cs order n)
       end).
Proof.
  intros Hsize page pendingItems H Hne.
  destruct (withConn hdb _) as [r tr] eqn:Hw. cbn in H. subst r.
  apply withConn_Ok in Hw. destruct Hw as [tr' Hw].
  destruct limit as [n|]; [|discriminate].
  destruct (paginated_QueryAll item_id hdb rows cs order n page pendingItems
              tr' Hsize Hw Hne) as [-> Hpos].
  split; [|exact Hpos]. intros w Hin. f_equal.
  unfold paginated, QueryAll in Hw.
  destruct (dbRead_error hdb); cbn [fst snd bind] in Hw; [discriminate|].
  destruct (select _ _ _ _ _) as [|w0 sel] eqn:Hsel;
    injection Hw as <- _ _; [contradiction|].
  rewrite <- Hsel in Hin. apply select_In in Hin. symmetry. apply Hin.
Qed.

(** The six queries that compute [TotalItems - len(rows)]. *)
Lemma pendingItems_six (hdb : HistoryDB) :
  table_sizes hdb ->
  (forall minBatchNum maxBatchNum slotNum forgerAddr fromItem limit order,
     pendingItems_ok (GetBatchesAPI hdb minBatchNum maxBatchNum slotNum
                        forgerAddr fromItem limit order))
  /\ (forall slotNum bidderAddr fromItem limit order,
        pendingItems_ok (GetBidsAPI hdb slotNum bidderAddr fromItem limit order))
  /\ (forall ethAddr bjj tokenID idx batchNum txType fromItem limit order,
        pendingItems_ok (GetTxsAPI hdb ethAddr bjj tokenID idx batchNum txType
                           fromItem limit order))
  /\ (forall ethAddr bjj tokenID idx batchNum onlyPending fromItem limit order,
        pendingItems_ok (GetExitsAPI hdb ethAddr bjj tokenID idx batchNum
                           onlyPending fromItem limit order))
  /\ (forall bidderAddr forgerAddr fromItem limit order,
        pendingItems_ok (GetCoordinatorsAPI hdb bidderAddr forgerAddr fromItem
                           limit order))
  /\ (forall tokenIDs ethAddr bjj fromItem limit order,
        pendingItems_ok (GetAccountsAPI hdb tokenIDs ethAddr bjj fromItem
                           limit order)).
Proof.
  intros (Hbatch & Hbid & _ & Htx & Hexit & Hcoord & Hacc).
  split; [intros; apply paginated_pendingItems_ok; exact Hbatch|].
  split; [intros; apply paginated_pendingItems_ok; exact Hbid|].
  split.
  { intros. unfold GetTxsAPI.
    destruct (negb (is_null ethAddr) && negb (is_null bjj)).
    - intros page p H. unfold withConn in H.
      destruct (Acquire hdb); discriminate.
    - apply paginated_pendingItems_ok. exact Htx. }
  split.
  { intros. unfold GetExitsAPI.
    destruct (negb (is_null ethAddr) && negb (is_null bjj)).
    - intros page p H. discriminate.
    - apply paginated_pendingItems_ok. exact Hexit. }
  split; [intros; apply paginated_pendingItems_ok; exact Hcoord|].
  intros. unfold GetAccountsAPI.
  destruct (negb (is_null ethAddr) && negb (is_null bjj)).
  - intros page p H. discriminate.
  - apply paginated_pendingItems_ok. exact Hacc.
Qed.

(** [GetTokensAPI] subtracts the other way round: on a non-empty page the
    pending items are the returned rows less the matching ones, as a
    [uint64]. *)
Lemma GetTokensAPI_pendingItems (regex_match : string -> string -> bool)
  (hdb : HistoryDB) (ids : list Z) (symbols : list string) (name : string)
  (fromItem limit : option Z) (order : string)
  (page : list (WithTotal TokenRow)) (pendingItems : Z) :
  fst (GetTokensAPI regex_match hdb ids symbols name fromItem limit order)
  = Ok (page, pendingItems) ->
  forall w, In w page ->
    pendingItems = (Z.of_nat (length page) - TotalItems w) mod 2 ^ 64.
Proof.
  unfold GetTokensAPI. intros H w Hin.
  destruct (withConn hdb _) as [r tr] eqn:Hw. cbn [fst] in H. subst r.
  apply withConn_Ok in Hw. destruct Hw as [tr' Hw].
  destruct limit as [n|]; [|discriminate].
  unfold QueryAll in Hw.
  destruct (dbRead_error hdb); cbn [fst snd bind] in Hw; [discriminate|].
  destruct (select _ _ _ _ _) as [|w0 sel] eqn:Hsel;
    injection Hw as <- <- _; [contradiction|].
  unfold sub64. do 2 f_equal.
  assert (H0 : In w0 (w0 :: sel)) by (left; reflexivity).
  rewrite <- Hsel in Hin, H0.
  apply select_In in Hin. apply select_In in H0.
  destruct Hin as (_ & _ & ->). destruct H0 as (_ & _ & ->). reflexivity.
Qed.

(** A history database with two tokens and nothing else, one free slot in
    the connection controller. *)
Definition token_ETH : TokenRow :=
  {| token_item_id := 1; token_token_id := 0; token_symbol := "ETH";
     token_name := "Ether" |}.

Definition token_HEZ : TokenRow :=
  {| token_item_id := 2; token_token_id := 1; token_symbol := "HEZ";
     token_name := "Hermez" |}.

Definition hdb_tokens (free : nat) : HistoryDB :=
  {| batch_rows := []; bid_rows := []; token_rows := [token_ETH; token_HEZ];
     tx_rows := []; exit_rows := []; coordinator_rows := [];
     account_rows := []; dbRead_error := None; apiConnCon_free := free |}.

(** C1 fails for [GetTokensAPI].  With two tokens and a limit of one row,
    the page has one row and one row is pending, but the pending items
    returned are [1 - 2] as a [uint64], that is [2 ^ 64 - 1]. *)
Theorem GetTokensAPI_pendingItems_underflow :
  fst (GetTokensAPI (fun _ _ => true) (hdb_tokens 1) [] [] "" None (Some 1)
         "ASC")
  = Ok ([{| item := token_ETH; TotalItems := 2 |}], 2 ^ 64 - 1)
  /\ 2 ^ 64 - 1 <> 2 - 1.
Proof. split; [vm_compute; reflexivity | discriminate]. Qed.

(** C9.  For every combination of filters and every state of the
    database, every row that [GetTxsAPI] returns has a non-null
    [batch_num]: whatever the filters, the text of the query ends with the
    condition [tx.batch_num IS NOT NULL], joined by [WHERE] or [AND], and
    that condition is the last of the conditions that select the rows. *)
Theorem GetTxsAPI_batch_num_not_null (hdb : HistoryDB)
  (ethAddr bjj tokenID idx batchNum : option Z) (txType : option string)
  (fromItem limit : option Z) (order : string) :
  (forall page pendingItems,
     fst (GetTxsAPI hdb ethAddr bjj tokenID idx batchNum txType fromItem
            limit order) = Ok (page, pendingItems) ->
     forall w, In w page ->
       In (item w) (tx_rows hdb) /\ tx_batch_num (item w) <> None)
  /\ (exists head joiner cs,
        (joiner = "AND " \/ joiner = "WHERE ")%string
        /\ queryStr (GetTxsAPI_filters ethAddr bjj tokenID idx batchNum
                       txType fromItem order)
           = (head ++ joiner ++ "tx.batch_num IS NOT NULL ")%string
        /\ conds (GetTxsAPI_filters ethAddr bjj tokenID idx batchNum
                    txType fromItem order)
           = cs ++ [fun r => negb (is_null (tx_batch_num r))]).
Proof.
  split.
  - intros page pendingItems H w Hin. unfold GetTxsAPI in H.
    destruct (withConn hdb _) as [r tr] eqn:Hw. cbn [fst] in H. subst r.
    apply withConn_Ok in Hw. destruct Hw as [tr' Hw].
    destruct (negb (is_null ethAddr) && negb (is_null bjj)); [discriminate|].
    destruct limit as [n|]; [|discriminate].
    unfold paginated, QueryAll in Hw.
    destruct (dbRead_error hdb); cbn [fst snd bind] in Hw; [discriminate|].
    destruct (select _ _ _ _ _) as [|w0 sel] eqn:Hsel;
      injection Hw as <- _ _; [contradiction|].
    rewrite <- Hsel in Hin. apply select_In in Hin.
    destruct Hin as (Hrow & Hwhere & _). split; [exact Hrow|].
    unfold GetTxsAPI_filters, add_condition in Hwhere.
    cbn [conds] in Hwhere. unfold where_ in Hwhere.
    rewrite forallb_app in Hwhere. apply andb_true_iff in Hwhere.
    destruct Hwhere as [_ Hlast]. cbn in Hlast.
    destruct (tx_batch_num (item w)); [discriminate|discriminate].
  - unfold GetTxsAPI_filters, add_condition. cbn [queryStr conds].
    eexists. eexists. eexists. split; [|split; reflexivity].
    destruct (nextIsAnd _); [left|right]; reflexivity.
Qed.

(** C10, as amended.  When the connection semaphore is acquired, a call of
    [GetTxsAPI] with both the [ethAddr] and the [bjj] filter returns the
    error "ethAddr and bjj are incompatible" and no page; the semaphore is
    acquired and released and no query reaches the database. *)
Theorem GetTxsAPI_incompatible (hdb : HistoryDB)
  (ethAddr bjj : Z) (tokenID idx batchNum : option Z) (txType : option string)
  (fromItem limit : option Z) (order : string) :
  apiConnCon_free hdb <> 0%nat ->
  GetTxsAPI hdb (Some ethAddr) (Some bjj) tokenID idx batchNum txType
    fromItem limit order
  = (Err (ErrMsg "ethAddr and bjj are incompatible"),
     [EvAcquire; EvRelease; EvCancel]).
Proof.
  intros Hfree. unfold GetTxsAPI, withConn, Acquire.
  destruct (apiConnCon_free hdb); [contradiction|]. reflexivity.
Qed.

Lemma GetTxsAPI_incompatible_witness :
  GetTxsAPI (hdb_tokens 1) (Some 10) (Some 20) None None None None
    None (Some 5) "ASC"
  = (Err (ErrMsg "ethAddr and bjj are incompatible"),
     [EvAcquire; EvRelease; EvCancel]).
Proof.
  apply (GetTxsAPI_incompatible (hdb_tokens 1) 10 20).
  cbn. discriminate.
Defined.

(** C10 as stated fails when the semaphore is not acquired: the call
    returns the error of the acquisition, not the error of the filters. *)
Lemma GetTxsAPI_incompatible_counterexample :
  GetTxsAPI (hdb_tokens 0) (Some 10) (Some 20) None None None None
    None (Some 5) "ASC"
  = (Err ErrAcquire, [EvAcquireFailed; EvCancel]).
Proof. reflexivity. Qed.

(** ** The pages that the reads return *)

(** [a] comes no later than [b] in the order of a read: any order other
    than [OrderAsc] is descending. *)
Definition in_order (order : string) (a b : Z) : Prop :=
  if String.eqb order OrderAsc then a <= b else b <= a.

(** A page of a read with the cursor [fromItem] and the limit [limit]: it
    has at most [limit] rows, all of them rows of the table, sorted by
    their item identifier in the order of the read, none of them before
    the cursor. *)
Definition page_ok {Row : Type} (item_id : Row -> Z) (rows : list Row)
  (fromItem limit : option Z) (order : string)
  (page : list (WithTotal Row)) : Prop :=
  (exists n, limit = Some n /\ (length page <= Z.to_nat n)%nat)
  /\ StronglySorted
       (fun a b => in_order order (item_id a) (item_id b)) (map item page)
  /\ (forall w, In w page -> In (item w) rows)
  /\ (forall w v, In w page -> fromItem = Some v ->
        in_order order v (item_id (item w))).

Section PageProofs.

Variable Row : Type.
Variable item_id : Row -> Z.

Definition by_item_id (asc : bool) (a b : Row) : Prop :=
  if asc then item_id a <= item_id b else item_id b <= item_id a.

Lemma by_item_id_trans (asc : bool) (a b c : Row) :
  by_item_id asc a b -> by_item_id asc b c -> by_item_id asc a c.
Proof. unfold by_item_id. destruct asc; lia. Qed.

Lemma insert_by_sorted (asc : bool) (r : Row) (l : list Row) :
  StronglySorted (by_item_id asc) l ->
  StronglySorted (by_item_id asc) (insert_by Row item_id asc r l).
Proof.
  induction l as [|x l IH]; intros Hs; cbn [insert_by].
  - constructor; constructor.
  - inversion Hs as [|? ? Hl Hx]; subst.
    destruct (if asc then item_id r <=? item_id x
              else item_id x <=? item_id r) eqn:E.
    + assert (Hrx : by_item_id asc r x)
        by (unfold by_item_id; destruct asc; lia).
      constructor; [exact Hs|]. constructor; [exact Hrx|].
      eapply Forall_impl; [|exact Hx]. intros y Hy.
      eapply by_item_id_trans; eassumption.
    + assert (Hxr : by_item_id asc x r)
        by (unfold by_item_id; destruct asc; lia).
      constructor; [apply IH; exact Hl|].
      apply Forall_forall. intros y Hy.
      apply insert_by_In in Hy. destruct Hy as [->|Hy]; [exact Hxr|].
      rewrite Forall_forall in Hx. apply Hx, Hy.
Qed.

Lemma order_by_item_id_sorted (asc : bool) (l : list Row) :
  StronglySorted (by_item_id asc) (order_by_item_id Row item_id asc l).
Proof.
  induction l as [|x l IH]; [constructor|].
  cbn [order_by_item_id fold_right]. apply insert_by_sorted. exact IH.
Qed.

Lemma firstn_sorted (R : Row -> Row -> Prop) (n : nat) (l : list Row) :
  StronglySorted R l -> StronglySorted R (firstn n l).
Proof.
  revert n. induction l as [|x l IH]; intros n Hs.
  - rewrite firstn_nil. constructor.
  - destruct n as [|n]; [constructor|]. cbn [firstn].
    inversion Hs as [|? ? Hl Hx]; subst.
    constructor; [apply IH; exact Hl|].
    apply Forall_forall. intros y Hy. rewrite Forall_forall in Hx.
    apply Hx. eapply In_firstn. exact Hy.
Qed.

Lemma select_items (rows : list Row) (cs : list (Row -> bool))
  (asc : bool) (limit : Z) :
  map item (select item_id rows cs asc limit)
  = firstn (Z.to_nat limit)
      (order_by_item_id Row item_id asc (filter (where_ cs) rows)).
Proof. unfold select. rewrite map_map. cbn [item]. apply map_id. Qed.

Lemma where_In (cs : list (Row -> bool)) (c : Row -> bool) (r : Row) :
  where_ cs r = true -> In c cs -> c r = true.
Proof.
  unfold where_. rewrite forallb_forall. intros H Hin. apply (H c Hin).
Qed.

(** The page of a query one of whose conditions is the cursor. *)
Lemma select_page_ok (rows : list Row) (cs : list (Row -> bool))
  (fromItem : option Z) (order : string) (n : Z) :
  (forall v, fromItem = Some v ->
     In (fun r => from_item order (item_id r) v) cs) ->
  page_ok item_id rows fromItem (Some n) order
    (select item_id rows cs (String.eqb order OrderAsc) n).
Proof.
  intros Hcur. split; [|split; [|split]].
  - exists n. split; [reflexivity|]. rewrite select_length. lia.
  - rewrite select_items. apply firstn_sorted.
    apply (order_by_item_id_sorted (String.eqb order OrderAsc)).
  - intros w Hw. apply select_In in Hw. apply Hw.
  - intros w v Hw ->. apply select_In in Hw.
    destruct Hw as (_ & Hwhere & _).
    specialize (Hcur v eq_refl).
    apply (where_In _ _ _ Hwhere) in Hcur.
    unfold from_item in Hcur. unfold in_order.
    destruct (String.eqb order OrderAsc); lia.
Qed.

(** What a read returns when it returns a page. *)
Lemma read_Ok (hdb : HistoryDB) (rows : list Row) (cs : list (Row -> bool))
  (order : string) (limit : option Z)
  (page : list (WithTotal Row)) (pendingItems : Z) :
  fst (withConn hdb
         match limit with
         | None => (Panic, [])
         | Some n => paginated (QueryAll hdb item_id rows cs order n)
         end) = Ok (page, pendingItems) ->
  exists n,
    limit = Some n
    /\ page = select item_id rows cs (String.eqb order OrderAsc) n.
Proof.
  intros H. destruct (withConn hdb _) as [r tr] eqn:Hw. cbn [fst] in H.
  subst r. apply withConn_Ok in Hw. destruct Hw as [tr' Hw].
  destruct limit as [n|]; [|discriminate]. exists n. split; [reflexivity|].
  unfold paginated, QueryAll in Hw.
  destruct (dbRead_error hdb); cbn [fst snd bind] in Hw; [discriminate|].
  destruct (select _ _ _ _ _) as [|w0 sel] eqn:Hsel;
    injection Hw as <- _ _; reflexivity.
Qed.

Lemma read_page_ok (hdb : HistoryDB) (rows : list Row)
  (cs : list (Row -> bool)) (order : string) (fromItem limit : option Z)
  (page : list (WithTotal Row)) (pendingItems : Z) :
  (forall v, fromItem = Some v ->
     In (fun r => from_item order (item_id r) v) cs) ->
  fst (withConn hdb
         match limit with
         | None => (Panic, [])
         | Some n => paginated (QueryAll hdb item_id rows cs order n)
         end) = Ok (page, pendingItems) ->
  page_ok item_id rows fromItem limit order page.
Proof.
  intros Hcur H. apply read_Ok in H. destruct H as (n & -> & ->).
  apply select_page_ok. exact Hcur.
Qed.

End PageProofs.

Arguments read_page_ok {Row} item_id hdb rows cs order fromItem limit
  page pendingItems.
Arguments select_page_ok {Row} item_id rows cs fromItem order n.

(** The cursor is one of the conditions of a read. *)
Ltac cursor_condition :=
  intros v ->; cbn [filter_opt add_condition_opt add_condition conds];
  rewrite ?in_app_iff; cbn [In]; auto 10.

(** X7.  Every page that one of the seven reads returns has at most
    [limit] rows, all of them rows of the table read; they are sorted by
    item identifier, ascending when the order is [OrderAsc] and descending
    for any other order; and when a cursor [fromItem] is given no row lies
    before it in that order. *)
Theorem reads_page_ok (regex_match : string -> string -> bool)
  (hdb : HistoryDB) (fromItem limit : option Z) (order : string) :
  (forall minBatchNum maxBatchNum slotNum forgerAddr page pendingItems,
     fst (GetBatchesAPI hdb minBatchNum maxBatchNum slotNum forgerAddr
            fromItem limit order) = Ok (page, pendingItems) ->
     page_ok batch_item_id (batch_rows hdb) fromItem limit order page)
  /\ (forall slotNum bidderAddr page pendingItems,
        fst (GetBidsAPI hdb slotNum bidderAddr fromItem limit order)
        = Ok (page, pendingItems) ->
        page_ok bid_item_id (bid_rows hdb) fromItem limit order page)
  /\ (forall ids symbols name page pendingItems,
        fst (GetTokensAPI regex_match hdb ids symbols name fromItem limit
               order) = Ok (page, pendingItems) ->
        page_ok token_item_id (token_rows hdb) fromItem limit order page)
  /\ (forall ethAddr bjj tokenID idx batchNum txType page pendingItems,
        fst (GetTxsAPI hdb ethAddr bjj tokenID idx batchNum txType fromItem
               limit order) = Ok (page, pendingItems) ->
        page_ok tx_item_id (tx_rows hdb) fromItem limit order page)
  /\ (forall ethAddr bjj tokenID idx batchNum onlyPending page pendingItems,
        fst (GetExitsAPI hdb ethAddr bjj tokenID idx batchNum onlyPending
               fromItem limit order) = Ok (page, pendingItems) ->
        page_ok exit_item_id (exit_rows hdb) fromItem limit order page)
  /\ (forall bidderAddr forgerAddr page pendingItems,
        fst (GetCoordinatorsAPI hdb bidderAddr forgerAddr fromItem limit
               order) = Ok (page, pendingItems) ->
        page_ok coordinator_item_id (coordinator_rows hdb) fromItem limit
          order page)
  /\ (forall tokenIDs ethAddr bjj page pendingItems,
        fst (GetAccountsAPI hdb tokenIDs ethAddr bjj fromItem limit order)
        = Ok (page, pendingItems) ->
        page_ok account_item_id (account_rows hdb) fromItem limit order page).
Proof.
  split; [|split; [|split; [|split; [|split; [|split]]]]].
  - intros * H. unfold GetBatchesAPI in H.
    eapply read_page_ok; [|exact H]. cursor_condition.
  - intros * H. unfold GetBidsAPI in H.
    eapply read_page_ok; [|exact H]. cursor_condition.
  - intros * H. unfold GetTokensAPI in H.
    destruct (withConn hdb _) as [r tr] eqn:Hw. cbn [fst] in H. subst r.
    apply withConn_Ok in Hw. destruct Hw as [tr' Hw].
    destruct limit as [n|]; [|discriminate].
    unfold QueryAll in Hw.
    destruct (dbRead_error hdb); cbn [fst snd bind] in Hw; [discriminate|].
    match type of Hw with
    | context [select ?i ?rows ?cs ?asc ?n] =>
        assert (Hp : page_ok i rows fromItem (Some n) order
                       (select i rows cs asc n))
          by (apply select_page_ok; cursor_condition);
        destruct (select i rows cs asc n) as [|w0 sel]
    end.
    + injection Hw as <- _ _. exact Hp.
    + injection Hw as <- _ _. exact Hp.
  - intros * H. unfold GetTxsAPI in H.
    destruct (negb (is_null ethAddr) && negb (is_null bjj)).
    + unfold withConn in H. destruct (Acquire hdb); discriminate.
    + eapply read_page_ok; [|exact H].
      unfold GetTxsAPI_filters. cursor_condition.
  - intros * H. unfold GetExitsAPI in H.
    destruct (negb (is_null ethAddr) && negb (is_null bjj)); [discriminate|].
    eapply read_page_ok; [|exact H]. cursor_condition.
  - intros * H. unfold GetCoordinatorsAPI in H.
    eapply read_page_ok; [|exact H]. cursor_condition.
  - intros * H. unfold GetAccountsAPI in H.
    destruct (negb (is_null ethAddr) && negb (is_null bjj)); [discriminate|].
    eapply read_page_ok; [|exact H]. cursor_condition.
Qed.

(** ** The connection semaphore *)

(** The effects of a read that starts by acquiring the semaphore.  With no
    free slot it returns the error of the acquisition and does nothing
    else.  With a free slot it acquires once and releases once, and in
    between it sends one query, or none and then it returns no page. *)
Definition trace_ok {A : Type} (hdb : HistoryDB)
  (out : result A * list event) : Prop :=
  match apiConnCon_free hdb with
  | O => out = (Err ErrAcquire, [EvAcquireFailed; EvCancel])
  | S _ =>
      snd out = [EvAcquire; EvQuery; EvRelease; EvCancel]
      \/ (snd out = [EvAcquire; EvRelease; EvCancel]
          /\ forall a, fst out <> Ok a)
  end.

Lemma withConn_trace_ok {A : Type} (hdb : HistoryDB)
  (body : result A * list event) :
  snd body = [EvQuery] \/ (snd body = [] /\ forall a, fst body <> Ok a) ->
  trace_ok hdb (withConn hdb body).
Proof.
  intros H. unfold trace_ok, withConn, Acquire.
  destruct (apiConnCon_free hdb); [reflexivity|]. cbn [fst snd].
  destruct H as [-> | [-> H]]; [left | right; split]; auto.
Qed.

Lemma read_trace_ok {Row : Type} (item_id : Row -> Z) (hdb : HistoryDB)
  (rows : list Row) (cs : list (Row -> bool)) (order : string)
  (limit : option Z) :
  trace_ok hdb
    (withConn hdb
       match limit with
       | None => (Panic, [])
       | Some n => paginated (QueryAll hdb item_id rows cs order n)
       end).
Proof.
  apply withConn_trace_ok. destruct limit as [n|].
  - left. unfold paginated, QueryAll. destruct (dbRead_error hdb); reflexivity.
  - right. split; [reflexivity | discriminate].
Qed.

(** X8.  The seven reads keep the discipline of the connection semaphore,
    whatever their arguments and the state of the database: they return
    the error of the acquisition, and do nothing else, when no slot is
    free; otherwise they acquire once and release once, also when they
    fail or panic, and send at most one query in between; they return a
    page only after one query.  [GetExitsAPI] and [GetAccountsAPI] given
    both an Ethereum address and a BabyJubJub key return the error of the
    filters before they acquire, with no effect at all. *)
Theorem reads_semaphore (regex_match : string -> string -> bool)
  (hdb : HistoryDB) (fromItem limit : option Z) (order : string) :
  (forall minBatchNum maxBatchNum slotNum forgerAddr,
     trace_ok hdb (GetBatchesAPI hdb minBatchNum maxBatchNum slotNum
                     forgerAddr fromItem limit order))
  /\ (forall slotNum bidderAddr,
        trace_ok hdb (GetBidsAPI hdb slotNum bidderAddr fromItem limit order))
  /\ (forall ids symbols name,
        trace_ok hdb (GetTokensAPI regex_match hdb ids symbols name fromItem
                        limit order))
  /\ (forall ethAddr bjj tokenID idx batchNum txType,
        trace_ok hdb (GetTxsAPI hdb ethAddr bjj tokenID idx batchNum txType
                        fromItem limit order))
  /\ (forall ethAddr bjj tokenID idx batchNum onlyPending,
        match ethAddr, bjj with
        | Some _, Some _ =>
            GetExitsAPI hdb ethAddr bjj tokenID idx batchNum onlyPending
              fromItem limit order
            = (Err (ErrMsg "ethAddr and bjj are incompatible"), [])
        | _, _ =>
            trace_ok hdb (GetExitsAPI hdb ethAddr bjj tokenID idx batchNum
                            onlyPending fromItem limit order)
        end)
  /\ (forall bidderAddr forgerAddr,
        trace_ok hdb (GetCoordinatorsAPI hdb bidderAddr forgerAddr fromItem
                        limit order))
  /\ (forall tokenIDs ethAddr bjj,
        match ethAddr, bjj with
        | Some _, Some _ =>
            GetAccountsAPI hdb tokenIDs ethAddr bjj fromItem limit order
            = (Err (ErrMsg "ethAddr and bjj are incompatible"), [])
        | _, _ =>
            trace_ok hdb (GetAccountsAPI hdb tokenIDs ethAddr bjj fromItem
                            limit order)
        end).
Proof.
  split; [|split; [|split; [|split; [|split; [|split]]]]].
  - intros. apply read_trace_ok.
  - intros. apply read_trace_ok.
  - intros. unfold GetTokensAPI. apply withConn_trace_ok.
    destruct limit as [n|].
    + left. unfold QueryAll. destruct (dbRead_error hdb); reflexivity.
    + right. split; [reflexivity | discriminate].
  - intros. unfold GetTxsAPI.
    destruct (negb (is_null ethAddr) && negb (is_null bjj)).
    + apply withConn_trace_ok. right. split; [reflexivity | discriminate].
    + apply read_trace_ok.
  - intros. destruct ethAddr, bjj; try reflexivity; apply read_trace_ok.
  - intros. apply read_trace_ok.
  - intros. destruct ethAddr, bjj; try reflexivity; apply read_trace_ok.
Qed.

(** ** The pending items *)

Lemma read_empty_page {Row : Type} (item_id : Row -> Z) (hdb : HistoryDB)
  (rows : list Row) (cs : list (Row -> bool)) (order : string)
  (limit : option Z) (pendingItems : Z) :
  fst (withConn hdb
         match limit with
         | None => (Panic, [])
         | Some n => paginated (QueryAll hdb item_id rows cs order n)
         end) = Ok ([], pendingItems) ->
  pendingItems = 0.
Proof.
  intros H. destruct (withConn hdb _) as [r tr] eqn:Hw. cbn [fst] in H.
  subst r. apply withConn_Ok in Hw. destruct Hw as [tr' Hw].
  destruct limit as [n|]; [|discriminate].
  unfold paginated, QueryAll in Hw.
  destruct (dbRead_error hdb); cbn [fst snd bind] in Hw; [discriminate|].
  destruct (select _ _ _ _ _) as [|w0 sel];
    [injection Hw as Hq _; symmetry; exact Hq | discriminate].
Qed.

(** The conditions of the [WHERE] clause of each read, in the order in
    which the read appends them to its query. *)
Definition GetBatchesAPI_conds
  (minBatchNum maxBatchNum slotNum forgerAddr fromItem : option Z)
  (order : string) : list (BatchRow -> bool) :=
  filter_opt minBatchNum (fun v r => batch_batch_num r >? v)
  ++ filter_opt maxBatchNum (fun v r => batch_batch_num r <? v)
  ++ filter_opt slotNum (fun v r => batch_slot_num r =? v)
  ++ filter_opt forgerAddr (fun v r => batch_forger_addr r =? v)
  ++ filter_opt fromItem (fun v r => from_item order (batch_item_id r) v).

Definition GetBidsAPI_conds (slotNum bidderAddr fromItem : option Z)
  (order : string) : list (BidRow -> bool) :=
  filter_opt slotNum (fun v r => bid_slot_num r =? v)
  ++ filter_opt bidderAddr (fun v r => bid_bidder_addr r =? v)
  ++ filter_opt fromItem (fun v r => from_item order (bid_item_id r) v).

Definition GetTxsAPI_conds
  (ethAddr bjj tokenID idx batchNum : option Z) (txType : option string)
  (fromItem : option Z) (order : string) : list (TxRow -> bool) :=
  conds (GetTxsAPI_filters ethAddr bjj tokenID idx batchNum txType fromItem
           order).

Definition GetExitsAPI_conds
  (ethAddr bjj tokenID idx batchNum : option Z)
  (onlyPendingWithdraws : option bool) (fromItem : option Z) (order : string)
  : list (ExitRow -> bool) :=
  match ethAddr, bjj with
  | Some a, _ => [fun r => exit_eth_addr r =? a]
  | None, Some j => [fun r => exit_bjj r =? j]
  | None, None => []
  end
  ++ filter_opt tokenID (fun v r => exit_token_id r =? v)
  ++ filter_opt idx (fun v r => exit_account_idx r =? v)
  ++ filter_opt batchNum (fun v r => exit_batch_num r =? v)
  ++ match onlyPendingWithdraws with
     | Some true =>
         [fun r => is_null (exit_instant_withdrawn r)
                   && is_null (exit_delayed_withdrawn r)]
     | _ => []
     end
  ++ filter_opt fromItem (fun v r => from_item order (exit_item_id r) v).

Definition GetCoordinatorsAPI_conds
  (bidderAddr forgerAddr fromItem : option Z) (order : string)
  : list (CoordinatorRow -> bool) :=
  filter_opt bidderAddr (fun v r => coordinator_bidder_addr r =? v)
  ++ filter_opt forgerAddr (fun v r => coordinator_forger_addr r =? v)
  ++ filter_opt fromItem (fun v r => from_item order (coordinator_item_id r) v).

Definition GetAccountsAPI_conds (tokenIDs : list Z)
  (ethAddr bjj fromItem : option Z) (order : string)
  : list (AccountRow -> bool) :=
  match ethAddr, bjj with
  | Some a, _ => [fun r => account_eth_addr r =? a]
  | None, Some j => [fun r => account_bjj r =? j]
  | None, None => []
  end
  ++ (if (0 <? Z.of_nat (length tokenIDs))
      then [fun r => existsb (Z.eqb (account_token_id r)) tokenIDs]
      else [])
  ++ filter_opt fromItem (fun v r => from_item order (account_item_id r) v).

(** The number of rows of a table that pass every condition. *)
Definition matching_rows {Row : Type} (rows : list Row)
  (cs : list (Row -> bool)) : Z :=
  Z.of_nat (length (filter (where_ cs) rows)).

(** The pending items that come with a page of the rows of a table that
    pass the conditions [cs]: none with an empty page; with any other page
    every row carries as [TotalItems] the number of rows of the table that
    pass the conditions, and the pending items are that number less the
    rows of the page. *)
Definition pending_ok {Row : Type} (rows : list Row) (cs : list (Row -> bool))
  (page : list (WithTotal Row)) (pendingItems : Z) : Prop :=
  (page = [] -> pendingItems = 0)
  /\ (page <> [] ->
      (forall w, In w page -> TotalItems w = matching_rows rows cs)
      /\ pendingItems = matching_rows rows cs - Z.of_nat (length page)
      /\ 0 <= pendingItems).

Lemma read_pending_ok {Row : Type} (item_id : Row -> Z) (hdb : HistoryDB)
  (rows : list Row) (cs : list (Row -> bool)) (order : string)
  (limit : option Z) (page : list (WithTotal Row)) (pendingItems : Z) :
  Z.of_nat (length rows) < 2 ^ 64 ->
  fst (withConn hdb
         match limit with
         | None => (Panic, [])
         | Some n => paginated (QueryAll hdb item_id rows cs order n)
         end) = Ok (page, pendingItems) ->
  pending_ok rows cs page pendingItems.
Proof.
  intros Hsize H. split.
  - intros ->. eapply read_empty_page. exact H.
  - intros Hne.
    destruct (withConn hdb _) as [r tr] eqn:Hw. cbn [fst] in H. subst r.
    apply withConn_Ok in Hw. destruct Hw as [tr' Hw].
    destruct limit as [n|]; [|discriminate].
    destruct (paginated_QueryAll item_id hdb rows cs order n page pendingItems
                tr' Hsize Hw Hne) as [Heq Hpos].
    unfold matching_rows. split; [|split; assumption].
    intros w Hin. unfold paginated, QueryAll in Hw.
    destruct (dbRead_error hdb); cbn [fst snd bind] in Hw; [discriminate|].
    destruct (select _ _ _ _ _) as [|w0 sel] eqn:Hsel;
      injection Hw as <- _ _; [contradiction|].
    rewrite <- Hsel in Hin. apply select_In in Hin. apply Hin.
Qed.

(** X9.  The six reads other than [GetTokensAPI], on tables of fewer than
    [2 ^ 64] rows.  With a page that is not empty, every row of the page
    carries as [TotalItems] the number of rows of the table of the read
    that pass its filters, and the pending items are that number less the
    number of rows of the page, which is never negative; with an empty
    page the pending items are 0, also when the page is empty because the
    limit is 0 and rows match. *)
Theorem reads_pendingItems (hdb : HistoryDB)
  (fromItem limit : option Z) (order : string) :
  table_sizes hdb ->
  (forall minBatchNum maxBatchNum slotNum forgerAddr page pendingItems,
     fst (GetBatchesAPI hdb minBatchNum maxBatchNum slotNum forgerAddr
            fromItem limit order) = Ok (page, pendingItems) ->
     pending_ok (batch_rows hdb)
       (GetBatchesAPI_conds minBatchNum maxBatchNum slotNum forgerAddr
          fromItem order) page pendingItems)
  /\ (forall slotNum bidderAddr page pendingItems,
        fst (GetBidsAPI hdb slotNum bidderAddr fromItem limit order)
        = Ok (page, pendingItems) ->
        pending_ok (bid_rows hdb)
          (GetBidsAPI_conds slotNum bidderAddr fromItem order)
          page pendingItems)
  /\ (forall ethAddr bjj tokenID idx batchNum txType page pendingItems,
        fst (GetTxsAPI hdb ethAddr bjj tokenID idx batchNum txType fromItem
               limit order) = Ok (page, pendingItems) ->
        pending_ok (tx_rows hdb)
          (GetTxsAPI_conds ethAddr bjj tokenID idx batchNum txType fromItem
             order) page pendingItems)
  /\ (forall ethAddr bjj tokenID idx batchNum onlyPending page pendingItems,
        fst (GetExitsAPI hdb ethAddr bjj tokenID idx batchNum onlyPending
               fromItem limit order) = Ok (page, pendingItems) ->
        pending_ok (exit_rows hdb)
          (GetExitsAPI_conds ethAddr bjj tokenID idx batchNum onlyPending
             fromItem order) page pendingItems)
  /\ (forall bidderAddr forgerAddr page pendingItems,
        fst (GetCoordinatorsAPI hdb bidderAddr forgerAddr fromItem limit
               order) = Ok (page, pendingItems) ->
        pending_ok (coordinator_rows hdb)
          (GetCoordinatorsAPI_conds bidderAddr forgerAddr fromItem order)
          page pendingItems)
  /\ (forall tokenIDs ethAddr bjj page pendingItems,
        fst (GetAccountsAPI hdb tokenIDs ethAddr bjj fromItem limit order)
        = Ok (page, pendingItems) ->
        pending_ok (account_rows hdb)
          (GetAccountsAPI_conds tokenIDs ethAddr bjj fromItem order)
          page pendingItems).
Proof.
  intros (Hbatch & Hbid & _ & Htx & Hexit & Hcoord & Hacc).
  split; [|split; [|split; [|split; [|split]]]].
  - intros * H.
    exact (read_pending_ok batch_item_id hdb _ _ order limit _ _ Hbatch H).
  - intros * H.
    exact (read_pending_ok bid_item_id hdb _ _ order limit _ _ Hbid H).
  - intros * H. unfold GetTxsAPI in H.
    destruct (negb (is_null ethAddr) && negb (is_null bjj)).
    + unfold withConn in H. destruct (Acquire hdb); discriminate.
    + exact (read_pending_ok tx_item_id hdb _ _ order limit _ _ Htx H).
  - intros * H. unfold GetExitsAPI in H.
    destruct (negb (is_null ethAddr) && negb (is_null bjj)); [discriminate|].
    exact (read_pending_ok exit_item_id hdb _ _ order limit _ _ Hexit H).
  - intros * H.
    exact (read_pending_ok coordinator_item_id hdb _ _ order limit _ _
             Hcoord H).
  - intros * H. unfold GetAccountsAPI in H.
    destruct (negb (is_null ethAddr) && negb (is_null bjj)); [discriminate|].
    exact (read_pending_ok account_item_id hdb _ _ order limit _ _ Hacc H).
Qed.

(** X10.  [GetTokensAPI] returns the right number of pending items
    exactly when nothing is pending.  With an empty page, and with a page
    that holds every matching row, it returns 0; with a page of [k] rows
    out of [t > k] matching rows it returns [2 ^ 64 - (t - k)]. *)
Theorem GetTokensAPI_pendingItems_spec
  (regex_match : string -> string -> bool) (hdb : HistoryDB)
  (ids : list Z) (symbols : list string) (name : string)
  (fromItem limit : option Z) (order : string)
  (page : list (WithTotal TokenRow)) (pendingItems : Z) :
  Z.of_nat (length (token_rows hdb)) < 2 ^ 64 ->
  fst (GetTokensAPI regex_match hdb ids symbols name fromItem limit order)
  = Ok (page, pendingItems) ->
  (page = [] -> pendingItems = 0)
  /\ (forall w, In w page ->
        Z.of_nat (length page) <= TotalItems w
        /\ (TotalItems w = Z.of_nat (length page) -> pendingItems = 0)
        /\ (Z.of_nat (length page) < TotalItems w ->
            pendingItems
            = 2 ^ 64 - (TotalItems w - Z.of_nat (length page)))).
Proof.
  intros Hsize H. split.
  - intros ->. unfold GetTokensAPI in H.
    destruct (withConn hdb _) as [r tr] eqn:Hw. cbn [fst] in H. subst r.
    apply withConn_Ok in Hw. destruct Hw as [tr' Hw].
    destruct limit as [n|]; [|discriminate].
    unfold QueryAll in Hw.
    destruct (dbRead_error hdb); cbn [fst snd bind] in Hw; [discriminate|].
    destruct (select _ _ _ _ _) as [|w0 sel];
      [injection Hw as Hq _; symmetry; exact Hq | discriminate].
  - intros w Hin.
    pose proof (GetTokensAPI_pendingItems regex_match hdb ids symbols name
                  fromItem limit order page pendingItems H w Hin) as Hp.
    assert (Hle : Z.of_nat (length page) <= TotalItems w
                  /\ TotalItems w < 2 ^ 64).
    { unfold GetTokensAPI in H.
      destruct (withConn hdb _) as [r tr] eqn:Hw. cbn [fst] in H. subst r.
      apply withConn_Ok in Hw. destruct Hw as [tr' Hw].
      destruct limit as [n|]; [|discriminate].
      unfold QueryAll in Hw.
      destruct (dbRead_error hdb); cbn [fst snd bind] in Hw; [discriminate|].
      match type of Hw with
      | context [select ?i ?rows ?cs ?asc ?n] =>
          pose proof (select_length _ i rows cs asc n) as Hl;
          pose proof (fun w => select_In i rows cs asc n w) as HIn;
          pose proof (filter_length_le (where_ cs) rows) as Hf;
          destruct (select i rows cs asc n) as [|w0 sel]
      end; injection Hw as <- _ _; [destruct Hin|].
      destruct (HIn w Hin) as (_ & _ & ->). lia. }
    destruct Hle as [Hle Hlt]. split; [exact Hle|].
    assert (Hpow : 2 ^ 64 = 18446744073709551616) by reflexivity.
    split.
    + intros Heq. rewrite Hp, Heq, Z.sub_diag. reflexivity.
    + intros Hgt. rewrite Hp.
      replace (Z.of_nat (length page) - TotalItems w)
        with (2 ^ 64 - (TotalItems w - Z.of_nat (length page))
              + (-1) * 2 ^ 64) by lia.
      rewrite Z.mod_add by lia. apply Z.mod_small. lia.
Qed.

(** A history database with three batches, stored out of order, and two
    tokens. *)
Definition hdb_batches (free : nat) : HistoryDB :=
  {| batch_rows :=
       [{| batch_item_id := 2; batch_batch_num := 2; batch_slot_num := 0;
           batch_forger_addr := 9 |};
        {| batch_item_id := 1; batch_batch_num := 1; batch_slot_num := 0;
           batch_forger_addr := 9 |};
        {| batch_item_id := 3; batch_batch_num := 3; batch_slot_num := 1;
           batch_forger_addr := 9 |}];
     bid_rows := []; token_rows := [token_ETH; token_HEZ];
     tx_rows := []; exit_rows := []; coordinator_rows := [];
     account_rows := []; dbRead_error := None; apiConnCon_free := free |}.

Lemma reads_pendingItems_witness :
  fst (GetBatchesAPI (hdb_batches 1) None None None None (Some 2) (Some 1)
         "DESC")
  = Ok ([{| item := {| batch_item_id := 2; batch_batch_num := 2;
                       batch_slot_num := 0; batch_forger_addr := 9 |};
            TotalItems := 2 |}], 1)
  /\ matching_rows (batch_rows (hdb_batches 1))
       (GetBatchesAPI_conds None None None None (Some 2) "DESC") = 2
  /\ pending_ok (batch_rows (hdb_batches 1))
       (GetBatchesAPI_conds None None None None (Some 2) "DESC")
       [{| item := {| batch_item_id := 2; batch_batch_num := 2;
                      batch_slot_num := 0; batch_forger_addr := 9 |};
           TotalItems := 2 |}] 1
  /\ fst (GetBatchesAPI (hdb_batches 1) None None None None (Some 2) (Some 0)
            "DESC") = Ok ([], 0).
Proof.
  split; [vm_compute; reflexivity|]. split; [vm_compute; reflexivity|].
  split; [|vm_compute; reflexivity].
  refine (proj1 (reads_pendingItems (hdb_batches 1) (Some 2) (Some 1) "DESC" _)
            None None None None _ _ _).
  - vm_compute. repeat split; reflexivity.
  - vm_compute. reflexivity.
Defined.

Lemma GetTokensAPI_pendingItems_spec_witness :
  (([{| item := token_ETH; TotalItems := 2 |}] : list (WithTotal TokenRow))
   = [] -> 2 ^ 64 - 1 = 0)
  /\ (forall w, In w [{| item := token_ETH; TotalItems := 2 |}] ->
        Z.of_nat (length [{| item := token_ETH; TotalItems := 2 |}])
        <= TotalItems w
        /\ (TotalItems w
            = Z.of_nat (length [{| item := token_ETH; TotalItems := 2 |}]) ->
            2 ^ 64 - 1 = 0)
        /\ (Z.of_nat (length [{| item := token_ETH; TotalItems := 2 |}])
            < TotalItems w ->
            2 ^ 64 - 1
            = 2 ^ 64
              - (TotalItems w
                 - Z.of_nat
                     (length [{| item := token_ETH; TotalItems := 2 |}])))).
Proof.
  apply (GetTokensAPI_pendingItems_spec (fun _ _ => true) (hdb_tokens 1)
           [] [] "" None (Some 1) "ASC").
  - vm_compute. reflexivity.
  - vm_compute. reflexivity.
Defined.

(** ** Reading page after page *)

(** The cursor of the page that follows a page whose last row has the
    item identifier [last]. *)
Definition next_item (order : string) (last : Z) : Z :=
  if String.eqb order OrderAsc then last + 1 else last - 1.

Lemma firstn_add_skipn {A : Type} (n m : nat) (l : list A) :
  firstn (n + m) l = firstn n l ++ firstn m (skipn n l).
Proof.
  revert l. induction n as [|n IH]; intros l; [reflexivity|].
  destruct l as [|x l]; cbn [Nat.add firstn skipn app].
  - rewrite firstn_nil. reflexivity.
  - rewrite IH. reflexivity.
Qed.

Lemma sorted_app_inv {A : Type} (R : A -> A -> Prop) (a b : list A) :
  StronglySorted R (a ++ b) ->
  StronglySorted R a /\ StronglySorted R b
  /\ forall x y, In x a -> In y b -> R x y.
Proof.
  induction a as [|x a IH]; cbn [app]; intros H.
  - split; [constructor|]. split; [exact H|]. intros ? ? [].
  - inversion H as [|? ? Hs Hx]; subst.
    destruct (IH Hs) as (Ha & Hb & Hab).
    apply Forall_app in Hx. destruct Hx as [Hxa Hxb].
    split; [constructor; assumption|]. split; [exact Hb|].
    intros y z [<-|Hy] Hz.
    + rewrite Forall_forall in Hxb. apply Hxb, Hz.
    + apply Hab; assumption.
Qed.

Lemma NoDup_app_inv {A : Type} (a b : list A) :
  NoDup (a ++ b) ->
  NoDup a /\ NoDup b /\ forall x, In x a -> In x b -> False.
Proof.
  induction a as [|x a IH]; cbn [app]; intros H.
  - split; [constructor|]. split; [exact H|]. intros ? [].
  - inversion H as [|? ? Hx Hn]; subst.
    destruct (IH Hn) as (Ha & Hb & Hab).
    split.
    + constructor; [|exact Ha]. intros Hin. apply Hx, in_or_app. auto.
    + split; [exact Hb|]. intros y [<-|Hy] Hyb.
      * apply Hx, in_or_app. auto.
      * apply (Hab y); assumption.
Qed.

Section NextPage.

Variable Row : Type.
Variable item_id : Row -> Z.

Lemma insert_by_perm (asc : bool) (r : Row) (l : list Row) :
  Permutation (r :: l) (insert_by Row item_id asc r l).
Proof.
  induction l as [|x l IH]; cbn [insert_by]; [reflexivity|].
  destruct (if asc then _ else _); [reflexivity|].
  eapply perm_trans; [apply perm_swap|]. apply perm_skip, IH.
Qed.

Lemma order_by_item_id_perm (asc : bool) (l : list Row) :
  Permutation l (order_by_item_id Row item_id asc l).
Proof.
  induction l as [|x l IH]; [constructor|].
  cbn [order_by_item_id fold_right].
  eapply perm_trans; [apply perm_skip, IH | apply insert_by_perm].
Qed.

Lemma NoDup_map_filter (f : Row -> bool) (l : list Row) :
  NoDup (map item_id l) -> NoDup (map item_id (filter f l)).
Proof.
  induction l as [|x l IH]; cbn [map filter]; intros H; [constructor|].
  inversion H as [|? ? Hx Hn]; subst.
  destruct (f x); cbn [map]; [|apply IH; exact Hn].
  constructor; [|apply IH; exact Hn].
  intros Hin. apply Hx. apply in_map_iff in Hin.
  destruct Hin as (y & Hy & Hin). apply filter_In in Hin.
  apply in_map_iff. exists y. tauto.
Qed.

(** Two lists sorted by item identifiers that are all different, holding
    the same rows, are the same list. *)
Lemma sorted_unique (asc : bool) (l1 l2 : list Row) :
  StronglySorted (by_item_id Row item_id asc) l1 ->
  StronglySorted (by_item_id Row item_id asc) l2 ->
  NoDup (map item_id l1) -> NoDup (map item_id l2) ->
  (forall x, In x l1 <-> In x l2) ->
  l1 = l2.
Proof.
  revert l2. induction l1 as [|x1 l1 IH]; intros l2 Hs1 Hs2 Hn1 Hn2 Hin.
  - destruct l2 as [|x2 l2]; [reflexivity|].
    destruct (proj2 (Hin x2) (or_introl eq_refl)).
  - destruct l2 as [|x2 l2];
      [destruct (proj1 (Hin x1) (or_introl eq_refl))|].
    inversion Hs1 as [|? ? Hs1' Hx1]; subst.
    inversion Hs2 as [|? ? Hs2' Hx2]; subst.
    cbn [map] in Hn1, Hn2.
    inversion Hn1 as [|? ? Hd1 Hn1']; subst.
    inversion Hn2 as [|? ? Hd2 Hn2']; subst.
    rewrite Forall_forall in Hx1, Hx2.
    assert (Heq : x1 = x2).
    { destruct (proj1 (Hin x1) (or_introl eq_refl)) as [E|H12]; [auto|].
      destruct (proj2 (Hin x2) (or_introl eq_refl)) as [E|H21]; [auto|].
      exfalso. apply Hd1.
      assert (Hid : item_id x1 = item_id x2).
      { pose proof (Hx2 x1 H12) as Ha. pose proof (Hx1 x2 H21) as Hb.
        unfold by_item_id in Ha, Hb. destruct asc; lia. }
      rewrite Hid. apply in_map. exact H21. }
    subst x2. f_equal. apply IH; try assumption.
    intros x. split; intros Hx.
    + destruct (proj1 (Hin x) (or_intror Hx)) as [E|H]; [|exact H].
      subst x. exfalso. apply Hd1, in_map, Hx.
    + destruct (proj2 (Hin x) (or_intror Hx)) as [E|H]; [|exact H].
      subst x. exfalso. apply Hd2, in_map, Hx.
Qed.

(** The rows that follow the first [n] rows of a query are the rows that
    the query selects from the cursor after the [n]th row. *)
Lemma select_next_page (rows : list Row) (cs1 cs2 : list (Row -> bool))
  (order : string) (n m : Z) (pre : list Row) (last : Row) :
  NoDup (map item_id rows) ->
  0 <= n -> 0 <= m ->
  map item (select item_id rows cs1 (String.eqb order OrderAsc) n)
  = pre ++ [last] ->
  (forall r,
     where_ cs2 r
     = where_ cs1 r
       && from_item order (item_id r) (next_item order (item_id last))) ->
  map item (select item_id rows cs1 (String.eqb order OrderAsc) (n + m))
  = map item (select item_id rows cs1 (String.eqb order OrderAsc) n)
    ++ map item (select item_id rows cs2 (String.eqb order OrderAsc) m).
Proof.
  intros Hnd Hn Hm Hpage Hcs. rewrite !select_items in *.
  set (asc := String.eqb order OrderAsc) in *.
  set (L := order_by_item_id Row item_id asc (filter (where_ cs1) rows)) in *.
  rewrite Z2Nat.inj_add, firstn_add_skipn by lia. f_equal. f_equal.
  assert (HsL : StronglySorted (by_item_id Row item_id asc) L)
    by apply order_by_item_id_sorted.
  assert (HnL : NoDup (map item_id L)).
  { eapply Permutation_NoDup;
      [apply Permutation_map, order_by_item_id_perm|].
    apply NoDup_map_filter, Hnd. }
  rewrite <- (firstn_skipn (Z.to_nat n) L) in HsL, HnL.
  rewrite Hpage in HsL, HnL.
  apply sorted_app_inv in HsL. destruct HsL as (Hs1 & Hs2 & H12).
  apply sorted_app_inv in Hs1. destruct Hs1 as (_ & _ & Hpl).
  rewrite map_app in HnL. apply NoDup_app_inv in HnL.
  destruct HnL as (_ & Hn2 & Hd).
  apply (sorted_unique asc); try assumption.
  - apply order_by_item_id_sorted.
  - eapply Permutation_NoDup;
      [apply Permutation_map, order_by_item_id_perm|].
    apply NoDup_map_filter, Hnd.
  - intros x.
    assert (HL : In x L <-> In x rows /\ where_ cs1 x = true).
    { subst L. rewrite <- filter_In. split; intros H.
      - eapply Permutation_in;
          [apply Permutation_sym, order_by_item_id_perm | exact H].
      - eapply Permutation_in; [apply order_by_item_id_perm | exact H]. }
    assert (H2 : In x (order_by_item_id Row item_id asc
                         (filter (where_ cs2) rows))
                 <-> In x rows /\ where_ cs2 x = true).
    { rewrite <- filter_In. split; intros H.
      - eapply Permutation_in;
          [apply Permutation_sym, order_by_item_id_perm | exact H].
      - eapply Permutation_in; [apply order_by_item_id_perm | exact H]. }
    rewrite H2, Hcs, andb_true_iff.
    unfold from_item, next_item. fold asc.
    split.
    + intros Hx.
      assert (HxL : In x L).
      { rewrite <- (firstn_skipn (Z.to_nat n) L). apply in_or_app. auto. }
      apply HL in HxL. split; [exact (proj1 HxL)|].
      split; [exact (proj2 HxL)|].
      assert (Hlast : In last (pre ++ [last]))
        by (apply in_or_app; right; left; reflexivity).
      pose proof (H12 last x Hlast Hx) as Hord.
      assert (Hne : item_id last <> item_id x).
      { intros E. apply (Hd (item_id x)).
        - rewrite <- E. apply in_map, in_or_app. right. left. reflexivity.
        - apply in_map, Hx. }
      unfold by_item_id in Hord. destruct asc; lia.
    + intros (Hrow & Hc1 & Hcur).
      assert (HxL : In x L) by (apply HL; auto).
      rewrite <- (firstn_skipn (Z.to_nat n) L), Hpage in HxL.
      apply in_app_or in HxL. destruct HxL as [Hx|Hx]; [exfalso|exact Hx].
      assert (Hord : by_item_id Row item_id asc x last).
      { apply in_app_or in Hx. destruct Hx as [Hx|[<-|[]]].
        - apply Hpl; [exact Hx | left; reflexivity].
        - unfold by_item_id. destruct asc; lia. }
      unfold by_item_id in Hord. destruct asc; lia.
Qed.

End NextPage.

Section ReadNextPage.

Variable Row : Type.
Variable item_id : Row -> Z.

(** The tail of a read, which returns the rows of the query with a number
    of pending items. *)
Variable tail :
  result (list (WithTotal Row)) * list event ->
  result (list (WithTotal Row) * Z) * list event.
Variable pend : list (WithTotal Row) -> Z.
Hypothesis tail_fst :
  forall q, fst (tail q) = (rows <- fst q ;; Ok (rows, pend rows)).

Lemma read_tail_Ok (hdb : HistoryDB) (rows : list Row)
  (cs : list (Row -> bool)) (order : string) (limit : option Z)
  (page : list (WithTotal Row)) (pendingItems : Z) :
  fst (withConn hdb
         match limit with
         | None => (Panic, [])
         | Some n => tail (QueryAll hdb item_id rows cs order n)
         end) = Ok (page, pendingItems) ->
  exists n,
    limit = Some n
    /\ page = select item_id rows cs (String.eqb order OrderAsc) n
    /\ apiConnCon_free hdb <> 0%nat /\ dbRead_error hdb = None.
Proof.
  unfold withConn, Acquire.
  destruct (apiConnCon_free hdb) as [|k]; [discriminate|]. cbn [fst].
  destruct limit as [n|]; [|discriminate].
  rewrite tail_fst. unfold QueryAll.
  destruct (dbRead_error hdb); cbn [fst bind]; [discriminate|].
  intros [= <- _]. exists n. repeat split. discriminate.
Qed.

Lemma read_tail_run (hdb : HistoryDB) (rows : list Row)
  (cs : list (Row -> bool)) (order : string) (n : Z) :
  apiConnCon_free hdb <> 0%nat -> dbRead_error hdb = None ->
  fst (withConn hdb
         match Some n with
         | None => (Panic, [])
         | Some n => tail (QueryAll hdb item_id rows cs order n)
         end)
  = Ok (select item_id rows cs (String.eqb order OrderAsc) n,
        pend (select item_id rows cs (String.eqb order OrderAsc) n)).
Proof.
  intros Hfree Herr. unfold withConn, Acquire.
  destruct (apiConnCon_free hdb); [contradiction|]. cbn [fst].
  rewrite tail_fst. unfold QueryAll. rewrite Herr. reflexivity.
Qed.

Lemma read_next_page (hdb : HistoryDB) (rows : list Row)
  (cs1 cs2 : list (Row -> bool)) (order : string) (n m : Z)
  (page1 pre : list (WithTotal Row)) (p1 : Z) (w : WithTotal Row) :
  NoDup (map item_id rows) ->
  0 <= n -> 0 <= m ->
  fst (withConn hdb
         match Some n with
         | None => (Panic, [])
         | Some n => tail (QueryAll hdb item_id rows cs1 order n)
         end) = Ok (page1, p1) ->
  page1 = pre ++ [w] ->
  (forall r,
     where_ cs2 r
     = where_ cs1 r
       && from_item order (item_id r)
            (next_item order (item_id (item w)))) ->
  exists page2 p2 page12 p12,
    fst (withConn hdb
           match Some m with
           | None => (Panic, [])
           | Some n => tail (QueryAll hdb item_id rows cs2 order n)
           end) = Ok (page2, p2)
    /\ fst (withConn hdb
              match Some (n + m) with
              | None => (Panic, [])
              | Some n => tail (QueryAll hdb item_id rows cs1 order n)
              end) = Ok (page12, p12)
    /\ map item page12 = map item page1 ++ map item page2.
Proof.
  intros Hnd Hn Hm H1 Hpage Hcs.
  apply read_tail_Ok in H1.
  destruct H1 as (n' & [= <-] & Hp1 & Hfree & Herr).
  do 4 eexists.
  split; [apply read_tail_run; assumption|].
  split; [apply read_tail_run; assumption|].
  rewrite Hp1.
  apply (select_next_page Row item_id rows cs1 cs2 order n m
           (map item pre) (item w)); try assumption.
  rewrite <- Hp1, Hpage, map_app. reflexivity.
Qed.

End ReadNextPage.

(** The reads of a table continue each other: when a read from the start
    with the limit [n] returns a page that ends with the row [w], the read
    from the cursor next to [w] with the limit [m] returns the rows that
    the read from the start with the limit [n + m] returns after that
    page. *)
Definition continues {Row : Type} (item_id : Row -> Z) (order : string)
  (read : option Z -> Z -> result (list (WithTotal Row) * Z) * list event)
  (n m : Z) : Prop :=
  forall page1 p1 pre w,
    fst (read None n) = Ok (page1, p1) ->
    page1 = pre ++ [w] ->
    exists page2 p2 page12 p12,
      fst (read (Some (next_item order (item_id (item w)))) m)
      = Ok (page2, p2)
      /\ fst (read None (n + m)) = Ok (page12, p12)
      /\ map item page12 = map item page1 ++ map item page2.

Lemma paginated_fst {Row : Type}
  (q : result (list (WithTotal Row)) * list event) :
  fst (paginated q)
  = (rows <- fst q ;;
     Ok (rows,
         match rows with
         | [] => 0
         | row0 :: _ => sub64 (TotalItems row0) (Z.of_nat (length rows))
         end)).
Proof.
  unfold paginated. cbn [fst]. destruct (fst q) as [[|row0 rows]| |];
    reflexivity.
Qed.

(** The conditions of a read from a cursor are those of the read from the
    start and the cursor. *)
Ltac cursor_split :=
  intros r; unfold where_;
  cbn [filter_opt add_condition_opt add_condition conds];
  rewrite ?forallb_app; cbn [forallb]; btauto.

Ltac next_page_of Row item_id tail tail_lemma :=
  intros page1 p1 pre w H1 Hpage; cbv beta zeta in H1 |- *;
  eapply (read_next_page Row item_id tail _ tail_lemma);
  [ eassumption | eassumption | eassumption
  | exact H1 | exact Hpage | cursor_split ].

(** The tail of [GetTokensAPI]. *)
Definition tokens_tail
  (q : result (list (WithTotal TokenRow)) * list event)
  : result (list (WithTotal TokenRow) * Z) * list event :=
  (tokens <- fst q ;;
   match tokens with
   | [] => Ok ([], 0)
   | token0 :: _ =>
       Ok (tokens, sub64 (Z.of_nat (length tokens)) (TotalItems token0))
   end,
   snd q).

Lemma tokens_tail_fst
  (q : result (list (WithTotal TokenRow)) * list event) :
  fst (tokens_tail q)
  = (rows <- fst q ;;
     Ok (rows,
         match rows with
         | [] => 0
         | token0 :: _ => sub64 (Z.of_nat (length rows)) (TotalItems token0)
         end)).
Proof.
  unfold tokens_tail. cbn [fst]. destruct (fst q) as [[|row0 rows]| |];
    reflexivity.
Qed.

(** X11.  Consecutive pages are adjacent.  In a table whose item
    identifiers are all different, when one of the seven reads, from the
    start and with the limit [n], returns a page that ends with the row
    [w], the same read from the cursor [item_id w + 1] in ascending order,
    or [item_id w - 1] in descending order, with the limit [m] returns
    exactly the rows that follow that page in the read from the start
    with the limit [n + m]: no row is skipped and none comes twice. *)
Theorem reads_next_page (regex_match : string -> string -> bool)
  (hdb : HistoryDB) (order : string) (n m : Z) :
  0 <= n -> 0 <= m ->
  (NoDup (map batch_item_id (batch_rows hdb)) ->
   forall minBatchNum maxBatchNum slotNum forgerAddr,
     continues batch_item_id order
       (fun fromItem limit =>
          GetBatchesAPI hdb minBatchNum maxBatchNum slotNum forgerAddr
            fromItem (Some limit) order) n m)
  /\ (NoDup (map bid_item_id (bid_rows hdb)) ->
      forall slotNum bidderAddr,
        continues bid_item_id order
          (fun fromItem limit =>
             GetBidsAPI hdb slotNum bidderAddr fromItem (Some limit) order)
          n m)
  /\ (NoDup (map token_item_id (token_rows hdb)) ->
      forall ids symbols name,
        continues token_item_id order
          (fun fromItem limit =>
             GetTokensAPI regex_match hdb ids symbols name fromItem
               (Some limit) order) n m)
  /\ (NoDup (map tx_item_id (tx_rows hdb)) ->
      forall ethAddr bjj tokenID idx batchNum txType,
        continues tx_item_id order
          (fun fromItem limit =>
             GetTxsAPI hdb ethAddr bjj tokenID idx batchNum txType fromItem
               (Some limit) order) n m)
  /\ (NoDup (map exit_item_id (exit_rows hdb)) ->
      forall ethAddr bjj tokenID idx batchNum onlyPending,
        continues exit_item_id order
          (fun fromItem limit =>
             GetExitsAPI hdb ethAddr bjj tokenID idx batchNum onlyPending
               fromItem (Some limit) order) n m)
  /\ (NoDup (map coordinator_item_id (coordinator_rows hdb)) ->
      forall bidderAddr forgerAddr,
        continues coordinator_item_id order
          (fun fromItem limit =>
             GetCoordinatorsAPI hdb bidderAddr forgerAddr fromItem
               (Some limit) order) n m)
  /\ (NoDup (map account_item_id (account_rows hdb)) ->
      forall tokenIDs ethAddr bjj,
        continues account_item_id order
          (fun fromItem limit =>
             GetAccountsAPI hdb tokenIDs ethAddr bjj fromItem (Some limit)
               order) n m).
Proof.
  intros Hn Hm.
  split; [|split; [|split; [|split; [|split; [|split]]]]]; intros Hnd *.
  - unfold continues, GetBatchesAPI.
    next_page_of BatchRow batch_item_id (@paginated BatchRow)
      (@paginated_fst BatchRow).
  - unfold continues, GetBidsAPI.
    next_page_of BidRow bid_item_id (@paginated BidRow)
      (@paginated_fst BidRow).
  - unfold continues, GetTokensAPI. fold tokens_tail.
    next_page_of TokenRow token_item_id tokens_tail tokens_tail_fst.
  - unfold continues, GetTxsAPI.
    destruct (negb (is_null ethAddr) && negb (is_null bjj)).
    + intros page1 p1 pre w H1. unfold withConn in H1.
      destruct (Acquire hdb); discriminate.
    + unfold GetTxsAPI_filters.
      destruct ethAddr, bjj;
        next_page_of TxRow tx_item_id (@paginated TxRow)
          (@paginated_fst TxRow).
  - unfold continues, GetExitsAPI.
    destruct (negb (is_null ethAddr) && negb (is_null bjj));
      [intros page1 p1 pre w H1; discriminate|].
    destruct ethAddr, bjj;
      next_page_of ExitRow exit_item_id (@paginated ExitRow)
        (@paginated_fst ExitRow).
  - unfold continues, GetCoordinatorsAPI.
    next_page_of CoordinatorRow coordinator_item_id
      (@paginated CoordinatorRow) (@paginated_fst CoordinatorRow).
  - unfold continues, GetAccountsAPI.
    destruct (negb (is_null ethAddr) && negb (is_null bjj));
      [intros page1 p1 pre w H1; discriminate|].
    destruct ethAddr, bjj;
      next_page_of AccountRow account_item_id (@paginated AccountRow)
        (@paginated_fst AccountRow).
Qed.

(** The batches of [hdb_batches] read in ascending order, one row at a
    time: the page after the batch 1 is the batch 2. *)
Definition batch_1 : WithTotal BatchRow :=
  {| item := {| batch_item_id := 1; batch_batch_num := 1;
                batch_slot_num := 0; batch_forger_addr := 9 |};
     TotalItems := 3 |}.

Lemma reads_next_page_witness :
  exists page2 p2 page12 p12,
    fst (GetBatchesAPI (hdb_batches 1) None None None None
           (Some (next_item "ASC" 1)) (Some 1) "ASC") = Ok (page2, p2)
    /\ fst (GetBatchesAPI (hdb_batches 1) None None None None None
              (Some (1 + 1)) "ASC") = Ok (page12, p12)
    /\ map item page12 = map item [batch_1] ++ map item page2.
Proof.
  refine (proj1 (reads_next_page (fun _ _ => true) (hdb_batches 1) "ASC"
                   1 1 _ _) _ None None None None [batch_1] 2 [] batch_1
            _ eq_refl).
  - lia.
  - lia.
  - cbn. repeat constructor; cbn; intuition discriminate.
  - vm_compute. reflexivity.
Defined.

End HistoryDB.

(** * synchronizer: reorg and Status *)

Module Synchronizer.

(** ** The stores and the Ethereum client *)

(** A batch as the history database keeps it, with the block in which it
    was forged. *)
Record Batch : Type := {
  BatchNum : Z;
  Batch_EthBlockNum : Z
}.

(** The history database, reduced to its blocks and batches. *)
Record HistoryDB : Type := {
  blocks : list Block;
  batches : list Batch
}.

(** Modelled from the spec: [HistoryDB.GetBlock(num)], whose source is not
    available; it gives the stored block of that number, and
    [sql.ErrNoRows] when there is none. *)
Definition GetBlock (hdb : HistoryDB) (blockNum : Z) : result Block :=
  match find (fun b => EthBlockNum b =? blockNum) (blocks hdb) with
  | Some b => Ok b
  | None => Err ErrNoRows
  end.

(** The block of the highest number in a list, if any. *)
Definition last_block (l : list Block) : option Block :=
  fold_right (fun b acc =>
                match acc with
                | Some b' => if EthBlockNum b' <? EthBlockNum b
                             then Some b else Some b'
                | None => Some b
                end) None l.

(** Modelled from the spec: [HistoryDB.GetLastBlock], whose source is not
    available; it retrieves the block with the highest block number, and
    [sql.ErrNoRows] when the store has no block. *)
Definition GetLastBlock (hdb : HistoryDB) : result Block :=
  match last_block (blocks hdb) with
  | Some b => Ok b
  | None => Err ErrNoRows
  end.

(** Modelled from the spec: [HistoryDB.GetLastBatchNum], whose source is
    not available; it gives the highest batch number, and with no batch it
    gives 0 together with [sql.ErrNoRows], the case that its callers set
    apart. *)
Definition GetLastBatchNum (hdb : HistoryDB) : Z * option error :=
  match batches hdb with
  | [] => (0, Some ErrNoRows)
  | b :: l => (fold_right Z.max (BatchNum b) (map BatchNum l), None)
  end.

(** Modelled from the spec: [HistoryDB.Reorg], whose source is not
    available.  "[Reorg(fromBlockNum)] deletes every row with
    [eth_block_num > fromBlockNum] cascading through batches, txs, and
    derived tables". *)
Definition Reorg (hdb : HistoryDB) (fromBlockNum : Z) : result HistoryDB :=
  Ok {| blocks := filter (fun b => EthBlockNum b <=? fromBlockNum) (blocks hdb);
        batches := filter (fun b => Batch_EthBlockNum b <=? fromBlockNum)
                     (batches hdb) |}.

(** The state database: the batch of the current root and the batches
    that have a checkpoint. *)
Record StateDB : Type := {
  currentBatch : Z;
  checkpoints : list Z
}.

(** Modelled from the spec: [StateDB.Reset], whose source is not
    available.  "[Reset(batchNum)] restores current root to [CheckpointN];
    all checkpoints [> N] are discarded"; a checkpoint exists for the
    batches that were processed only. *)
Definition Reset (sdb : StateDB) (batchNum : Z) : result StateDB :=
  if existsb (Z.eqb batchNum) (checkpoints sdb)
  then Ok {| currentBatch := batchNum;
             checkpoints := filter (fun n => n <=? batchNum) (checkpoints sdb) |}
  else Err (ErrMsg "checkpoint not found").

(** The Ethereum client: the block of the canonical chain at a height, and
    the height of its head. *)
Record EthClient : Type := {
  EthBlockByNumber : Z -> result Block;
  EthCurrentBlock : result Z
}.

(** [Synchronizer]; the mutex, which serializes the calls, is left out. *)
Record Synchronizer : Type := {
  ethClient : EthClient;
  historyDB : HistoryDB;
  stateDB : StateDB;
  firstSavedBlock : Block
}.

Definition set_historyDB (s : Synchronizer) (hdb : HistoryDB) : Synchronizer :=
  {| ethClient := ethClient s; historyDB := hdb; stateDB := stateDB s;
     firstSavedBlock := firstSavedBlock s |}.

Definition set_stateDB (s : Synchronizer) (sdb : StateDB) : Synchronizer :=
  {| ethClient := ethClient s; historyDB := historyDB s; stateDB := sdb;
     firstSavedBlock := firstSavedBlock s |}.

(** ** [reorg] *)

(** The loop [for !found && blockNum > s.firstSavedBlock.EthBlockNum] of
    [reorg], at [blockNum = firstSavedBlock.EthBlockNum + k]: [k] is the
    number of heights that the condition on [blockNum] still admits, and
    it decreases with [blockNum--].  The loop gives the block at which
    [found] became true, or none when it ran out of heights. *)
Fixpoint reorg_loop (s : Synchronizer) (k : nat) : result (option Block) :=
  match k with
  | O => Ok None
  | S k' =>
      let blockNum := EthBlockNum (firstSavedBlock s) + Z.of_nat (S k') in
      ethBlock <- EthBlockByNumber (ethClient s) blockNum ;;
      block <- GetBlock (historyDB s) blockNum ;;
      if Hash block =? Hash ethBlock
      then Ok (Some block)
      else reorg_loop s k'
  end.

(** [reorg] manages a reorg, updating History and State DB as needed.  It
    gives the synchronizer after the call and what the call returns: [Ok]
    for a nil error. *)
Definition reorg (s : Synchronizer) (uncleBlock : Block)
  : Synchronizer * result unit :=
  let blockNum := EthBlockNum uncleBlock in
  match reorg_loop s
          (Z.to_nat (blockNum - EthBlockNum (firstSavedBlock s))) with
  | Panic => (s, Panic)
  | Err err => (s, Err err)
  | Ok None => (s, Err ErrNotAbleToSync)
  | Ok (Some block) =>
      (* Set History DB and State DB to the correct state *)
      match Reorg (historyDB s) (EthBlockNum block) with
      | Panic => (s, Panic)
      | Err err => (s, Err err)
      | Ok hdb =>
          let s := set_historyDB s hdb in
          let (batchNum, err) := GetLastBatchNum (historyDB s) in
          match err with
          | Some ErrNoRows | None =>
              if negb (batchNum =? 0)
              then
                match Reset (stateDB s) batchNum with
                | Panic => (s, Panic)
                | Err err => (s, Err err)
                | Ok sdb => (set_stateDB s sdb, Ok tt)
                end
              else (s, Ok tt)
          | Some err => (s, Err err)
          end
      end
  end.

(** ** [Status] *)

(** [Status] is returned by the [Status] method. *)
Record Status : Type := {
  CurrentBlock : Z;
  CurrentBatch : Z;
  CurrentForgerAddr : Z;
  NextForgerAddr : Z;
  Synchronized : bool
}.

(** A [*Status]: nil, or the address of a [Status] with its content. *)
Definition StatusPtr : Type := option Status.

(** [status.field = v]: a write through a nil pointer panics. *)
Definition store (status : StatusPtr) (upd : Status -> Status)
  : result StatusPtr :=
  match status with
  | None => Panic
  | Some st => Ok (Some (upd st))
  end.

(** [status.field]: a read through a nil pointer panics. *)
Definition load {A : Type} (status : StatusPtr) (get : Status -> A) : result A :=
  match status with
  | None => Panic
  | Some st => Ok (get st)
  end.

(** [Status] returns current status values from the Synchronizer. *)
Definition Synchronizer_Status (s : Synchronizer) : result StatusPtr :=
  (* var status *Status *)
  let status : StatusPtr := None in
  (* Get latest block in History DB *)
  lastSavedBlock <- GetLastBlock (historyDB s) ;;
  status <- store status
              (fun st => {| CurrentBlock := EthBlockNum lastSavedBlock;
                            CurrentBatch := CurrentBatch st;
                            CurrentForgerAddr := CurrentForgerAddr st;
                            NextForgerAddr := NextForgerAddr st;
                            Synchronized := Synchronized st |}) ;;
  (* Get latest batch in History DB *)
  let (lastSavedBatch, err) := GetLastBatchNum (historyDB s) in
  match err with
  | Some ErrNoRows | None =>
      status <- store status
                  (fun st => {| CurrentBlock := CurrentBlock st;
                                CurrentBatch := lastSavedBatch;
                                CurrentForgerAddr := CurrentForgerAddr st;
                                NextForgerAddr := NextForgerAddr st;
                                Synchronized := Synchronized st |}) ;;
      (* Get latest blockNum in blockchain *)
      latestBlockNum <- EthCurrentBlock (ethClient s) ;;
      (* Check if Synchronizer is synchronized *)
      currentBlock <- load status CurrentBlock ;;
      status <- store status
                  (fun st => {| CurrentBlock := CurrentBlock st;
                                CurrentBatch := CurrentBatch st;
                                CurrentForgerAddr := CurrentForgerAddr st;
                                NextForgerAddr := NextForgerAddr st;
                                Synchronized := currentBlock =? latestBlockNum |}) ;;
      Ok status
  | Some err => Err err
  end.

(** ** Properties of [reorg] *)

(** At height [n] the chain and the history both have a block, and the
    hashes differ. *)
Definition differ_at (s : Synchronizer) (n : Z) : Prop :=
  exists ethBlock block,
    EthBlockByNumber (ethClient s) n = Ok ethBlock
    /\ GetBlock (historyDB s) n = Ok block
    /\ Hash block <> Hash ethBlock.

(** At height [n] the chain and the history both have a block, and the
    hashes are the same. *)
Definition match_at (s : Synchronizer) (n : Z) : Prop :=
  exists ethBlock block,
    EthBlockByNumber (ethClient s) n = Ok ethBlock
    /\ GetBlock (historyDB s) n = Ok block
    /\ Hash block = Hash ethBlock.

(** [m] is the highest number of the batches forged at or below height
    [h]. *)
Definition last_batch_at_or_below (hdb : HistoryDB) (h m : Z) : Prop :=
  (exists b, In b (batches hdb) /\ Batch_EthBlockNum b <= h /\ BatchNum b = m)
  /\ (forall b, In b (batches hdb) -> Batch_EthBlockNum b <= h ->
      BatchNum b <= m).

Definition no_batch_at_or_below (hdb : HistoryDB) (h : Z) : Prop :=
  forall b, In b (batches hdb) -> ~ Batch_EthBlockNum b <= h.

(** The history truncated to height [h]. *)
Definition truncated (hdb : HistoryDB) (h : Z) : HistoryDB :=
  {| blocks := filter (fun b => EthBlockNum b <=? h) (blocks hdb);
     batches := filter (fun b => Batch_EthBlockNum b <=? h) (batches hdb) |}.

Lemma truncated_blocks (hdb : HistoryDB) (h : Z) (b : Block) :
  In b (blocks (truncated hdb h)) <-> In b (blocks hdb) /\ EthBlockNum b <= h.
Proof. cbn. rewrite filter_In, Z.leb_le. reflexivity. Qed.

Lemma truncated_batches (hdb : HistoryDB) (h : Z) (b : Batch) :
  In b (batches (truncated hdb h))
  <-> In b (batches hdb) /\ Batch_EthBlockNum b <= h.
Proof. cbn. rewrite filter_In, Z.leb_le. reflexivity. Qed.

Lemma GetBlock_num (hdb : HistoryDB) (n : Z) (b : Block) :
  GetBlock hdb n = Ok b -> EthBlockNum b = n /\ In b (blocks hdb).
Proof.
  unfold GetBlock. destruct (find _ _) as [b'|] eqn:Hfind; [|discriminate].
  intros [= <-]. apply find_some in Hfind. destruct Hfind as [Hin Heq].
  apply Z.eqb_eq in Heq. auto.
Qed.

Lemma fold_max_spec (l : list Z) (x0 : Z) :
  let m := fold_right Z.max x0 l in
  (m = x0 \/ In m l) /\ x0 <= m /\ (forall y, In y l -> y <= m).
Proof.
  induction l as [|x l IH]; cbn.
  - split; [auto|]. split; [lia|]. intros y [].
  - destruct IH as (Hin & Hle & Hall).
    set (m := fold_right Z.max x0 l) in *.
    split; [|split].
    + destruct (Z.max_spec x m) as [[_ ->]|[_ ->]]; tauto.
    + lia.
    + intros y [<-|Hy]; [lia|]. specialize (Hall y Hy). lia.
Qed.

Lemma GetLastBatchNum_none (hdb : HistoryDB) :
  batches hdb = [] -> GetLastBatchNum hdb = (0, Some ErrNoRows).
Proof. unfold GetLastBatchNum. intros ->. reflexivity. Qed.

Lemma GetLastBatchNum_max (hdb : HistoryDB) (m : Z) :
  (exists b, In b (batches hdb) /\ BatchNum b = m) ->
  (forall b, In b (batches hdb) -> BatchNum b <= m) ->
  GetLastBatchNum hdb = (m, None).
Proof.
  intros (b0 & Hin0 & Hm) Hmax. unfold GetLastBatchNum.
  destruct (batches hdb) as [|b l]; [destruct Hin0|].
  f_equal.
  destruct (fold_max_spec (map BatchNum l) (BatchNum b)) as (Hin & Hle & Hall).
  set (m' := fold_right Z.max (BatchNum b) (map BatchNum l)) in *.
  assert (Hm' : m' <= m).
  { destruct Hin as [->|Hin]; [apply Hmax; left; reflexivity|].
    apply in_map_iff in Hin. destruct Hin as (b' & <- & Hb').
    apply Hmax. right. exact Hb'. }
  assert (Hm2 : m <= m').
  { subst m. destruct Hin0 as [->|Hin0]; [exact Hle|].
    apply Hall, in_map. exact Hin0. }
  lia.
Qed.


Lemma reorg_loop_found (s : Synchronizer) (k : nat) (h : Z)
  (ethBlock block : Block) :
  EthBlockNum (firstSavedBlock s) < h
  <= EthBlockNum (firstSavedBlock s) + Z.of_nat k ->
  (forall n, h < n <= EthBlockNum (firstSavedBlock s) + Z.of_nat k ->
             differ_at s n) ->
  EthBlockByNumber (ethClient s) h = Ok ethBlock ->
  GetBlock (historyDB s) h = Ok block ->
  Hash block = Hash ethBlock ->
  reorg_loop s k = Ok (Some block).
Proof.
  intros Hh Hdiff Heth Hget Hhash.
  induction k as [|k IH]; [lia|].
  cbn [reorg_loop].
  destruct (Z.eq_dec h (EthBlockNum (firstSavedBlock s) + Z.of_nat (S k)))
    as [<-|Hneq].
  - rewrite Heth, Hget. cbn [bind].
    apply Z.eqb_eq in Hhash. rewrite Hhash. reflexivity.
  - destruct (Hdiff (EthBlockNum (firstSavedBlock s) + Z.of_nat (S k)))
      as (eb & hb & -> & -> & Hne); [lia|].
    cbn [bind]. apply Z.eqb_neq in Hne. rewrite Hne.
    apply IH; [lia|]. intros n Hn. apply Hdiff. lia.
Qed.



(** A chain whose blocks 0 to 3 have the hashes 100 to 103 and whose
    blocks 4 and 5 have the hashes 204 and 205, and a history that stored
    the blocks 1 to 5 with the hashes 101 to 105: its blocks 4 and 5 are
    uncles. *)
Definition chain_ex : EthClient :=
  {| EthBlockByNumber := fun n =>
       if (0 <=? n) && (n <=? 5)
       then Ok {| EthBlockNum := n;
                  Hash := if n <=? 3 then 100 + n else 200 + n;
                  Timestamp := 0 |}
       else Err (ErrExternal 404);
     EthCurrentBlock := Ok 5 |}.

Definition stored (n : Z) : Block :=
  {| EthBlockNum := n; Hash := 100 + n; Timestamp := 0 |}.

(** Batch 1 was forged in block 2 and batch 2 in block 4; the state DB is
    at batch 2. *)
Definition sync_two_batches : Synchronizer :=
  {| ethClient := chain_ex;
     historyDB :=
       {| blocks := [stored 1; stored 2; stored 3; stored 4; stored 5];
          batches := [ {| BatchNum := 1; Batch_EthBlockNum := 2 |};
                       {| BatchNum := 2; Batch_EthBlockNum := 4 |} ] |};
     stateDB := {| currentBatch := 2; checkpoints := [1; 2] |};
     firstSavedBlock := stored 0 |}.




Example reorg_two_batches :
  reorg sync_two_batches (stored 5)
  = ({| ethClient := chain_ex;
        historyDB :=
          {| blocks := [stored 1; stored 2; stored 3];
             batches := [ {| BatchNum := 1; Batch_EthBlockNum := 2 |} ] |};
        stateDB := {| currentBatch := 1; checkpoints := [1] |};
        firstSavedBlock := stored 0 |}, Ok tt).
Proof. reflexivity. Qed.


(** ** Properties of [Status] *)

(** C8.  [Status] writes through the pointer [status], which is nil: it
    panics in every state in which [GetLastBlock] succeeds, it returns the
    error of [GetLastBlock] otherwise, and it never returns a [Status]. *)
Theorem Status_nil_pointer (s : Synchronizer) :
  Synchronizer_Status s
  = match GetLastBlock (historyDB s) with
    | Ok _ => Panic
    | Err err => Err err
    | Panic => Panic
    end
  /\ (forall status, Synchronizer_Status s <> Ok status)
  /\ (Synchronizer_Status s <> Panic <->
      exists err, GetLastBlock (historyDB s) = Err err
                  /\ Synchronizer_Status s = Err err).
Proof.
  unfold Synchronizer_Status.
  destruct (GetLastBlock (historyDB s)) as [b|e|]; cbn [bind store].
  - split; [reflexivity|]. split; [discriminate|].
    split; [congruence|]. intros (err & H & _). discriminate.
  - split; [reflexivity|]. split; [discriminate|].
    split; [eauto|discriminate].
  - split; [reflexivity|]. split; [discriminate|].
    split; [congruence|]. intros (err & H & _). discriminate.
Qed.

Example Status_two_batches :
  GetLastBlock (historyDB sync_two_batches) = Ok (stored 5)
  /\ Synchronizer_Status sync_two_batches = Panic.
Proof. split; reflexivity. Qed.

Example Status_empty_history :
  Synchronizer_Status
    {| ethClient := chain_ex; historyDB := {| blocks := []; batches := [] |};
       stateDB := {| currentBatch := 0; checkpoints := [] |};
       firstSavedBlock := stored 0 |}
  = Err ErrNoRows.
Proof. reflexivity. Qed.

(** ** [Sync] *)

(** [blocksToSync]: "for the moment we will get the latestblock - 20 as
    firstSavedBlock". *)
Definition blocksToSync : Z := 20.

(** [int64] arithmetic on block numbers. *)
Definition wrap64 (x : Z) : Z := (x + 2 ^ 63) mod 2 ^ 64 - 2 ^ 63.

(** Modelled from the spec: [HistoryDB.AddBlock], whose source is not
    available; it stores the block, and it is "idempotent over
    [eth_block_num]": a block whose number is stored already changes
    nothing. *)
Definition AddBlock (hdb : HistoryDB) (block : Block) : result HistoryDB :=
  if existsb (fun b => EthBlockNum b =? EthBlockNum block) (blocks hdb)
  then Ok hdb
  else Ok {| blocks := blocks hdb ++ [block]; batches := batches hdb |}.

Definition set_firstSavedBlock (s : Synchronizer) (block : Block)
  : Synchronizer :=
  {| ethClient := ethClient s; historyDB := historyDB s;
     stateDB := stateDB s; firstSavedBlock := block |}.

(** [rollupSync] gets information from the Rollup Contract: "To be
    implemented", it returns nil. *)
Definition rollupSync (s : Synchronizer) (block : Block)
  (lastStoredForgeL1TxsNum : Z) : result unit := Ok tt.

(** [auctionSync] gets information from the Auction Contract: "To be
    implemented", it returns nil. *)
Definition auctionSync (s : Synchronizer) : result unit := Ok tt.

(** A run that may not end: [None] when the iterations granted are used
    up, and otherwise what the call returns. *)
Definition run (A : Type) : Type := option (result A).

Definition bind_run {A B : Type} (r : result A) (k : A -> run B) : run B :=
  match r with
  | Ok a => k a
  | Err e => Some (Err e)
  | Panic => Some Panic
  end.

(** The loop [for lastSavedBlock.EthBlockNum < latestBlockNum] of [Sync],
    with the number of iterations granted. *)
Fixpoint Sync_loop (fuel : nat) (s : Synchronizer) (lastSavedBlock : Block)
  (latestBlockNum lastStoredForgeL1TxsNum : Z) : run Synchronizer :=
  if EthBlockNum lastSavedBlock <? latestBlockNum
  then
    match fuel with
    | O => None
    | S fuel' =>
        bind_run (EthBlockByNumber (ethClient s)
                    (wrap64 (EthBlockNum lastSavedBlock + 1)))
          (fun ethBlock =>
        (* Get data from the rollup contract *)
        bind_run (rollupSync s ethBlock lastStoredForgeL1TxsNum) (fun _ =>
        (* Get data from the auction contract *)
        bind_run (auctionSync s) (fun _ =>
        bind_run (AddBlock (historyDB s) ethBlock) (fun hdb =>
        let s := set_historyDB s hdb in
        (* We get the block on every iteration *)
        bind_run (GetLastBlock (historyDB s)) (fun lastSavedBlock =>
        Sync_loop fuel' s lastSavedBlock latestBlockNum
          lastStoredForgeL1TxsNum)))))
    end
  else Some (Ok s).

(** [Sync] from the comment "Syncing..." on. *)
Definition Sync_blocks (fuel : nat) (s : Synchronizer) (lastSavedBlock : Block)
  (lastStoredForgeL1TxsNum : Z) : run Synchronizer :=
  (* Get latest blockNum in blockchain *)
  bind_run (EthCurrentBlock (ethClient s)) (fun latestBlockNum =>
  Sync_loop fuel s lastSavedBlock latestBlockNum lastStoredForgeL1TxsNum).

(** [Sync] updates History and State DB with information from the
    blockchain.  It gives the synchronizer after a call that returns nil,
    and otherwise the error; the mutex is left out. *)
Definition Sync (fuel : nat) (s : Synchronizer) : run Synchronizer :=
  let lastStoredForgeL1TxsNum := 0 in
  bind_run (EthBlockByNumber (ethClient s) 0) (fun latestBlock =>
  bind_run (EthBlockByNumber (ethClient s)
              (wrap64 (EthBlockNum latestBlock - blocksToSync)))
    (fun block =>
  let s := set_firstSavedBlock s block in
  (* Get lastSavedBlock from History DB *)
  match GetLastBlock (historyDB s) with
  | Panic => Some Panic
  | Err ErrNoRows =>
      (* In case of nil we must do a full sync *)
      Sync_blocks fuel s (firstSavedBlock s) lastStoredForgeL1TxsNum
  | Err err => Some (Err err)
  | Ok lastSavedBlock =>
      if EthBlockNum lastSavedBlock =? 0
      then Sync_blocks fuel s (firstSavedBlock s) lastStoredForgeL1TxsNum
      else
        (* Get the latest block we have in History DB from blockchain to
           detect a reorg *)
        bind_run (EthBlockByNumber (ethClient s) (EthBlockNum lastSavedBlock))
          (fun ethBlock =>
        if negb (Hash ethBlock =? Hash lastSavedBlock)
        then
          (* Reorg detected *)
          match reorg s lastSavedBlock with
          | (s, Ok _) =>
              bind_run (GetLastBlock (historyDB s)) (fun lastSavedBlock =>
              Sync_blocks fuel s lastSavedBlock lastStoredForgeL1TxsNum)
          | (_, Err err) => Some (Err err)
          | (_, Panic) => Some Panic
          end
        else Sync_blocks fuel s lastSavedBlock lastStoredForgeL1TxsNum)
  end)).

(** ** Properties of [Sync] *)

(** The client follows a chain whose head is the block [head]: it gives
    the head for the number 0 and as the current block, and the block of
    the chain for every number from 1 to [head]. *)
Definition follows (c : EthClient) (chain : Z -> Block) (head : Z) : Prop :=
  EthBlockByNumber c 0 = Ok (chain head)
  /\ EthCurrentBlock c = Ok head
  /\ (forall n, 1 <= n <= head -> EthBlockByNumber c n = Ok (chain n))
  /\ (forall n, EthBlockNum (chain n) = n).

(** The [k] blocks of a chain from the number [lo] on. *)
Fixpoint blocks_from (chain : Z -> Block) (lo : Z) (k : nat) : list Block :=
  match k with
  | O => []
  | S k' => chain lo :: blocks_from chain (lo + 1) k'
  end.

Lemma wrap64_small (x : Z) : - 2 ^ 63 <= x < 2 ^ 63 -> wrap64 x = x.
Proof.
  intros Hx. unfold wrap64.
  assert (H63 : 2 ^ 63 = 9223372036854775808) by reflexivity.
  assert (H64 : 2 ^ 64 = 18446744073709551616) by reflexivity.
  rewrite Z.mod_small; lia.
Qed.

Lemma last_block_spec (l : list Block) :
  match last_block l with
  | Some b => In b l /\ forall b', In b' l -> EthBlockNum b' <= EthBlockNum b
  | None => l = []
  end.
Proof.
  induction l as [|a l IH]; [reflexivity|].
  cbn [last_block fold_right]. fold (last_block l).
  destruct (last_block l) as [b|].
  - destruct IH as [Hin Hmax].
    destruct (Z.ltb_spec (EthBlockNum b) (EthBlockNum a)).
    + split; [left; reflexivity|]. intros b' [<-|Hb']; [lia|].
      specialize (Hmax b' Hb'). lia.
    + split; [right; exact Hin|]. intros b' [<-|Hb']; [lia|].
      apply Hmax, Hb'.
  - subst l. split; [left; reflexivity|]. intros b' [<-|[]]. lia.
Qed.

Lemma last_block_app (l : list Block) (x : Block) :
  (forall b, In b l -> EthBlockNum b < EthBlockNum x) ->
  last_block (l ++ [x]) = Some x.
Proof.
  induction l as [|a l IH]; intros Hlt; [reflexivity|].
  cbn [app last_block fold_right]. fold (last_block (l ++ [x])).
  rewrite IH by (intros b Hb; apply Hlt; right; exact Hb).
  specialize (Hlt a (or_introl eq_refl)).
  destruct (Z.ltb_spec (EthBlockNum x) (EthBlockNum a)); [lia|reflexivity].
Qed.

Lemma AddBlock_new (hdb : HistoryDB) (x : Block) :
  (forall b, In b (blocks hdb) -> EthBlockNum b < EthBlockNum x) ->
  AddBlock hdb x
  = Ok {| blocks := blocks hdb ++ [x]; batches := batches hdb |}.
Proof.
  intros Hlt. unfold AddBlock.
  destruct (existsb _ (blocks hdb)) eqn:E; [|reflexivity].
  apply existsb_exists in E. destruct E as (b & Hb & Heq).
  specialize (Hlt b Hb). lia.
Qed.

(** What the loop of [Sync] does when the client follows a chain: it
    stores the blocks of the chain above the last saved block, in order. *)
Lemma Sync_loop_follows (chain : Z -> Block) (head : Z) (k : nat) :
  head < 2 ^ 63 ->
  forall (fuel : nat) (s : Synchronizer) (lastSavedBlock : Block) (n0 : Z),
    follows (ethClient s) chain head ->
    (k <= fuel)%nat ->
    0 <= EthBlockNum lastSavedBlock ->
    EthBlockNum lastSavedBlock = head - Z.of_nat k ->
    (forall b, In b (blocks (historyDB s)) ->
       EthBlockNum b <= EthBlockNum lastSavedBlock) ->
    exists s',
      Sync_loop fuel s lastSavedBlock head n0 = Some (Ok s')
      /\ blocks (historyDB s')
         = blocks (historyDB s)
           ++ blocks_from chain (EthBlockNum lastSavedBlock + 1) k
      /\ batches (historyDB s') = batches (historyDB s)
      /\ stateDB s' = stateDB s
      /\ ethClient s' = ethClient s
      /\ firstSavedBlock s' = firstSavedBlock s.
Proof.
  intros Hhead. induction k as [|k IH];
    intros fuel s lastSavedBlock n0 Hf Hfuel Hpos Hlast Hmax.
  - exists s. destruct fuel; cbn [Sync_loop];
      (replace (EthBlockNum lastSavedBlock <? head) with false
         by (symmetry; apply Z.ltb_ge; lia));
      rewrite app_nil_r; repeat split.
  - destruct fuel as [|fuel]; [lia|]. cbn [Sync_loop].
    replace (EthBlockNum lastSavedBlock <? head) with true
      by (symmetry; apply Z.ltb_lt; lia).
    destruct Hf as (H0 & Hcur & Hn & Hnum).
    set (l := EthBlockNum lastSavedBlock) in *.
    assert (H63 : 2 ^ 63 = 9223372036854775808) by reflexivity.
    rewrite wrap64_small by lia.
    rewrite (Hn (l + 1)) by lia. cbn [bind_run rollupSync auctionSync].
    rewrite AddBlock_new
      by (intros b Hb; rewrite Hnum; specialize (Hmax b Hb); lia).
    cbn [bind_run]. unfold GetLastBlock.
    cbn [historyDB set_historyDB blocks].
    rewrite last_block_app
      by (intros b Hb; rewrite Hnum; specialize (Hmax b Hb); lia).
    cbn [bind_run].
    destruct (IH fuel
                (set_historyDB s
                   {| blocks := blocks (historyDB s) ++ [chain (l + 1)];
                      batches := batches (historyDB s) |})
                (chain (l + 1)) n0)
      as (s' & Hrun & Hb & Hbat & Hst & Hcl & Hfs).
    + cbn [ethClient set_historyDB]. repeat split; assumption.
    + lia.
    + rewrite Hnum. lia.
    + rewrite Hnum. lia.
    + cbn [historyDB set_historyDB blocks]. intros b Hb.
      rewrite Hnum. apply in_app_or in Hb. destruct Hb as [Hb|[<-|[]]].
      * specialize (Hmax b Hb). lia.
      * rewrite Hnum. lia.
    + exists s'. split; [exact Hrun|].
      rewrite Hb, Hnum. cbn [historyDB set_historyDB blocks blocks_from].
      rewrite <- app_assoc. repeat split; assumption.
Qed.

Lemma Sync_blocks_follows (chain : Z -> Block) (head : Z)
  (fuel : nat) (s : Synchronizer) (lastSavedBlock : Block) (n0 : Z) :
  head < 2 ^ 63 ->
  follows (ethClient s) chain head ->
  0 <= EthBlockNum lastSavedBlock <= head ->
  (Z.to_nat (head - EthBlockNum lastSavedBlock) <= fuel)%nat ->
  (forall b, In b (blocks (historyDB s)) ->
     EthBlockNum b <= EthBlockNum lastSavedBlock) ->
  exists s',
    Sync_blocks fuel s lastSavedBlock n0 = Some (Ok s')
    /\ blocks (historyDB s')
       = blocks (historyDB s)
         ++ blocks_from chain (EthBlockNum lastSavedBlock + 1)
              (Z.to_nat (head - EthBlockNum lastSavedBlock))
    /\ batches (historyDB s') = batches (historyDB s)
    /\ stateDB s' = stateDB s
    /\ firstSavedBlock s' = firstSavedBlock s.
Proof.
  intros Hhead Hf Hl Hfuel Hmax. unfold Sync_blocks.
  rewrite (proj1 (proj2 Hf)). cbn [bind_run].
  destruct (Sync_loop_follows chain head
              (Z.to_nat (head - EthBlockNum lastSavedBlock)) Hhead
              fuel s lastSavedBlock n0 Hf Hfuel)
    as (s' & Hrun & Hb & Hbat & Hst & _ & Hfs); try assumption; try lia.
  exists s'. repeat split; assumption.
Qed.

(** X12.  A first synchronization stores the last 20 blocks of the chain.
    When the history has no block, or its last block has the number 0,
    and the client follows a chain of more than 20 blocks, [Sync] ends
    within 20 iterations of its loop and returns nil; it has then stored
    the blocks [head - 19] to [head] of the chain, in order, after the
    blocks that the history had; the block [head - 20], which it keeps as
    [firstSavedBlock], is not stored, and the batches and the state DB
    are as they were. *)
Theorem Sync_cold_start (chain : Z -> Block) (head : Z) (fuel : nat)
  (s : Synchronizer) :
  follows (ethClient s) chain head ->
  blocksToSync < head < 2 ^ 63 ->
  (forall b, GetLastBlock (historyDB s) = Ok b -> EthBlockNum b = 0) ->
  (20 <= fuel)%nat ->
  exists s',
    Sync fuel s = Some (Ok s')
    /\ blocks (historyDB s')
       = blocks (historyDB s) ++ blocks_from chain (head - 19) 20
    /\ batches (historyDB s') = batches (historyDB s)
    /\ stateDB s' = stateDB s
    /\ firstSavedBlock s' = chain (head - 20).
Proof.
  intros Hf Hhead Hcold Hfuel. unfold blocksToSync in *.
  pose proof Hf as (H0 & Hcur & Hn & Hnum).
  assert (H63 : 2 ^ 63 = 9223372036854775808) by reflexivity.
  unfold Sync. rewrite H0. cbn [bind_run]. rewrite Hnum.
  unfold blocksToSync. rewrite wrap64_small by lia.
  rewrite (Hn (head - 20)) by lia. cbn [bind_run].
  assert (Hmax : forall b, In b (blocks (historyDB s)) ->
                   EthBlockNum b <= head - 20).
  { intros b Hb. unfold GetLastBlock in Hcold.
    pose proof (last_block_spec (blocks (historyDB s))) as Hspec.
    destruct (last_block (blocks (historyDB s))) as [b0|].
    - destruct Hspec as [_ Hle]. specialize (Hle b Hb).
      specialize (Hcold b0 eq_refl). lia.
    - rewrite Hspec in Hb. destruct Hb. }
  destruct (Sync_blocks_follows chain head fuel
              (set_firstSavedBlock s (chain (head - 20)))
              (chain (head - 20)) 0)
    as (s' & Hrun & Hb & Hbat & Hst & Hfs).
  - lia.
  - exact Hf.
  - rewrite Hnum. lia.
  - rewrite Hnum. lia.
  - cbn [historyDB set_firstSavedBlock]. intros b Hb. rewrite Hnum.
    apply Hmax, Hb.
  - rewrite Hnum in Hb.
    replace (head - (head - 20)) with 20 in Hb by lia.
    replace (head - 20 + 1) with (head - 19) in Hb by lia.
    change (Z.to_nat 20) with 20%nat in Hb.
    exists s'. split; [|repeat split; assumption].
    cbn [historyDB set_firstSavedBlock firstSavedBlock].
    destruct (GetLastBlock (historyDB s)) as [b0| |] eqn:Hlast.
    + rewrite (Hcold b0 eq_refl). cbn [Z.eqb]. exact Hrun.
    + unfold GetLastBlock in Hlast.
      destruct (last_block _); [discriminate|]. injection Hlast as <-.
      exact Hrun.
    + unfold GetLastBlock in Hlast. destruct (last_block _); discriminate.
Qed.

(** X13.  Without a reorg [Sync] only appends.  When the last block of the
    history, whose number is not 0, has the hash of the block of that
    number on the chain that the client follows, [Sync] ends within
    [head - last] iterations and returns nil; it has then stored the
    blocks of the chain from [last + 1] to [head] after the blocks that
    the history had, and nothing else has changed but [firstSavedBlock]:
    on a history that is up to date it stores nothing. *)
Theorem Sync_no_reorg (chain : Z -> Block) (head : Z) (fuel : nat)
  (s : Synchronizer) (block lastSavedBlock : Block) :
  follows (ethClient s) chain head ->
  head < 2 ^ 63 ->
  EthBlockByNumber (ethClient s) (head - blocksToSync) = Ok block ->
  GetLastBlock (historyDB s) = Ok lastSavedBlock ->
  1 <= EthBlockNum lastSavedBlock <= head ->
  Hash (chain (EthBlockNum lastSavedBlock)) = Hash lastSavedBlock ->
  (Z.to_nat (head - EthBlockNum lastSavedBlock) <= fuel)%nat ->
  exists s',
    Sync fuel s = Some (Ok s')
    /\ blocks (historyDB s')
       = blocks (historyDB s)
         ++ blocks_from chain (EthBlockNum lastSavedBlock + 1)
              (Z.to_nat (head - EthBlockNum lastSavedBlock))
    /\ batches (historyDB s') = batches (historyDB s)
    /\ stateDB s' = stateDB s
    /\ firstSavedBlock s' = block.
Proof.
  intros Hf Hhead Hfirst Hlast Hl Hhash Hfuel.
  pose proof Hf as (H0 & Hcur & Hn & Hnum).
  assert (H63 : 2 ^ 63 = 9223372036854775808) by reflexivity.
  unfold Sync. rewrite H0. cbn [bind_run]. rewrite Hnum.
  unfold blocksToSync in *. rewrite wrap64_small by lia.
  rewrite Hfirst. cbn [bind_run].
  cbn [historyDB set_firstSavedBlock ethClient firstSavedBlock].
  rewrite Hlast.
  replace (EthBlockNum lastSavedBlock =? 0) with false
    by (symmetry; apply Z.eqb_neq; lia).
  rewrite (Hn (EthBlockNum lastSavedBlock)) by lia. cbn [bind_run].
  replace (Hash (chain (EthBlockNum lastSavedBlock)) =? Hash lastSavedBlock)
    with true by (symmetry; apply Z.eqb_eq; exact Hhash).
  cbn [negb].
  destruct (Sync_blocks_follows chain head fuel
              (set_firstSavedBlock s block) lastSavedBlock 0)
    as (s' & Hrun & Hb & Hbat & Hst & Hfs).
  - lia.
  - exact Hf.
  - lia.
  - exact Hfuel.
  - cbn [historyDB set_firstSavedBlock]. intros b Hb.
    unfold GetLastBlock in Hlast.
    pose proof (last_block_spec (blocks (historyDB s))) as Hspec.
    destruct (last_block (blocks (historyDB s))) as [b0|]; [|discriminate].
    injection Hlast as ->. apply Hspec, Hb.
  - exists s'. repeat split; assumption.
Qed.

(** The state DB that [reorg] leaves when it truncates the history to the
    height [h]: reset to the last batch at or below [h], or as it was when
    no batch remains. *)
Definition reorg_stateDB (hdb : HistoryDB) (sdb : StateDB) (h : Z)
  (sdb' : StateDB) : Prop :=
  (no_batch_at_or_below hdb h /\ sdb' = sdb)
  \/ (exists m, last_batch_at_or_below hdb h m /\ m <> 0
                /\ Reset sdb m = Ok sdb').

Lemma reorg_found (s : Synchronizer) (uncleBlock : Block) (h : Z)
  (sdb' : StateDB) :
  EthBlockNum (firstSavedBlock s) < h <= EthBlockNum uncleBlock ->
  (forall n, h < n <= EthBlockNum uncleBlock -> differ_at s n) ->
  match_at s h ->
  reorg_stateDB (historyDB s) (stateDB s) h sdb' ->
  reorg s uncleBlock
  = (set_stateDB (set_historyDB s (truncated (historyDB s) h)) sdb', Ok tt).
Proof.
  intros Hh Hdiff (ethBlock & block & Heth & Hget & Hhash) Hsdb.
  assert (Hloop : reorg_loop s
                    (Z.to_nat (EthBlockNum uncleBlock
                               - EthBlockNum (firstSavedBlock s)))
                  = Ok (Some block)).
  { apply (reorg_loop_found s _ h ethBlock block); try assumption.
    - lia.
    - intros n Hn. apply Hdiff. lia. }
  destruct (GetBlock_num _ _ _ Hget) as [Hnum _].
  unfold reorg. rewrite Hloop. cbn [Reorg]. rewrite Hnum.
  fold (truncated (historyDB s) h).
  change (historyDB (set_historyDB s (truncated (historyDB s) h)))
    with (truncated (historyDB s) h).
  destruct Hsdb as [[Hnone ->] | (m & [(b & Hin & Hle & Hbm) Hmax] & Hm0
                                    & Hreset)].
  - rewrite GetLastBatchNum_none; [reflexivity|].
    destruct (batches (truncated (historyDB s) h)) as [|b l] eqn:Hb;
      [reflexivity|].
    exfalso. assert (Hin : In b (batches (truncated (historyDB s) h)))
      by (rewrite Hb; left; reflexivity).
    apply truncated_batches in Hin. destruct Hin as [Hin Hle].
    exact (Hnone b Hin Hle).
  - rewrite (GetLastBatchNum_max _ m).
    + replace (negb (m =? 0)) with true
        by (symmetry; apply negb_true_iff, Z.eqb_neq; exact Hm0).
      change (stateDB (set_historyDB s (truncated (historyDB s) h)))
        with (stateDB s).
      rewrite Hreset. reflexivity.
    + exists b. split; [|exact Hbm]. apply truncated_batches. auto.
    + intros b' Hb'. apply truncated_batches in Hb'.
      destruct Hb' as [Hb' Hle']. apply Hmax; assumption.
Qed.

(** X14.  After a reorg [Sync] follows the chain from the common ancestor.
    When the last block of the history has another hash than the block of
    its number on the chain that the client follows, and going down from
    it the history has a block with another hash than the chain at every
    height above [h] and a block with the hash of the chain at the height
    [h], above [firstSavedBlock], then [Sync] ends within [head - h]
    iterations of its loop and returns nil; the history then holds the
    blocks and batches that it had up to [h] and, after them, the blocks
    of the chain from [h + 1] to [head]; the state DB is reset to the last
    batch at or below [h], if there is one. *)
Theorem Sync_reorg (chain : Z -> Block) (head h : Z) (fuel : nat)
  (s : Synchronizer) (block lastSavedBlock : Block) (sdb' : StateDB) :
  follows (ethClient s) chain head ->
  head < 2 ^ 63 ->
  EthBlockByNumber (ethClient s) (head - blocksToSync) = Ok block ->
  GetLastBlock (historyDB s) = Ok lastSavedBlock ->
  EthBlockNum lastSavedBlock <= head ->
  Hash (chain (EthBlockNum lastSavedBlock)) <> Hash lastSavedBlock ->
  EthBlockNum block < h < EthBlockNum lastSavedBlock ->
  1 <= h ->
  (forall n, h < n <= EthBlockNum lastSavedBlock ->
     exists b, GetBlock (historyDB s) n = Ok b /\ Hash b <> Hash (chain n)) ->
  (exists b, GetBlock (historyDB s) h = Ok b /\ Hash b = Hash (chain h)) ->
  reorg_stateDB (historyDB s) (stateDB s) h sdb' ->
  (Z.to_nat (head - h) <= fuel)%nat ->
  exists s',
    Sync fuel s = Some (Ok s')
    /\ blocks (historyDB s')
       = filter (fun b => EthBlockNum b <=? h) (blocks (historyDB s))
         ++ blocks_from chain (h + 1) (Z.to_nat (head - h))
    /\ batches (historyDB s')
       = filter (fun b => Batch_EthBlockNum b <=? h) (batches (historyDB s))
    /\ stateDB s' = sdb'
    /\ firstSavedBlock s' = block.
Proof.
  intros Hf Hhead Hfirst Hlast Hl Hhash Hh Hh1 Hdiff Hmatch Hsdb Hfuel.
  pose proof Hf as (H0 & Hcur & Hn & Hnum).
  assert (H63 : 2 ^ 63 = 9223372036854775808) by reflexivity.
  unfold Sync. rewrite H0. cbn [bind_run]. rewrite Hnum.
  unfold blocksToSync in *. rewrite wrap64_small by lia.
  rewrite Hfirst. cbn [bind_run].
  set (s1 := set_firstSavedBlock s block).
  change (historyDB s1) with (historyDB s).
  change (ethClient s1) with (ethClient s).
  rewrite Hlast.
  replace (EthBlockNum lastSavedBlock =? 0) with false
    by (symmetry; apply Z.eqb_neq; lia).
  rewrite (Hn (EthBlockNum lastSavedBlock)) by lia. cbn [bind_run].
  replace (Hash (chain (EthBlockNum lastSavedBlock)) =? Hash lastSavedBlock)
    with false by (symmetry; apply Z.eqb_neq; exact Hhash).
  cbn [negb].
  rewrite (reorg_found s1 lastSavedBlock h sdb').
  - set (s2 := set_stateDB
                 (set_historyDB s1 (truncated (historyDB s1) h)) sdb').
    change (historyDB s2) with (truncated (historyDB s) h).
    destruct Hmatch as (bh & Hget & Hbh).
    destruct (GetBlock_num _ _ _ Hget) as [Hbnum Hbin].
    pose proof (last_block_spec (blocks (truncated (historyDB s) h)))
      as Hspec.
    unfold GetLastBlock.
    destruct (last_block (blocks (truncated (historyDB s) h))) as [b0|].
    + destruct Hspec as [Hin0 Hmax0]. cbn [bind_run].
      assert (Hb0 : EthBlockNum b0 = h).
      { apply truncated_blocks in Hin0.
        assert (Hbt : In bh (blocks (truncated (historyDB s) h)))
          by (apply truncated_blocks; split; [exact Hbin | lia]).
        specialize (Hmax0 bh Hbt). lia. }
      destruct (Sync_blocks_follows chain head fuel s2 b0 0)
        as (s' & Hrun & Hb & Hbat & Hst & Hfs).
      * lia.
      * exact Hf.
      * lia.
      * rewrite Hb0. exact Hfuel.
      * exact Hmax0.
      * exists s'. rewrite Hb0 in Hb. repeat split; assumption.
    + exfalso.
      assert (Hbt : In bh (blocks (truncated (historyDB s) h)))
        by (apply truncated_blocks; split; [exact Hbin | lia]).
      rewrite Hspec in Hbt. destruct Hbt.
  - cbn [firstSavedBlock s1 set_firstSavedBlock]. lia.
  - intros n Hn'. destruct (Hdiff n Hn') as (b & Hget & Hne).
    exists (chain n), b. split; [apply Hn; lia|]. split; assumption.
  - destruct Hmatch as (b & Hget & Heq).
    exists (chain h), b. split; [apply Hn; lia|]. split; assumption.
  - exact Hsdb.
Qed.

(** A chain whose block [n] has the hash [1000 + n], and a client that
    follows it up to a head. *)
Definition chain_1000 (n : Z) : Block :=
  {| EthBlockNum := n; Hash := 1000 + n; Timestamp := 0 |}.

Definition client_of (chain : Z -> Block) (head : Z) : EthClient :=
  {| EthBlockByNumber := fun n =>
       if n =? 0 then Ok (chain head)
       else if (1 <=? n) && (n <=? head) then Ok (chain n)
            else Err (ErrExternal 404);
     EthCurrentBlock := Ok head |}.

Lemma client_of_follows (chain : Z -> Block) (head : Z) :
  (forall n, EthBlockNum (chain n) = n) ->
  follows (client_of chain head) chain head.
Proof.
  intros Hnum. split; [reflexivity|]. split; [reflexivity|].
  split; [|exact Hnum]. intros n Hn. cbn.
  replace (n =? 0) with false by (symmetry; apply Z.eqb_neq; lia).
  replace ((1 <=? n) && (n <=? head)) with true
    by (symmetry; apply andb_true_iff; split; apply Z.leb_le; lia).
  reflexivity.
Qed.

(** A synchronizer with an empty history, one that stored the block 23 of
    the chain, and one that stored the blocks 21 and 22 of the chain and
    then an uncle in the place of the block 23, with a batch forged in
    the block 22 and one forged in the uncle. *)
Definition sync_empty : Synchronizer :=
  {| ethClient := client_of chain_1000 25;
     historyDB := {| blocks := []; batches := [] |};
     stateDB := {| currentBatch := 0; checkpoints := [] |};
     firstSavedBlock := chain_1000 0 |}.

Definition sync_at_23 : Synchronizer :=
  {| ethClient := client_of chain_1000 25;
     historyDB := {| blocks := [chain_1000 23]; batches := [] |};
     stateDB := {| currentBatch := 0; checkpoints := [] |};
     firstSavedBlock := chain_1000 0 |}.

Definition uncle_23 : Block :=
  {| EthBlockNum := 23; Hash := 7; Timestamp := 0 |}.

Definition sync_uncle_23 : Synchronizer :=
  {| ethClient := client_of chain_1000 25;
     historyDB :=
       {| blocks := [chain_1000 21; chain_1000 22; uncle_23];
          batches := [ {| BatchNum := 1; Batch_EthBlockNum := 22 |};
                       {| BatchNum := 2; Batch_EthBlockNum := 23 |} ] |};
     stateDB := {| currentBatch := 2; checkpoints := [1; 2] |};
     firstSavedBlock := chain_1000 0 |}.

Lemma Sync_cold_start_witness :
  exists s',
    Sync 20 sync_empty = Some (Ok s')
    /\ blocks (historyDB s')
       = blocks (historyDB sync_empty) ++ blocks_from chain_1000 (25 - 19) 20
    /\ batches (historyDB s') = batches (historyDB sync_empty)
    /\ stateDB s' = stateDB sync_empty
    /\ firstSavedBlock s' = chain_1000 (25 - 20).
Proof.
  apply (Sync_cold_start chain_1000 25 20 sync_empty).
  - apply client_of_follows. reflexivity.
  - split; reflexivity.
  - intros b H. vm_compute in H. discriminate.
  - lia.
Defined.

Lemma Sync_no_reorg_witness :
  exists s',
    Sync 2 sync_at_23 = Some (Ok s')
    /\ blocks (historyDB s')
       = blocks (historyDB sync_at_23)
         ++ blocks_from chain_1000 (EthBlockNum (chain_1000 23) + 1)
              (Z.to_nat (25 - EthBlockNum (chain_1000 23)))
    /\ batches (historyDB s') = batches (historyDB sync_at_23)
    /\ stateDB s' = stateDB sync_at_23
    /\ firstSavedBlock s' = chain_1000 5.
Proof.
  apply (Sync_no_reorg chain_1000 25 2 sync_at_23 (chain_1000 5)
           (chain_1000 23)).
  - apply client_of_follows. reflexivity.
  - reflexivity.
  - reflexivity.
  - reflexivity.
  - cbn. lia.
  - reflexivity.
  - cbn. lia.
Defined.

Lemma Sync_reorg_witness :
  exists s',
    Sync 3 sync_uncle_23 = Some (Ok s')
    /\ blocks (historyDB s')
       = filter (fun b => EthBlockNum b <=? 22)
           (blocks (historyDB sync_uncle_23))
         ++ blocks_from chain_1000 (22 + 1) (Z.to_nat (25 - 22))
    /\ batches (historyDB s')
       = filter (fun b => Batch_EthBlockNum b <=? 22)
           (batches (historyDB sync_uncle_23))
    /\ stateDB s' = {| currentBatch := 1; checkpoints := [1] |}
    /\ firstSavedBlock s' = chain_1000 5.
Proof.
  apply (Sync_reorg chain_1000 25 22 3 sync_uncle_23 (chain_1000 5)
           uncle_23).
  - apply client_of_follows. reflexivity.
  - reflexivity.
  - reflexivity.
  - reflexivity.
  - cbn. lia.
  - cbn. discriminate.
  - cbn. lia.
  - lia.
  - intros n Hn. cbn in Hn. assert (n = 23) as -> by lia.
    exists uncle_23. split; [reflexivity | cbn; discriminate].
  - exists (chain_1000 22). split; reflexivity.
  - right. exists 1. split; [|split; [discriminate | reflexivity]].
    split.
    + exists {| BatchNum := 1; Batch_EthBlockNum := 22 |}.
      split; [left; reflexivity|]. split; [cbn; lia | reflexivity].
    + intros b [<-|[<-|[]]]; cbn; lia.
  - cbn. lia.
Defined.

(** ** What [reorg] leaves alone *)

Lemma reorg_loop_Some (s : Synchronizer) (k : nat) (block : Block) :
  reorg_loop s k = Ok (Some block) ->
  EthBlockNum (firstSavedBlock s) < EthBlockNum block
  <= EthBlockNum (firstSavedBlock s) + Z.of_nat k.
Proof.
  induction k as [|k IH]; [discriminate|]. cbn [reorg_loop].
  destruct (EthBlockByNumber (ethClient s) _) as [ethBlock| |];
    cbn [bind]; try discriminate.
  destruct (GetBlock (historyDB s) _) as [b| |] eqn:Hget;
    cbn [bind]; try discriminate.
  destruct (Hash b =? Hash ethBlock).
  - intros [= <-]. apply GetBlock_num in Hget. lia.
  - intros H. apply IH in H. lia.
Qed.

(** X22.  [reorg] only truncates, and only above [firstSavedBlock].
    Whatever it returns, it leaves the history as it was or truncated to
    a height [h] above the number of [firstSavedBlock] and not above the
    uncle block, so that it adds no block and deletes none at or below
    [firstSavedBlock]; and it changes the state DB only when it returns
    nil. *)
Theorem reorg_frame (s : Synchronizer) (uncleBlock : Block) :
  let s' := fst (reorg s uncleBlock) in
  ethClient s' = ethClient s
  /\ firstSavedBlock s' = firstSavedBlock s
  /\ (historyDB s' = historyDB s
      \/ exists h,
           EthBlockNum (firstSavedBlock s) < h <= EthBlockNum uncleBlock
           /\ historyDB s' = truncated (historyDB s) h)
  /\ (snd (reorg s uncleBlock) <> Ok tt -> stateDB s' = stateDB s)
  /\ (forall b, In b (blocks (historyDB s')) -> In b (blocks (historyDB s)))
  /\ (forall b, In b (blocks (historyDB s)) ->
        EthBlockNum b <= EthBlockNum (firstSavedBlock s) ->
        In b (blocks (historyDB s'))).
Proof.
  assert (Hmain :
    let s' := fst (reorg s uncleBlock) in
    ethClient s' = ethClient s
    /\ firstSavedBlock s' = firstSavedBlock s
    /\ (historyDB s' = historyDB s
        \/ exists h,
             EthBlockNum (firstSavedBlock s) < h <= EthBlockNum uncleBlock
             /\ historyDB s' = truncated (historyDB s) h)
    /\ (snd (reorg s uncleBlock) <> Ok tt -> stateDB s' = stateDB s)).
  { unfold reorg.
    destruct (reorg_loop s _) as [[block|]| |] eqn:Hloop; cbn [fst snd];
      try solve [repeat split; auto].
    apply reorg_loop_Some in Hloop.
    cbn [Reorg]. fold (truncated (historyDB s) (EthBlockNum block)).
    assert (Hh : exists h,
               EthBlockNum (firstSavedBlock s) < h <= EthBlockNum uncleBlock
               /\ truncated (historyDB s) (EthBlockNum block)
                  = truncated (historyDB s) h)
      by (exists (EthBlockNum block); split; [lia | reflexivity]).
    assert (Hif :
      let r := if negb (fst (GetLastBatchNum
                               (truncated (historyDB s) (EthBlockNum block)))
                        =? 0)
               then
                 match Reset (stateDB s)
                         (fst (GetLastBatchNum
                                 (truncated (historyDB s)
                                    (EthBlockNum block)))) with
                 | Panic =>
                     (set_historyDB s
                        (truncated (historyDB s) (EthBlockNum block)), Panic)
                 | Err err =>
                     (set_historyDB s
                        (truncated (historyDB s) (EthBlockNum block)),
                      Err err)
                 | Ok sdb =>
                     (set_stateDB
                        (set_historyDB s
                           (truncated (historyDB s) (EthBlockNum block)))
                        sdb, Ok tt)
                 end
               else (set_historyDB s
                       (truncated (historyDB s) (EthBlockNum block)), Ok tt)
      in
      ethClient (fst r) = ethClient s
      /\ firstSavedBlock (fst r) = firstSavedBlock s
      /\ (historyDB (fst r) = historyDB s
          \/ exists h,
               EthBlockNum (firstSavedBlock s) < h <= EthBlockNum uncleBlock
               /\ historyDB (fst r) = truncated (historyDB s) h)
      /\ (snd r <> Ok tt -> stateDB (fst r) = stateDB s)).
    { cbv zeta. destruct (negb _).
      - destruct (Reset _ _); cbn [fst snd ethClient firstSavedBlock
                                    historyDB stateDB set_historyDB
                                    set_stateDB];
          (split; [reflexivity|]; split; [reflexivity|];
           split; [right; exact Hh|]; congruence).
      - cbn [fst snd ethClient firstSavedBlock historyDB stateDB
               set_historyDB].
        split; [reflexivity|]. split; [reflexivity|].
        split; [right; exact Hh|]. congruence. }
    cbv zeta in Hif.
    change (historyDB (set_historyDB s
                         (truncated (historyDB s) (EthBlockNum block))))
      with (truncated (historyDB s) (EthBlockNum block)).
    change (stateDB (set_historyDB s
                       (truncated (historyDB s) (EthBlockNum block))))
      with (stateDB s).
    destruct (GetLastBatchNum _) as [batchNum [e|]]; cbn [fst] in Hif.
    - destruct e; try exact Hif;
        cbn [fst snd ethClient firstSavedBlock historyDB stateDB
               set_historyDB];
        (split; [reflexivity|]; split; [reflexivity|];
         split; [right; exact Hh|]; reflexivity).
    - exact Hif. }
  cbv zeta in *. destruct Hmain as (Hc & Hf & Hh & Hs).
  split; [exact Hc|]. split; [exact Hf|]. split; [exact Hh|].
  split; [exact Hs|].
  destruct Hh as [-> | (h & Hh & ->)]; [split; auto|].
  split.
  - intros b Hb. apply truncated_blocks in Hb. apply Hb.
  - intros b Hb Hle. apply truncated_blocks. split; [exact Hb | lia].
Qed.

(** X23.  [reorg] is not atomic.  When the hashes match at a height [h] of
    the window and differ above it, and the reset of the state DB to the
    last batch at or below [h] fails, [reorg] returns the error of the
    reset after it has truncated the history: the history is at [h] and
    the state DB is where it was. *)
Theorem reorg_Reset_fails (s : Synchronizer) (uncleBlock : Block)
  (h m : Z) (err : error) :
  EthBlockNum (firstSavedBlock s) < h <= EthBlockNum uncleBlock ->
  (forall n, h < n <= EthBlockNum uncleBlock -> differ_at s n) ->
  match_at s h ->
  last_batch_at_or_below (historyDB s) h m -> m <> 0 ->
  Reset (stateDB s) m = Err err ->
  reorg s uncleBlock
  = (set_historyDB s (truncated (historyDB s) h), Err err).
Proof.
  intros Hh Hdiff (ethBlock & block & Heth & Hget & Hhash)
    [(b & Hin & Hle & Hbm) Hmax] Hm0 Hreset.
  assert (Hloop : reorg_loop s
                    (Z.to_nat (EthBlockNum uncleBlock
                               - EthBlockNum (firstSavedBlock s)))
                  = Ok (Some block)).
  { apply (reorg_loop_found s _ h ethBlock block); try assumption.
    - lia.
    - intros n Hn. apply Hdiff. lia. }
  destruct (GetBlock_num _ _ _ Hget) as [Hnum _].
  unfold reorg. rewrite Hloop. cbn [Reorg]. rewrite Hnum.
  fold (truncated (historyDB s) h).
  change (historyDB (set_historyDB s (truncated (historyDB s) h)))
    with (truncated (historyDB s) h).
  rewrite (GetLastBatchNum_max _ m).
  - replace (negb (m =? 0)) with true
      by (symmetry; apply negb_true_iff, Z.eqb_neq; exact Hm0).
    change (stateDB (set_historyDB s (truncated (historyDB s) h)))
      with (stateDB s).
    rewrite Hreset. reflexivity.
  - exists b. split; [|exact Hbm]. apply truncated_batches. auto.
  - intros b' Hb'. apply truncated_batches in Hb'.
    destruct Hb' as [Hb' Hle']. apply Hmax; assumption.
Qed.

(** The synchronizer [sync_two_batches] with a state DB that has lost the
    checkpoint of the batch 1. *)
Definition sync_no_checkpoint : Synchronizer :=
  set_stateDB sync_two_batches {| currentBatch := 2; checkpoints := [2] |}.

Lemma reorg_Reset_fails_witness :
  reorg sync_no_checkpoint (stored 5)
  = (set_historyDB sync_no_checkpoint
       (truncated (historyDB sync_no_checkpoint) 3),
     Err (ErrMsg "checkpoint not found")).
Proof.
  apply (reorg_Reset_fails sync_no_checkpoint (stored 5) 3 1).
  - cbn. lia.
  - intros n Hn. cbn in Hn.
    assert (Hcases : n = 4 \/ n = 5) by lia.
    destruct Hcases as [-> | ->].
    + exists {| EthBlockNum := 4; Hash := 204; Timestamp := 0 |}, (stored 4).
      repeat split. cbn. discriminate.
    + exists {| EthBlockNum := 5; Hash := 205; Timestamp := 0 |}, (stored 5).
      repeat split. cbn. discriminate.
  - exists (stored 3), (stored 3). repeat split.
  - split.
    + exists {| BatchNum := 1; Batch_EthBlockNum := 2 |}.
      split; [left; reflexivity|]. split; [cbn; lia | reflexivity].
    + intros b [<-|[<-|[]]]; cbn; lia.
  - discriminate.
  - reflexivity.
Defined.

End Synchronizer.

(** * test: the generators of test data *)

Module Test.

Section RandomAccount.

(** [common.Account], with its field [EthAddr]. *)
Variable Account : Type.
Variable EthAddr : Account -> Z.

(** The loop [for { ... }] of [randomAccount], with the number of
    iterations granted: [None] when they are used up. *)
Fixpoint randomAccount_loop (fuel : nat) (i firstI : Z) (userAccount : bool)
  (userAddr : option Z) (accs : list Account)
  : option (result (Account * option error)) :=
  match fuel with
  | O => None
  | S fuel' =>
      if (0 <=? i) && (i <? Z.of_nat (length accs))
      then
        match nth_error accs (Z.to_nat i) with
        | None => Some Panic
        | Some acc =>
            match
              (if userAccount
               then match userAddr with
                    | None => Panic
                    | Some a => Ok (a =? EthAddr acc)
                    end
               else Ok false)
            with
            | Panic => Some Panic
            | Err e => Some (Err e)
            | Ok true => Some (Ok (acc, None))
            | Ok false =>
                if negb userAccount
                   && match userAddr with
                      | None => true
                      | Some a => negb (a =? EthAddr acc)
                      end
                then Some (Ok (acc, None))
                else
                  let i := i + 1 in
                  let i := Z.rem i (Z.of_nat (length accs)) in
                  if i =? firstI
                  then Some (Ok (acc,
                                 Some (ErrMsg "Didnt found any account matchinng the criteria")))
                  else randomAccount_loop fuel' i firstI userAccount
                         userAddr accs
            end
        end
      else Some Panic
  end.

(** [randomAccount] looks for an account of the user, or of another
    owner, from the position [seed % len(accs)] on.  It returns an
    account and an error, which may both be there. *)
Definition randomAccount (fuel : nat) (seed : Z) (userAccount : bool)
  (userAddr : option Z) (accs : list Account)
  : option (result (Account * option error)) :=
  if Z.of_nat (length accs) =? 0 then Some Panic
  else
    let i := Z.rem seed (Z.of_nat (length accs)) in
    let firstI := i in
    randomAccount_loop fuel i firstI userAccount userAddr accs.

(** The criteria of [randomAccount]. *)
Definition matches (userAccount : bool) (userAddr : option Z)
  (acc : Account) : bool :=
  if userAccount
  then match userAddr with
       | Some a => a =? EthAddr acc
       | None => false
       end
  else match userAddr with
       | None => true
       | Some a => negb (a =? EthAddr acc)
       end.

(** The accounts from the position [j] on, and then those before it. *)
Definition rotate (j : nat) (accs : list Account) : list Account :=
  skipn j accs ++ firstn j accs.

(** The position in [accs] of the account at the position [k] of
    [rotate j accs]. *)
Definition position (j k n : nat) : nat :=
  if (j + k <? n)%nat then (j + k)%nat else (j + k - n)%nat.

Lemma rotate_length (j : nat) (accs : list Account) :
  length (rotate j accs) = length accs.
Proof.
  unfold rotate. rewrite length_app, length_skipn, length_firstn. lia.
Qed.

Lemma rotate_nth (j k : nat) (accs : list Account) :
  (j < length accs)%nat -> (k < length accs)%nat ->
  nth_error (rotate j accs) k = nth_error accs (position j k (length accs)).
Proof.
  intros Hj Hk. unfold rotate, position.
  destruct (Nat.ltb_spec (j + k) (length accs)) as [Hlt|Hge].
  - rewrite nth_error_app1 by (rewrite length_skipn; lia).
    apply nth_error_skipn.
  - rewrite nth_error_app2 by (rewrite length_skipn; lia).
    rewrite length_skipn, nth_error_firstn.
    destruct (Nat.ltb_spec (k - (length accs - j)) j); [|lia].
    f_equal. lia.
Qed.

Lemma skipn_nth_error (k : nat) (l : list Account) (x : Account) :
  nth_error l k = Some x -> skipn k l = x :: skipn (S k) l.
Proof.
  revert l. induction k as [|k IH]; intros [|y l] H; try discriminate.
  - injection H as ->. reflexivity.
  - cbn [skipn]. apply IH. exact H.
Qed.

(** The last element of a list that is not empty, whatever the default. *)
Lemma last_default (l : list Account) (d d' : Account) :
  l <> [] -> last l d = last l d'.
Proof.
  induction l as [|x l IH]; [congruence|]. intros _.
  destruct l as [|y l]; [reflexivity|].
  change (last (y :: l) d = last (y :: l) d'). apply IH. discriminate.
Qed.

Lemma last_account_In (l : list Account) (d : Account) :
  l <> [] -> In (last l d) l.
Proof.
  induction l as [|x l IH]; [congruence|]. intros _.
  destruct l as [|y l]; [left; reflexivity|].
  right. apply IH. discriminate.
Qed.

Lemma randomAccount_loop_spec (j : nat) (userAccount : bool) (a : option Z)
  (accs : list Account) (d : Account) :
  (j < length accs)%nat ->
  (userAccount = true -> a <> None) ->
  forall (m k fuel : nat),
    (k + m = length accs)%nat -> (0 < m)%nat -> (m <= fuel)%nat ->
    randomAccount_loop fuel (Z.of_nat (position j k (length accs)))
      (Z.of_nat j) userAccount a accs
    = Some (Ok match find (matches userAccount a) (skipn k (rotate j accs)) with
               | Some acc => (acc, None)
               | None =>
                   (last (rotate j accs) d,
                    Some (ErrMsg "Didnt found any account matchinng the criteria"))
               end).
Proof.
  intros Hj Hua. induction m as [|m IH]; intros k fuel Hkm Hm Hfuel; [lia|].
  destruct fuel as [|fuel]; [lia|].
  assert (Hk : (k < length accs)%nat) by lia.
  assert (Hpos : (position j k (length accs) < length accs)%nat).
  { unfold position. destruct (Nat.ltb_spec (j + k) (length accs)); lia. }
  cbn [randomAccount_loop].
  replace ((0 <=? Z.of_nat (position j k (length accs)))
           && (Z.of_nat (position j k (length accs))
               <? Z.of_nat (length accs))) with true
    by (symmetry; apply andb_true_iff; split;
        [apply Z.leb_le | apply Z.ltb_lt]; lia).
  rewrite Nat2Z.id, <- rotate_nth by assumption.
  destruct (nth_error (rotate j accs) k) as [acc|] eqn:Hnth.
  2:{ apply nth_error_None in Hnth. rewrite rotate_length in Hnth. lia. }
  rewrite (skipn_nth_error _ _ _ Hnth). cbn [find].
  assert (Hnext : Z.rem (Z.of_nat (position j k (length accs)) + 1)
                    (Z.of_nat (length accs))
                  = Z.of_nat (position j (S k) (length accs))).
  { unfold position in *.
    destruct (Nat.ltb_spec (j + k) (length accs));
      destruct (Nat.ltb_spec (j + S k) (length accs)); try lia.
    - rewrite Z.rem_small by lia. lia.
    - replace (Z.of_nat (j + k) + 1) with (Z.of_nat (length accs)) by lia.
      rewrite Z.rem_same by lia. lia.
    - rewrite Z.rem_small by lia. lia. }
  assert (Hend : (Z.of_nat (position j (S k) (length accs)) =? Z.of_nat j)
                 = (m =? 0)%nat).
  { unfold position.
    destruct (Nat.ltb_spec (j + S k) (length accs));
      destruct (Nat.eqb_spec m 0); try lia.
    - apply Z.eqb_neq. lia.
    - apply Z.eqb_eq. lia.
    - apply Z.eqb_neq. lia. }
  unfold matches at 1.
  destruct userAccount.
  - destruct a as [a|]; [|exfalso; apply Hua; reflexivity].
    destruct (a =? EthAddr acc); [reflexivity|].
    cbn [negb andb]. rewrite Hnext, Hend.
    destruct (Nat.eqb_spec m 0) as [->|Hm0].
    + rewrite skipn_all2 by (rewrite rotate_length; lia). cbn [find].
      do 3 f_equal.
      assert (Hlen : length (rotate j accs) = S k)
        by (rewrite rotate_length; lia).
      clear - Hnth Hlen. revert k Hnth Hlen.
      induction (rotate j accs) as [|x l IHl]; intros k Hnth Hlen;
        [discriminate|].
      destruct l as [|y l].
      * destruct k; [injection Hnth as ->; reflexivity|discriminate].
      * destruct k as [|k]; [discriminate|].
        change (last (x :: y :: l) d) with (last (y :: l) d).
        apply (IHl k); [exact Hnth | cbn [length] in *; lia].
    + apply IH; lia.
  - cbn [negb andb].
    destruct a as [a|]; [|reflexivity].
    destruct (a =? EthAddr acc); cbn [negb]; [|reflexivity].
    rewrite Hnext, Hend.
    destruct (Nat.eqb_spec m 0) as [->|Hm0].
    + rewrite skipn_all2 by (rewrite rotate_length; lia). cbn [find].
      do 3 f_equal.
      assert (Hlen : length (rotate j accs) = S k)
        by (rewrite rotate_length; lia).
      clear - Hnth Hlen. revert k Hnth Hlen.
      induction (rotate j accs) as [|x l IHl]; intros k Hnth Hlen;
        [discriminate|].
      destruct l as [|y l].
      * destruct k; [injection Hnth as ->; reflexivity|discriminate].
      * destruct k as [|k]; [discriminate|].
        change (last (x :: y :: l) d) with (last (y :: l) d).
        apply (IHl k); [exact Hnth | cbn [length] in *; lia].
    + apply IH; lia.
Qed.

(** X17.  [randomAccount] searches the accounts in a circle.  For a seed
    that is not negative, accounts that are not empty and, when an account
    of the user is asked for, an address that is not nil, the search ends
    within [len(accs)] iterations.  It returns, with a nil error, the
    first account that meets the criteria on the way from the position
    [seed % len(accs)] to the end and from the start to that position;
    when no account meets the criteria it returns the error together with
    the last account it looked at, the one just before the position
    [seed % len(accs)] in the circle. *)
Theorem randomAccount_spec (fuel : nat) (seed : Z) (userAccount : bool)
  (userAddr : option Z) (accs : list Account) :
  0 <= seed -> accs <> [] ->
  (userAccount = true -> userAddr <> None) ->
  (length accs <= fuel)%nat ->
  let rot := rotate (Z.to_nat (seed mod Z.of_nat (length accs))) accs in
  match find (matches userAccount userAddr) rot with
  | Some acc =>
      randomAccount fuel seed userAccount userAddr accs = Some (Ok (acc, None))
  | None =>
      (forall d,
         randomAccount fuel seed userAccount userAddr accs
         = Some (Ok (last rot d,
                     Some (ErrMsg "Didnt found any account matchinng the criteria")))
         /\ In (last rot d) accs)
      /\ forall acc, In acc accs -> matches userAccount userAddr acc = false
  end.
Proof.
  intros Hseed Hne Hua Hfuel rot.
  destruct accs as [|d accs']; [congruence|].
  set (accs := d :: accs') in *.
  assert (Hlen : (0 < length accs)%nat) by (cbn; lia).
  set (j := Z.to_nat (seed mod Z.of_nat (length accs))) in *.
  assert (Hj : (j < length accs)%nat).
  { subst j. pose proof (Z.mod_pos_bound seed (Z.of_nat (length accs))). lia. }
  assert (Hrun : randomAccount fuel seed userAccount userAddr accs
                 = Some (Ok match find (matches userAccount userAddr) rot with
                            | Some acc => (acc, None)
                            | None =>
                                (last rot d,
                                 Some (ErrMsg "Didnt found any account matchinng the criteria"))
                            end)).
  { unfold randomAccount.
    replace (Z.of_nat (length accs) =? 0) with false
      by (symmetry; apply Z.eqb_neq; lia).
    rewrite Z.rem_mod_nonneg by lia.
    replace (seed mod Z.of_nat (length accs)) with (Z.of_nat j)
      by (subst j; pose proof (Z.mod_pos_bound seed (Z.of_nat (length accs)));
          lia).
    pose proof (randomAccount_loop_spec j userAccount userAddr accs d Hj Hua
                  (length accs) 0 fuel) as Hloop.
    unfold position in Hloop at 1.
    replace (j + 0 <? length accs)%nat with true in Hloop
      by (symmetry; apply Nat.ltb_lt; lia).
    rewrite Nat.add_0_r in Hloop. apply Hloop; lia. }
  fold rot in Hrun.
  assert (Hin : forall x, In x rot <-> In x accs).
  { intros x. unfold rot, rotate. rewrite in_app_iff.
    rewrite <- (firstn_skipn j accs) at 3. rewrite in_app_iff. tauto. }
  destruct (find (matches userAccount userAddr) rot) as [acc|] eqn:Hfind.
  - exact Hrun.
  - split.
    + intros d'.
      assert (Hr : rot <> []).
      { intros E. apply (f_equal (@length _)) in E. unfold rot in E.
        rewrite rotate_length in E. cbn [length] in E. lia. }
      rewrite (last_default rot d' d Hr).
      split; [exact Hrun|]. apply Hin, last_account_In. exact Hr.
    + intros acc Hacc. apply (find_none _ _ Hfind), Hin, Hacc.
Qed.

(** X18.  [randomAccount] panics when there is no account, on the
    division by zero; when the seed is negative and no multiple of the
    number of accounts, on the negative index; and when an account of the
    user is asked for with a nil address, on the nil pointer. *)
Theorem randomAccount_panics (fuel : nat) (seed : Z) (userAccount : bool)
  (userAddr : option Z) (accs : list Account) :
  (accs = [] ->
   randomAccount fuel seed userAccount userAddr accs = Some Panic)
  /\ (accs <> [] -> seed < 0 -> Z.rem seed (Z.of_nat (length accs)) <> 0 ->
      randomAccount (S fuel) seed userAccount userAddr accs = Some Panic)
  /\ (accs <> [] -> 0 <= seed -> userAccount = true -> userAddr = None ->
      randomAccount (S fuel) seed userAccount userAddr accs = Some Panic).
Proof.
  split; [intros ->; reflexivity|].
  assert (Hlen : accs <> [] -> (Z.of_nat (length accs) =? 0) = false).
  { intros Hne. apply Z.eqb_neq. destruct accs; [congruence | cbn; lia]. }
  split.
  - intros Hne Hseed Hrem. unfold randomAccount. rewrite (Hlen Hne).
    cbn [randomAccount_loop].
    apply Z.eqb_neq in Hlen; [|exact Hne].
    assert (Hle : Z.rem seed (Z.of_nat (length accs)) <= 0)
      by (apply Z.rem_nonpos; lia).
    replace (0 <=? Z.rem seed (Z.of_nat (length accs))) with false
      by (symmetry; apply Z.leb_gt; lia).
    reflexivity.
  - intros Hne Hseed -> ->. unfold randomAccount. rewrite (Hlen Hne).
    apply Z.eqb_neq in Hlen; [|exact Hne].
    assert (Hb : 0 <= Z.rem seed (Z.of_nat (length accs))
                 < Z.of_nat (length accs))
      by (apply Z.rem_bound_pos; lia).
    cbn [randomAccount_loop].
    replace ((0 <=? Z.rem seed (Z.of_nat (length accs)))
             && (Z.rem seed (Z.of_nat (length accs))
                 <? Z.of_nat (length accs))) with true
      by (symmetry; apply andb_true_iff; split;
          [apply Z.leb_le | apply Z.ltb_lt]; lia).
    destruct (nth_error accs _); reflexivity.
Qed.

End RandomAccount.

(** Accounts held as their Ethereum address: the user 1 has the first
    account, and the seed 6 starts the search at the third of four. *)
Lemma randomAccount_spec_witness :
  randomAccount Z (fun acc => acc) 4 6 true (Some 1) [1; 2; 3; 2]
  = Some (Ok (1, None))
  /\ randomAccount Z (fun acc => acc) 4 6 true (Some 7) [1; 2; 3; 4]
     = Some (Ok (2, Some (ErrMsg "Didnt found any account matchinng the criteria"))).
Proof.
  split.
  - apply (randomAccount_spec Z (fun acc => acc) 4 6 true (Some 1)
             [1; 2; 3; 2]).
    + lia.
    + discriminate.
    + discriminate.
    + cbn. lia.
  - refine (proj1 (proj1 (randomAccount_spec Z (fun acc => acc) 4 6 true
                            (Some 7) [1; 2; 3; 4] _ _ _ _) 0)).
    + lia.
    + discriminate.
    + discriminate.
    + cbn. lia.
Defined.

Lemma randomAccount_panics_witness :
  randomAccount Z (fun acc => acc) 0 6 true (Some 1) [] = Some Panic
  /\ randomAccount Z (fun acc => acc) 1 (-6) true (Some 1) [1; 2; 3; 2]
     = Some Panic
  /\ randomAccount Z (fun acc => acc) 1 6 true None [1; 2; 3; 2]
     = Some Panic.
Proof.
  split; [|split].
  - apply (proj1 (randomAccount_panics Z (fun acc => acc) 0 6 true (Some 1)
                    [])).
    reflexivity.
  - apply (proj1 (proj2 (randomAccount_panics Z (fun acc => acc) 0 (-6) true
                           (Some 1) [1; 2; 3; 2])));
      [discriminate | lia | discriminate].
  - apply (proj2 (proj2 (randomAccount_panics Z (fun acc => acc) 0 6 true
                           None [1; 2; 3; 2])));
      [discriminate | lia | reflexivity | reflexivity].
Defined.

End Test.
